(** * The one-sided MPI implementation of LIBCAF (src/mpi/mpi_caf.c)

    A shallow embedding of the parts of [mpi_caf.c] that carry the core
    contracts of the runtime: termination, registration failure, locks,
    subset synchronisation, atomics, the transfer engine and the element
    count of the reference walker.

    Build embedded here: [GCC_GE_7], [MPI_VERSION >= 3], neither
    [CAF_MPI_LOCK_UNLOCK] nor [NONBLOCKING_PUT] (so [CAF_Win_lock] expands to
    nothing and [CAF_Win_unlock] to [MPI_Win_flush]), no [STRIDED] (the
    per-element policy), no [HELPER], no [EXTRA_DEBUG_OUTPUT].  The two
    switches [WITH_FAILED_IMAGES] and [GFC_CAF_CHECK] are kept as booleans
    of a [build] record.

    C integers are [Z] with the conversion written out where the code
    converts ([to_int], [to_size_t], [to_ptrdiff_t]).  Memory is a byte
    store per MPI rank; an MPI window is a base address on every rank. *)

From Stdlib Require Import ZArith List Lia Bool String Ascii.
Import ListNotations.
Open Scope Z_scope.

(** ** C integer types *)

Module CInt.

(** Unsigned conversion to a [w]-bit type. *)
Definition unsigned (w z : Z) : Z := z mod 2 ^ w.

(** Two's complement conversion to a signed [w]-bit type. *)
Definition signed (w z : Z) : Z := (z + 2 ^ (w - 1)) mod 2 ^ w - 2 ^ (w - 1).

Definition to_size_t : Z -> Z := unsigned 64.
Definition to_ptrdiff_t : Z -> Z := signed 64.
Definition to_long : Z -> Z := signed 64.
Definition to_int : Z -> Z := signed 32.

Definition int_range (z : Z) : Prop := - 2 ^ 31 <= z < 2 ^ 31.
Definition ptrdiff_range (z : Z) : Prop := - 2 ^ 63 <= z < 2 ^ 63.

(** [sizeof (int)] *)
Definition sizeof_int : Z := 4.

End CInt.
Import CInt.

(** ** Character buffers

    A [char *] the caller hands in for an error message is the list of the
    characters stored from the pointer on; [None] is the NULL pointer. *)

Module Buf.

Definition chars (s : string) : list ascii := list_ascii_of_string s.

Definition strlen (s : string) : Z := Z.of_nat (String.length s).

(** [memcpy (buf + off, src, n)]: the first [n] characters of [src] land
    at offset [off]. *)
Definition memcpy (buf : list ascii) (off : Z) (src : list ascii) (n : Z)
  : list ascii :=
  firstn (Z.to_nat off) buf ++ firstn (Z.to_nat n) src
    ++ skipn (Z.to_nat off + Z.to_nat n) buf.

(** [memset (buf + off, c, n)] *)
Definition memset (buf : list ascii) (off : Z) (c : ascii) (n : Z)
  : list ascii :=
  firstn (Z.to_nat off) buf ++ repeat c (Z.to_nat n)
    ++ skipn (Z.to_nat off + Z.to_nat n) buf.

Definition space : ascii := " "%char.

End Buf.

(** ** Byte memory *)

Module Mem.

(** The bytes of one process, by address. *)
Definition t := Z -> Z.

Definition load (m : t) (a : Z) (n : nat) : list Z :=
  map (fun k => m (a + Z.of_nat k)) (seq 0 n).

Definition store (m : t) (a : Z) (bs : list Z) : t :=
  fun x =>
    if (a <=? x) && (x <? a + Z.of_nat (List.length bs))
    then nth (Z.to_nat (x - a)) bs 0
    else m x.

(** [memmove (dst, src, n)]: the source is read in full before the
    destination is written, so overlapping ranges are handled. *)
Definition memmove (m : t) (dst src : Z) (n : Z) : t :=
  store m dst (load m src (Z.to_nat n)).

(** Host byte order for 32-bit integers (little endian). *)
Definition bytes_of_int32 (v : Z) : list Z :=
  [v mod 256; (v / 256) mod 256; (v / 65536) mod 256; (v / 16777216) mod 256].

Definition int32_of_bytes (bs : list Z) : Z :=
  to_int (nth 0 bs 0 + 256 * nth 1 bs 0 + 65536 * nth 2 bs 0
          + 16777216 * nth 3 bs 0).

Definition load_int (m : t) (a : Z) : Z := int32_of_bytes (load m a 4).
Definition store_int (m : t) (a : Z) (v : Z) : t := store m a (bytes_of_int32 v).

End Mem.

(** ** Build switches *)

Record build := mkBuild {
  WITH_FAILED_IMAGES : bool;
  GFC_CAF_CHECK : bool
}.

(** ** MPI objects *)

(** A window: its handle and the base address of the exposed memory on
    every rank. *)
Record MPI_Win := mkWin {
  win_id : Z;
  win_base : Z -> Z
}.

Inductive MPI_Datatype := MPI_INT | MPI_DOUBLE | MPI_COMPLEX | MPI_DOUBLE_COMPLEX.

Inductive MPI_Op := MPI_SUM | MPI_BAND | MPI_BOR | MPI_BXOR | MPI_REPLACE | MPI_NO_OP.

(** [MPI_Type_size] *)
Definition MPI_Type_size (dt : MPI_Datatype) : Z :=
  match dt with
  | MPI_INT => 4
  | MPI_DOUBLE => 8
  | MPI_COMPLEX => 8
  | MPI_DOUBLE_COMPLEX => 16
  end.

(** The communicators of the runtime: that of MPI, the duplicate the
    runtime works on, and the one of the failed-image detection. *)
Inductive communicator := MPI_COMM_WORLD | CAF_COMM_WORLD | alive_comm.

(** What the runtime does that is visible outside the process, in program
    order. *)
Inductive event :=
| Put (target_rank target_disp nbytes win : Z)
| Get (target_rank target_disp nbytes win : Z)
| Compare_and_swap (target_rank target_disp win : Z)
| Fetch_and_op (op : MPI_Op) (target_rank target_disp win : Z)
| Win_flush (rank win : Z)
| Win_flush_all
| Send (value dest tag : Z)
| Irecv (source tag : Z)
| Waitany
| Test_alive
| Cancel_alive
| Errhandler_set_return
| Barrier
| Free_slave_tokens
| Free_tokens
| Free_windows_and_comm
| MPI_Finalize
| MPI_Abort (errorcode : Z)
| Win_allocate (size win : Z)
| Win_attach (addr size : Z)
| Stderr (text : string)
| Stderr_runtime_error (image : Z) (message : string)
| Stderr_stop (stop_code : Z)
| Stderr_error_stop (error : Z)
| Stdout (text : string)
| Usleep (usec : Z)
| MPI_Initialized
| MPI_Query_thread
| MPI_Init
| Comm_dup (newcomm : communicator)
| Comm_agree
| Barrier_world
| Comm_size
| Comm_rank
| Comm_create_errhandler
| Comm_set_errhandler (comm : communicator) (errors_return : bool)
| Irecv_alive
| Info_create
| Info_set (key value : string)
| Win_create (win : Z)
| Win_create_dynamic (win : Z)
| Win_lock_all (win : Z)
| Win_unlock_all (win : Z).

(** How a receive posted by [sync_images] ends: the peer's integer has
    arrived, the peer is dead, another transport error, or nothing yet. *)
Inductive waitany_result :=
| Completed (value : Z)
| Proc_failed (ierr : Z)
| Mpi_error (ierr : Z)
| Pending.

(** ** The state of one image *)

Record runtime := mkRuntime {
  caf_this_image : Z;
  caf_num_images : Z;
  caf_is_finalized : Z;
  caf_owns_mpi : bool;
  img_status : Z;
  images_full : list Z;
  arrived : list Z;
  image_stati : list Z;
  no_stopped_images_check_in_errhandler : bool;
  caf_allocated_tokens : list Z;
  caf_allocated_slave_tokens : list Z;
  (** memory of every rank, window memory included *)
  memory : Z -> Mem.t;
  (** first address [malloc] has not handed out yet *)
  heap_top : Z;
  (** calls issued so far, oldest first *)
  events : list event
}.

Definition set_caf_is_finalized (v : Z) (rt : runtime) : runtime :=
  mkRuntime (caf_this_image rt) (caf_num_images rt) v (caf_owns_mpi rt)
    (img_status rt) (images_full rt) (arrived rt) (image_stati rt)
    (no_stopped_images_check_in_errhandler rt) (caf_allocated_tokens rt)
    (caf_allocated_slave_tokens rt) (memory rt) (heap_top rt) (events rt).

Definition set_img_status (v : Z) (rt : runtime) : runtime :=
  mkRuntime (caf_this_image rt) (caf_num_images rt) (caf_is_finalized rt)
    (caf_owns_mpi rt) v (images_full rt) (arrived rt) (image_stati rt)
    (no_stopped_images_check_in_errhandler rt) (caf_allocated_tokens rt)
    (caf_allocated_slave_tokens rt) (memory rt) (heap_top rt) (events rt).

Definition set_arrived (v : list Z) (rt : runtime) : runtime :=
  mkRuntime (caf_this_image rt) (caf_num_images rt) (caf_is_finalized rt)
    (caf_owns_mpi rt) (img_status rt) (images_full rt) v (image_stati rt)
    (no_stopped_images_check_in_errhandler rt) (caf_allocated_tokens rt)
    (caf_allocated_slave_tokens rt) (memory rt) (heap_top rt) (events rt).

Definition set_image_stati (v : list Z) (rt : runtime) : runtime :=
  mkRuntime (caf_this_image rt) (caf_num_images rt) (caf_is_finalized rt)
    (caf_owns_mpi rt) (img_status rt) (images_full rt) (arrived rt) v
    (no_stopped_images_check_in_errhandler rt) (caf_allocated_tokens rt)
    (caf_allocated_slave_tokens rt) (memory rt) (heap_top rt) (events rt).

Definition set_no_stopped_images_check (v : bool) (rt : runtime) : runtime :=
  mkRuntime (caf_this_image rt) (caf_num_images rt) (caf_is_finalized rt)
    (caf_owns_mpi rt) (img_status rt) (images_full rt) (arrived rt)
    (image_stati rt) v (caf_allocated_tokens rt)
    (caf_allocated_slave_tokens rt) (memory rt) (heap_top rt) (events rt).

Definition set_caf_allocated_tokens (v : list Z) (rt : runtime) : runtime :=
  mkRuntime (caf_this_image rt) (caf_num_images rt) (caf_is_finalized rt)
    (caf_owns_mpi rt) (img_status rt) (images_full rt) (arrived rt)
    (image_stati rt) (no_stopped_images_check_in_errhandler rt) v
    (caf_allocated_slave_tokens rt) (memory rt) (heap_top rt) (events rt).

Definition set_caf_allocated_slave_tokens (v : list Z) (rt : runtime) : runtime :=
  mkRuntime (caf_this_image rt) (caf_num_images rt) (caf_is_finalized rt)
    (caf_owns_mpi rt) (img_status rt) (images_full rt) (arrived rt)
    (image_stati rt) (no_stopped_images_check_in_errhandler rt)
    (caf_allocated_tokens rt) v (memory rt) (heap_top rt) (events rt).

Definition set_memory (v : Z -> Mem.t) (rt : runtime) : runtime :=
  mkRuntime (caf_this_image rt) (caf_num_images rt) (caf_is_finalized rt)
    (caf_owns_mpi rt) (img_status rt) (images_full rt) (arrived rt)
    (image_stati rt) (no_stopped_images_check_in_errhandler rt)
    (caf_allocated_tokens rt) (caf_allocated_slave_tokens rt) v (heap_top rt)
    (events rt).

Definition set_heap_top (v : Z) (rt : runtime) : runtime :=
  mkRuntime (caf_this_image rt) (caf_num_images rt) (caf_is_finalized rt)
    (caf_owns_mpi rt) (img_status rt) (images_full rt) (arrived rt)
    (image_stati rt) (no_stopped_images_check_in_errhandler rt)
    (caf_allocated_tokens rt) (caf_allocated_slave_tokens rt) (memory rt) v
    (events rt).

Definition set_events (v : list event) (rt : runtime) : runtime :=
  mkRuntime (caf_this_image rt) (caf_num_images rt) (caf_is_finalized rt)
    (caf_owns_mpi rt) (img_status rt) (images_full rt) (arrived rt)
    (image_stati rt) (no_stopped_images_check_in_errhandler rt)
    (caf_allocated_tokens rt) (caf_allocated_slave_tokens rt) (memory rt)
    (heap_top rt) v.

Definition set_caf_this_image (v : Z) (rt : runtime) : runtime :=
  mkRuntime v (caf_num_images rt) (caf_is_finalized rt) (caf_owns_mpi rt)
    (img_status rt) (images_full rt) (arrived rt) (image_stati rt)
    (no_stopped_images_check_in_errhandler rt) (caf_allocated_tokens rt)
    (caf_allocated_slave_tokens rt) (memory rt) (heap_top rt) (events rt).

Definition set_caf_num_images (v : Z) (rt : runtime) : runtime :=
  mkRuntime (caf_this_image rt) v (caf_is_finalized rt) (caf_owns_mpi rt)
    (img_status rt) (images_full rt) (arrived rt) (image_stati rt)
    (no_stopped_images_check_in_errhandler rt) (caf_allocated_tokens rt)
    (caf_allocated_slave_tokens rt) (memory rt) (heap_top rt) (events rt).

Definition set_caf_owns_mpi (v : bool) (rt : runtime) : runtime :=
  mkRuntime (caf_this_image rt) (caf_num_images rt) (caf_is_finalized rt) v
    (img_status rt) (images_full rt) (arrived rt) (image_stati rt)
    (no_stopped_images_check_in_errhandler rt) (caf_allocated_tokens rt)
    (caf_allocated_slave_tokens rt) (memory rt) (heap_top rt) (events rt).

Definition set_images_full (v : list Z) (rt : runtime) : runtime :=
  mkRuntime (caf_this_image rt) (caf_num_images rt) (caf_is_finalized rt)
    (caf_owns_mpi rt) (img_status rt) v (arrived rt) (image_stati rt)
    (no_stopped_images_check_in_errhandler rt) (caf_allocated_tokens rt)
    (caf_allocated_slave_tokens rt) (memory rt) (heap_top rt) (events rt).

(** The setters are kept folded; the lemmas on projections below do the
    reading. *)
Arguments set_caf_is_finalized : simpl never.
Arguments set_img_status : simpl never.
Arguments set_arrived : simpl never.
Arguments set_image_stati : simpl never.
Arguments set_no_stopped_images_check : simpl never.
Arguments set_caf_allocated_tokens : simpl never.
Arguments set_caf_allocated_slave_tokens : simpl never.
Arguments set_memory : simpl never.
Arguments set_heap_top : simpl never.
Arguments set_events : simpl never.
Arguments set_caf_this_image : simpl never.
Arguments set_caf_num_images : simpl never.
Arguments set_caf_owns_mpi : simpl never.
Arguments set_images_full : simpl never.

(** The rank of the calling image in [CAF_COMM_WORLD]. *)
Definition this_rank (rt : runtime) : Z := caf_this_image rt - 1.

(** The memory of the calling image. *)
Definition local_memory (rt : runtime) : Mem.t := memory rt (this_rank rt).

Definition update_rank (mem : Z -> Mem.t) (rank : Z) (m : Mem.t) : Z -> Mem.t :=
  fun r => if r =? rank then m else mem r.

(** ** Calls that may not come back

    A C function of the runtime either returns to its caller, or ends the
    process through [exit], or is ended by the transport's fatal error
    handler (the handler of every window is the default
    [MPI_ERRORS_ARE_FATAL]), or is still waiting when the fuel given to a
    wait loop is used up. *)

Inductive outcome (A : Type) : Type :=
| Returns (a : A) (rt : runtime)
| Exits (exit_code : Z) (rt : runtime)
| Aborts (rt : runtime)
| Waits (rt : runtime).

Arguments Returns {A} a rt.
Arguments Exits {A} exit_code rt.
Arguments Aborts {A} rt.
Arguments Waits {A} rt.

Definition M (A : Type) : Type := runtime -> outcome A.

Definition ret {A} (a : A) : M A := fun rt => Returns a rt.

Definition bind {A B} (m : M A) (k : A -> M B) : M B :=
  fun rt =>
    match m rt with
    | Returns a rt' => k a rt'
    | Exits c rt' => Exits c rt'
    | Aborts rt' => Aborts rt'
    | Waits rt' => Waits rt'
    end.

Notation "x <- m ;; k" := (bind m (fun x => k))
  (at level 61, m at next level, right associativity).
Notation "m ;;; k" := (bind m (fun _ => k))
  (at level 61, right associativity).

Definition get_rt : M runtime := fun rt => Returns rt rt.
Definition modify (f : runtime -> runtime) : M unit := fun rt => Returns tt (f rt).
Definition emit (e : event) : M unit :=
  modify (fun rt => set_events (events rt ++ [e]) rt).
Definition exit {A} (code : Z) : M A := fun rt => Exits code rt.
Definition mpi_fatal {A} : M A := fun rt => Aborts rt.

(** The final state of a call, however it ended. *)
Definition final_state {A} (o : outcome A) : runtime :=
  match o with
  | Returns _ rt | Exits _ rt | Aborts rt | Waits rt => rt
  end.

(** A loop over a list, as a [for] loop over its indices. *)
Fixpoint for_each {A} (l : list A) (body : A -> M unit) : M unit :=
  match l with
  | [] => ret tt
  | x :: l' => body x ;;; for_each l' body
  end.

(** Array access with a C [int] index; an index outside the array is not a
    defined read, the model answers [0]. *)
Definition Znth (l : list Z) (i : Z) : Z :=
  if i <? 0 then 0 else nth (Z.to_nat i) l 0.

(** [l[i] = v] *)
Definition Zset (l : list Z) (i : Z) (v : Z) : list Z :=
  if (0 <=? i) && (i <? Z.of_nat (List.length l))
  then firstn (Z.to_nat i) l ++ v :: skipn (S (Z.to_nat i)) l
  else l.

(** ** Array descriptors *)

(** Modelled from the spec: the element types of a descriptor
    (libcaf-gfortran-descriptor.h is not part of the sources at hand);
    "Type is one of INTEGER, REAL, COMPLEX, LOGICAL, CHARACTER, DERIVED". *)
Inductive bt_type :=
| BT_INTEGER | BT_LOGICAL | BT_REAL | BT_COMPLEX | BT_DERIVED | BT_CHARACTER.

Definition bt_type_eqb (a b : bt_type) : bool :=
  match a, b with
  | BT_INTEGER, BT_INTEGER | BT_LOGICAL, BT_LOGICAL | BT_REAL, BT_REAL
  | BT_COMPLEX, BT_COMPLEX | BT_DERIVED, BT_DERIVED
  | BT_CHARACTER, BT_CHARACTER => true
  | _, _ => false
  end.

Record descriptor_dimension := mkDim {
  _stride : Z;
  lower_bound : Z;
  _ubound : Z
}.

(** Modelled from the spec: the descriptor record "base_addr,
    element_byte_size, element_type, rank, dims[rank]", each dim a triple
    "lower_bound, upper_bound, stride"; the three [GFC_DESCRIPTOR_*]
    accessors of libcaf-gfortran-descriptor.h read the fields below. *)
Record gfc_descriptor_t := mkDesc {
  base_addr : Z;
  GFC_DESCRIPTOR_RANK : Z;
  GFC_DESCRIPTOR_TYPE : bt_type;
  GFC_DESCRIPTOR_SIZE : Z;
  dim : list descriptor_dimension
}.

(** [desc->dim[j]] *)
Definition dim_at (desc : gfc_descriptor_t) (j : nat) : descriptor_dimension :=
  nth j (dim desc) (mkDim 0 0 0).

(** [GFC_DESCRIPTOR_EXTENT (desc, i)] *)
Definition GFC_DESCRIPTOR_EXTENT (desc : gfc_descriptor_t) (i : nat) : Z :=
  to_ptrdiff_t (to_ptrdiff_t (_ubound (dim_at desc i) + 1)
                - lower_bound (dim_at desc i)).

(** Modelled from the spec: the registration kinds of libcaf.h, the header
    is not part of the sources at hand ("lock/event/critical kinds",
    register-only and allocate-only for components). *)
Inductive caf_register_t :=
| CAF_REGTYPE_COARRAY_STATIC
| CAF_REGTYPE_COARRAY_ALLOC
| CAF_REGTYPE_LOCK_STATIC
| CAF_REGTYPE_LOCK_ALLOC
| CAF_REGTYPE_CRITICAL
| CAF_REGTYPE_EVENT_STATIC
| CAF_REGTYPE_EVENT_ALLOC
| CAF_REGTYPE_COARRAY_ALLOC_REGISTER_ONLY
| CAF_REGTYPE_COARRAY_ALLOC_ALLOCATE_ONLY.

(** [EXIT_FAILURE] of the C library. *)
Definition EXIT_FAILURE : Z := 1.

Definition MPI_SUCCESS : Z := 0.

Definition MPI_TAG_CAF_SYNC_IMAGES : Z := 424242.

(** Handle of the window over [img_status]. *)
Definition stat_tok : Z := -1.

(** Handle of the dynamic window the slave tokens are attached to. *)
Definition global_dynamic_win : Z := -2.

Section Runtime.

(** The build. *)
Variable cfg : build.

(** Status codes of libcaf.h; the header is not part of the sources at
    hand, so their values stay open. *)
Variables STAT_STOPPED_IMAGE STAT_FAILED_IMAGE STAT_DUP_SYNC_IMAGES : Z.

(** [PREFIX (is_contiguous)], defined outside mpi_caf.c. *)
Variable is_contiguous : gfc_descriptor_t -> bool.

(** What the transport computes for an accumulate: the new target bytes
    from the operation, the datatype, the target bytes and the origin
    bytes. *)
Variable mpi_reduce : MPI_Op -> MPI_Datatype -> list Z -> list Z -> list Z.

(** What the other images do to the memory between two attempts of a
    wait loop of this image. *)
Variable peers : nat -> (Z -> Mem.t) -> (Z -> Mem.t).

(** What [MPI_Comm_size] and [MPI_Comm_rank] answer in [PREFIX (init)]. *)
Variables comm_size comm_rank : Z.

(** What [MPI_Initialized] answers and what [MPIX_Comm_agree] returns in
    [PREFIX (init)]. *)
Variable is_init : bool.
Variable comm_agree_rc : Z.

(** The window the transport creates for [MPI_Win_allocate]. *)
Variable new_window : runtime -> Z -> MPI_Win.

(** What [MPI_Waitany] finds for the receive posted to a rank in
    [sync_images]. *)
Variable sync_peer : Z -> waitany_result.

(** *** One-sided transport *)

Definition valid_rank (rt : runtime) (rank : Z) : bool :=
  (0 <=? rank) && (rank <? caf_num_images rt).

(** Data movement of [MPI_Put] with [MPI_BYTE] on both sides: the origin
    sends [origin_count] bytes, the target receives into a buffer of
    [target_count] bytes.  A negative count, a rank outside the
    communicator or an origin longer than the target buffer is an
    erroneous call. *)
Definition rma_put (origin : list Z) (origin_count : Z)
    (target_rank target_disp target_count : Z) (win : MPI_Win) : M Z :=
  rt <- get_rt ;;
  if (origin_count <? 0) || (target_count <? 0)
     || negb (valid_rank rt target_rank) || (target_count <? origin_count)
  then mpi_fatal
  else
    let data := firstn (Z.to_nat origin_count) origin in
    let addr := win_base win target_rank + target_disp in
    modify (set_memory
              (update_rank (memory rt) target_rank
                 (Mem.store (memory rt target_rank) addr data))) ;;;
    emit (Put target_rank target_disp origin_count (win_id win)) ;;;
    ret MPI_SUCCESS.

(** [MPI_Put (origin_addr, origin_count, MPI_BYTE, target_rank,
    target_disp, target_count, MPI_BYTE, win)], the origin in the memory
    of the caller. *)
Definition MPI_Put (origin_addr origin_count target_rank target_disp
    target_count : Z) (win : MPI_Win) : M Z :=
  rt <- get_rt ;;
  rma_put (Mem.load (local_memory rt) origin_addr (Z.to_nat origin_count))
    origin_count target_rank target_disp target_count win.

(** Data movement of [MPI_Get]: the target sends [target_count] bytes. *)
Definition rma_get (origin_count target_rank target_disp target_count : Z)
    (win : MPI_Win) : M (list Z) :=
  rt <- get_rt ;;
  if (origin_count <? 0) || (target_count <? 0)
     || negb (valid_rank rt target_rank) || (origin_count <? target_count)
  then mpi_fatal
  else
    emit (Get target_rank target_disp target_count (win_id win)) ;;;
    ret (Mem.load (memory rt target_rank)
           (win_base win target_rank + target_disp) (Z.to_nat target_count)).

(** [MPI_Get] into the memory of the caller at [origin_addr]. *)
Definition MPI_Get (origin_addr origin_count target_rank target_disp
    target_count : Z) (win : MPI_Win) : M Z :=
  data <- rma_get origin_count target_rank target_disp target_count win ;;
  modify (fun rt =>
    set_memory (update_rank (memory rt) (this_rank rt)
                  (Mem.store (local_memory rt) origin_addr data)) rt) ;;;
  ret MPI_SUCCESS.

(** [MPI_Win_flush (rank, win)], what [CAF_Win_unlock] expands to. *)
Definition CAF_Win_unlock (rank : Z) (win : Z) : M unit :=
  emit (Win_flush rank win).

(** *** Lifecycle *)

(** The table of peer indices that [PREFIX (init)] fills:
    [for (i = 1, j = 0; i <= caf_num_images; ++i)
       if (i != caf_this_image) images_full[j++] = i;] *)
Definition init_images_full (this_image num_images : Z) : list Z :=
  filter (fun i => negb (i =? this_image))
    (map Z.of_nat (seq 1 (Z.to_nat num_images))).

(** [caf_runtime_error]: the message goes to stderr and the process exits
    with [EXIT_FAILURE]. *)
Definition caf_runtime_error {A} (message : string) : M A :=
  rt <- get_rt ;;
  emit (Stderr_runtime_error (caf_this_image rt) message) ;;;
  exit EXIT_FAILURE.

(** The announcement loop of [finalize_internal]:
    [for (int i = 0; i < caf_num_images - 1; ++i)
       MPI_Send (&img_status, 1, MPI_INT, images_full[i] - 1, ...);] *)
Definition announce_status : M unit :=
  rt <- get_rt ;;
  for_each (seq 0 (Z.to_nat (caf_num_images rt - 1)))
    (fun i =>
       emit (Send (img_status rt) (nth i (images_full rt) 0 - 1)
               MPI_TAG_CAF_SYNC_IMAGES)).

(** The release of tokens, windows and communicators at the end of
    [finalize_internal]. *)
Definition teardown (status_code : Z) : M unit :=
  emit Free_slave_tokens ;;;
  emit Free_tokens ;;;
  emit Free_windows_and_comm ;;;
  rt <- get_rt ;;
  (if caf_owns_mpi rt then emit MPI_Finalize else ret tt) ;;;
  modify (set_caf_is_finalized 1).

Definition finalize_internal (status_code : Z) : M unit :=
  (if WITH_FAILED_IMAGES cfg
   then modify (set_no_stopped_images_check true) ;;; emit Win_flush_all
   else ret tt) ;;;
  rt <- get_rt ;;
  (if status_code =? 0
   then
     modify (set_img_status STAT_STOPPED_IMAGE) ;;;
     (if WITH_FAILED_IMAGES cfg
      then modify (set_image_stati
                     (Zset (image_stati rt) (this_rank rt) STAT_STOPPED_IMAGE))
      else ret tt)
   else
     modify (set_img_status status_code) ;;;
     (if WITH_FAILED_IMAGES cfg
      then modify (set_image_stati
                     (Zset (image_stati rt) (this_rank rt) status_code))
      else ret tt)) ;;;
  CAF_Win_unlock (this_rank rt) stat_tok ;;;
  announce_status ;;;
  (if WITH_FAILED_IMAGES cfg then emit Cancel_alive else ret tt) ;;;
  if status_code =? 0
  then
    (if WITH_FAILED_IMAGES cfg then emit Errhandler_set_return else ret tt) ;;;
    emit Barrier ;;;
    teardown status_code
  else
    (* a given status code returns to the caller before the teardown *)
    ret tt.

(** [PREFIX (finalize)] *)
Definition finalize : M unit := finalize_internal 0.

Definition terminate_internal {A} (stat_code exit_code : Z) : M A :=
  finalize_internal stat_code ;;;
  (if WITH_FAILED_IMAGES cfg then ret tt else emit (MPI_Abort exit_code)) ;;;
  exit exit_code.

(** [check_image_health (image_index, stat)]: the boolean tells the
    enclosing function to return at once, with the [stat] given. *)
Definition check_image_health (image_index : Z) (stat : option Z)
  : M (bool * option Z) :=
  if WITH_FAILED_IMAGES cfg
  then
    rt <- get_rt ;;
    if Znth (image_stati rt) (image_index - 1) =? STAT_FAILED_IMAGE
    then
      match stat with
      | None => terminate_internal STAT_FAILED_IMAGE 0
      | Some _ => ret (true, Some STAT_FAILED_IMAGE)
      end
    else ret (false, stat)
  else ret (false, stat).

(** *** Termination *)

Definition stop_numeric {A} (stop_code : Z) : M A :=
  emit (Stderr_stop stop_code) ;;;
  terminate_internal STAT_STOPPED_IMAGE stop_code.

(** [PREFIX (stop_str)] and [PREFIX (error_stop_str)] print the string
    character by character in a loop [while (len--)].  [len] is the length
    of [str], as the compiler passes it; for a negative [len] the loop of
    the source runs past the string, which is outside the model: it prints
    nothing of the string there. *)
Definition stop_str {A} (str : string) (len : Z) : M A :=
  emit (Stderr ("STOP " ++ substring 0 (Z.to_nat len) str)) ;;;
  terminate_internal STAT_STOPPED_IMAGE 0.

Definition error_stop_str {A} (str : string) (len : Z) : M A :=
  emit (Stderr ("ERROR STOP " ++ substring 0 (Z.to_nat len) str)) ;;;
  terminate_internal STAT_STOPPED_IMAGE 1.

Definition error_stop {A} (error : Z) : M A :=
  emit (Stderr_error_stop error) ;;;
  terminate_internal STAT_STOPPED_IMAGE error.

(** [PREFIX (init)].  The tables of the runtime ([images_full],
    [arrived], [image_stati]) are the lists of the state and take no room
    in the byte memory, and so do [sync_handles] and [stat_tok]; [ierr] is
    never assigned, so the test of it never fires.  [MPI_Abort] does not
    return. *)
Definition init : M unit :=
  rt <- get_rt ;;
  if caf_num_images rt =? 0
  then
    emit MPI_Initialized ;;;
    (if is_init then emit MPI_Query_thread else ret tt) ;;;
    (if is_init then ret tt else emit MPI_Init) ;;;
    modify (set_caf_owns_mpi (negb is_init)) ;;;
    emit (Comm_dup CAF_COMM_WORLD) ;;;
    (if WITH_FAILED_IMAGES cfg
     then
       emit Comm_agree ;;;
       (if negb (comm_agree_rc =? MPI_SUCCESS)
        then emit (MPI_Abort 10000) ;;; mpi_fatal
        else ret tt) ;;;
       emit Barrier_world
     else ret tt) ;;;
    emit Comm_size ;;;
    modify (set_caf_num_images comm_size) ;;;
    emit Comm_rank ;;;
    modify (set_caf_this_image (comm_rank + 1)) ;;;
    modify (set_caf_is_finalized 0) ;;;
    modify (set_images_full (init_images_full (comm_rank + 1) comm_size)) ;;;
    modify (set_arrived (repeat 0 (Z.to_nat comm_size))) ;;;
    (if WITH_FAILED_IMAGES cfg
     then
       emit (Comm_dup alive_comm) ;;;
       emit Comm_create_errhandler ;;;
       emit (Comm_set_errhandler CAF_COMM_WORLD false) ;;;
       emit (Comm_set_errhandler alive_comm false) ;;;
       emit (Comm_set_errhandler MPI_COMM_WORLD true) ;;;
       emit Irecv_alive ;;;
       modify (set_image_stati (repeat 0 (Z.to_nat comm_size)))
     else ret tt) ;;;
    emit Info_create ;;;
    emit (Info_set "same_size" "true") ;;;
    emit (Win_create stat_tok) ;;;
    emit (Win_lock_all stat_tok) ;;;
    emit (Win_create_dynamic global_dynamic_win) ;;;
    emit (Win_lock_all global_dynamic_win)
  else ret tt.

(** *** The C allocator

    [malloc] hands out the next free addresses; running out of memory is
    not modelled.  [free] leaves the bytes where they are. *)
Definition malloc (size : Z) : M Z :=
  rt <- get_rt ;;
  modify (set_heap_top (heap_top rt + size)) ;;;
  ret (heap_top rt).

Definition free (ptr : Z) : M unit := ret tt.

(** *** Error messages

    The block shared by [register], [deregister] and [sync_images]:
    [if (errmsg_len > 0)
       { int len = ((int) strlen (msg) > errmsg_len) ? errmsg_len
                                                     : (int) strlen (msg);
         memcpy (errmsg, msg, len);
         if (errmsg_len > len)
           memset (&errmsg[len], ' ', errmsg_len-len); }] *)
Definition write_errmsg (msg : string) (errmsg : list ascii) (errmsg_len : Z)
  : list ascii :=
  if errmsg_len >? 0
  then
    let len := if to_int (Buf.strlen msg) >? errmsg_len
               then errmsg_len else to_int (Buf.strlen msg) in
    let errmsg := Buf.memcpy errmsg 0 (Buf.chars msg) len in
    if errmsg_len >? len
    then Buf.memset errmsg len Buf.space (errmsg_len - len)
    else errmsg
  else errmsg.

(** [MIN (errmsg_len, strlen (msg))]: the [int] is compared as a
    [size_t]. *)
Definition MIN_len (errmsg_len : Z) (msg : string) : Z :=
  if to_size_t errmsg_len <? Buf.strlen msg
  then to_size_t errmsg_len else Buf.strlen msg.

(** The block shared by [mutex_lock], [mutex_unlock] and the events:
    [memset (errmsg, ' ', errmsg_len);
     memcpy (errmsg, msg, MIN (errmsg_len, strlen (msg)));] *)
Definition blank_and_copy (msg : string) (errmsg : list ascii)
    (errmsg_len : Z) : list ascii :=
  Buf.memcpy (Buf.memset errmsg 0 Buf.space (to_size_t errmsg_len)) 0
    (Buf.chars msg) (MIN_len errmsg_len msg).

(** *** Registration *)

Record registered := mkRegistered {
  reg_token : option Z;
  reg_base_addr : Z;
  reg_stat : option Z;
  reg_errmsg : list ascii
}.

Definition is_lock_or_event (type : caf_register_t) : bool :=
  match type with
  | CAF_REGTYPE_LOCK_STATIC | CAF_REGTYPE_LOCK_ALLOC | CAF_REGTYPE_CRITICAL
  | CAF_REGTYPE_EVENT_STATIC | CAF_REGTYPE_EVENT_ALLOC => true
  | _ => false
  end.

(** The block after the label [error:] of [PREFIX (register)]. *)
Definition register_error (token : option Z) (desc : gfc_descriptor_t)
    (stat : option Z) (errmsg : list ascii) (errmsg_len : Z) : M registered :=
  rt <- get_rt ;;
  let msg :=
    if negb (caf_is_finalized rt =? 0)
    then "Failed to allocate coarray - there are stopped images"%string
    else "Failed to allocate coarray"%string in
  match stat with
  | Some _ =>
      ret (mkRegistered token (base_addr desc)
             (Some (if negb (caf_is_finalized rt =? 0)
                    then STAT_STOPPED_IMAGE else 1))
             (write_errmsg msg errmsg errmsg_len))
  | None => caf_runtime_error msg
  end.

(** [PREFIX (register)]; [token] is the slave token handed in for
    [CAF_REGTYPE_COARRAY_ALLOC_ALLOCATE_ONLY].  The source does not test
    what [calloc], [malloc] and [MPI_Win_allocate] give back: the only way
    to the label [error:] is the test of [caf_is_finalized]. *)
Definition register (size : Z) (type : caf_register_t) (token : option Z)
    (desc : gfc_descriptor_t) (stat : option Z) (errmsg : list ascii)
    (errmsg_len : Z) : M registered :=
  rt <- get_rt ;;
  if negb (caf_is_finalized rt =? 0)
  then register_error token desc stat errmsg errmsg_len
  else
    (if caf_num_images rt =? 0 then init else ret tt) ;;;
    let l_var := is_lock_or_event type in
    let actual_size :=
      if l_var then to_size_t (size * sizeof_int) else size in
    match type with
    | CAF_REGTYPE_COARRAY_ALLOC_REGISTER_ONLY =>
        emit (Win_unlock_all global_dynamic_win) ;;;
        slave_token <- malloc 16 ;;
        emit (Win_attach slave_token 16) ;;;
        modify (fun rt => set_caf_allocated_slave_tokens
                            (slave_token :: caf_allocated_slave_tokens rt) rt) ;;;
        emit (Win_lock_all global_dynamic_win) ;;;
        (* mem is still NULL *)
        ret (mkRegistered (Some slave_token) 0 stat errmsg)
    | CAF_REGTYPE_COARRAY_ALLOC_ALLOCATE_ONLY =>
        emit (Win_unlock_all global_dynamic_win) ;;;
        mem <- malloc actual_size ;;
        emit (Win_attach mem actual_size) ;;;
        emit (Win_lock_all global_dynamic_win) ;;;
        ret (mkRegistered token mem stat errmsg)
    | _ =>
        rt <- get_rt ;;
        let p := new_window rt actual_size in
        let mem := win_base p (this_rank rt) in
        emit (Win_allocate actual_size (win_id p)) ;;;
        emit (Win_lock_all (win_id p)) ;;;
        (if l_var
         then
           _ <- rma_put (repeat 0 (Z.to_nat (4 * to_int size)))
                  (4 * to_int size) (this_rank rt) 0 (4 * to_int size) p ;;
           CAF_Win_unlock (this_rank rt) (win_id p)
         else ret tt) ;;;
        modify (fun rt => set_caf_allocated_tokens
                            (win_id p :: caf_allocated_tokens rt) rt) ;;;
        ret (mkRegistered (Some (win_id p)) mem
               (match stat with Some _ => Some 0 | None => None end) errmsg)
    end.

(** *** Locks *)

(** [MPI_Compare_and_swap] on an [MPI_INT]: the answer is the value found
    at the target, which is replaced by [origin] when it equals
    [compare]. *)
Definition MPI_Compare_and_swap (origin compare target_rank target_disp : Z)
    (win : MPI_Win) : M Z :=
  rt <- get_rt ;;
  if negb (valid_rank rt target_rank)
  then mpi_fatal
  else
    let addr := win_base win target_rank + target_disp in
    let found := Mem.load_int (memory rt target_rank) addr in
    (if found =? compare
     then modify (set_memory
                    (update_rank (memory rt) target_rank
                       (Mem.store_int (memory rt target_rank) addr origin)))
     else ret tt) ;;;
    emit (Compare_and_swap target_rank target_disp (win_id win)) ;;;
    ret found.

(** [locking_atomic_op]; the answer is what the call leaves in [*value]. *)
Definition locking_atomic_op (win : MPI_Win) (newval compare image_index
    index : Z) : M Z :=
  value <- MPI_Compare_and_swap newval compare (image_index - 1)
             (to_size_t (index * sizeof_int)) win ;;
  CAF_Win_unlock (image_index - 1) (win_id win) ;;;
  ret value.

(** The loop [while (value != 0)] of [mutex_lock]; [fuel] bounds the
    number of attempts the model follows. *)
Fixpoint lock_spin (fuel : nat) (win : MPI_Win) (image_index index : Z)
    (value i : Z) : M unit :=
  if value =? 0 then ret tt
  else
    match fuel with
    | O => fun rt => Waits rt
    | S fuel' =>
        let i := i + 1 in
        i <- (if WITH_FAILED_IMAGES cfg
              then if i =? 100 then emit Test_alive ;;; ret 1 else ret i
              else ret i) ;;
        modify (fun rt => set_memory (peers fuel' (memory rt)) rt) ;;;
        rt <- get_rt ;;
        value <- locking_atomic_op win (caf_this_image rt) 0 image_index
                   index ;;
        if WITH_FAILED_IMAGES cfg
        then
          if Znth (image_stati rt) value =? STAT_FAILED_IMAGE
          then
            _ <- MPI_Compare_and_swap 0 value (image_index - 1)
                   (to_size_t (index * sizeof_int)) win ;;
            CAF_Win_unlock (image_index - 1) (win_id win)
          else lock_spin fuel' win image_index index value i
        else
          emit (Usleep (caf_this_image rt * i)) ;;;
          lock_spin fuel' win image_index index value i
    end.

Record locked := mkLocked {
  lock_stat : option Z;
  lock_acquired : option Z;
  lock_errmsg : option (list ascii)
}.

Definition mutex_lock (fuel : nat) (win : MPI_Win) (image_index index : Z)
    (stat acquired_lock : option Z) (errmsg : option (list ascii))
    (errmsg_len : Z) : M locked :=
  let msg := "Already locked"%string in
  let ierr := 0 in
  let stat := match stat with Some _ => Some 0 | None => None end in
  (if WITH_FAILED_IMAGES cfg then emit Test_alive else ret tt) ;;;
  rt <- get_rt ;;
  value <- locking_atomic_op win (caf_this_image rt) 0 image_index index ;;
  if (value =? caf_this_image rt) && (image_index =? caf_this_image rt)
  then
    (* stat_error: *)
    let errmsg :=
      match errmsg with
      | Some buf => Some (blank_and_copy msg buf errmsg_len)
      | None => None
      end in
    match stat with
    | Some _ => ret (mkLocked (Some 99) acquired_lock errmsg)
    | None => terminate_internal 99 1
    end
  else
    match acquired_lock with
    | Some _ =>
        ret (mkLocked stat (Some (if value =? 0 then 1 else 0)) errmsg)
    | None =>
        lock_spin fuel win image_index index value 0 ;;;
        match stat with
        | Some _ => ret (mkLocked (Some ierr) acquired_lock errmsg)
        | None =>
            if ierr =? STAT_FAILED_IMAGE
            then terminate_internal ierr 0
            else ret (mkLocked stat acquired_lock errmsg)
        end
    end.

(** [PREFIX (lock)] *)
Definition lock (fuel : nat) (token : MPI_Win) (index image_index : Z)
    (acquired_lock stat : option Z) (errmsg : option (list ascii))
    (errmsg_len : Z) : M locked :=
  rt <- get_rt ;;
  let dest_img :=
    if image_index =? 0 then caf_this_image rt else image_index in
  mutex_lock fuel token dest_img (to_int index) stat acquired_lock errmsg
    errmsg_len.

(** *** Subset synchronisation *)

(** The two nested loops that look for a duplicate:
    [for (i = 0; i < count; ++i) for (j = 0; j < i; ++j)
       if (images[i] == images[j]) ...] *)
Definition has_duplicate (count : Z) (images : list Z) : bool :=
  existsb (fun i =>
             existsb (fun j => nth i images 0 =? nth j images 0) (seq 0 i))
    (seq 0 (Z.to_nat count)).

(** The check under [GFC_CAF_CHECK]. *)
Definition has_invalid_image (rt : runtime) (count : Z) (images : list Z)
  : bool :=
  existsb (fun i => (nth i images 0 <? 1)
                    || (caf_num_images rt <? nth i images 0))
    (seq 0 (Z.to_nat count)).

(** [if (count == -1) { count = caf_num_images - 1; images = images_full; }] *)
Definition sync_set (rt : runtime) (count : Z) (images : list Z)
  : Z * list Z :=
  if count =? -1 then (caf_num_images rt - 1, images_full rt)
  else (count, images).

(** The loop [while (done_count < count)] around [MPI_Waitany]; the
    receives complete in the order they were posted.  The answer is the
    value of [ierr] the loop ends with. *)
Fixpoint sync_wait (pending : list Z) : M Z :=
  match pending with
  | [] => ret MPI_SUCCESS
  | image :: pending' =>
      emit Waitany ;;;
      match sync_peer (image - 1) with
      | Completed value =>
          modify (fun rt =>
            set_arrived (Zset (arrived rt) (image - 1) value) rt) ;;;
          if value =? STAT_STOPPED_IMAGE
          then ret STAT_STOPPED_IMAGE
          else sync_wait pending'
      | Proc_failed ierr =>
          if WITH_FAILED_IMAGES cfg
          then emit Test_alive ;;; ret STAT_FAILED_IMAGE
          else ret ierr
      | Mpi_error ierr => ret ierr
      | Pending => fun rt => Waits rt
      end
  end.

(** The exchange with the images of the set: a receive is posted from
    each, an integer is sent to each, then all receives are awaited. *)
Definition sync_exchange (count : Z) (images : list Z) : M Z :=
  let set := firstn (Z.to_nat count) images in
  for_each set (fun image =>
                  emit (Irecv (image - 1) MPI_TAG_CAF_SYNC_IMAGES)) ;;;
  for_each set (fun image =>
                  emit (Send 0 (image - 1) MPI_TAG_CAF_SYNC_IMAGES)) ;;;
  sync_wait set.

(** The code after the label [sync_images_err_chk:]. *)
Definition sync_images_err_chk (ierr : Z) (stat : option Z)
    (errmsg : list ascii) (errmsg_len : Z) (internal : bool)
  : M (option Z * list ascii) :=
  (if WITH_FAILED_IMAGES cfg
   then modify (set_no_stopped_images_check false) else ret tt) ;;;
  stat' <- match stat with
           | Some _ => ret (Some ierr)
           | None =>
               if WITH_FAILED_IMAGES cfg && (ierr =? STAT_FAILED_IMAGE)
               then terminate_internal ierr 0
               else ret None
           end ;;
  if negb (ierr =? 0) && negb (ierr =? STAT_FAILED_IMAGE)
  then
    rt <- get_rt ;;
    let msg :=
      if negb (caf_is_finalized rt =? 0)
      then "SYNC IMAGES failed - there are stopped images"%string
      else "SYNC IMAGES failed"%string in
    if errmsg_len >? 0
    then ret (stat', write_errmsg msg errmsg errmsg_len)
    else
      if negb internal && match stat with None => true | Some _ => false end
      then caf_runtime_error msg
      else ret (stat', errmsg)
  else ret (stat', errmsg).

Definition sync_images_internal (count : Z) (images : list Z)
    (stat : option Z) (errmsg : list ascii) (errmsg_len : Z)
    (internal : bool) : M (option Z * list ascii) :=
  (if WITH_FAILED_IMAGES cfg
   then modify (set_no_stopped_images_check true) else ret tt) ;;;
  rt <- get_rt ;;
  if (count =? 0)
     || ((count =? 1) && (nth 0 images 0 =? caf_this_image rt))
  then
    (if WITH_FAILED_IMAGES cfg
     then modify (set_no_stopped_images_check false) else ret tt) ;;;
    ret (match stat with Some _ => Some 0 | None => None end, errmsg)
  else
    if has_duplicate count images
    then
      sync_images_err_chk STAT_DUP_SYNC_IMAGES
        (match stat with Some _ => Some STAT_DUP_SYNC_IMAGES | None => None end)
        errmsg errmsg_len internal
    else
      (if GFC_CAF_CHECK cfg && has_invalid_image rt count images
       then
         emit (Stderr "COARRAY ERROR: Invalid image index to SYNC IMAGES") ;;;
         terminate_internal 1 1
       else ret tt) ;;;
      ierr <- (if negb (caf_is_finalized rt =? 0)
               then ret STAT_STOPPED_IMAGE
               else
                 let '(count, images) := sync_set rt count images in
                 (if WITH_FAILED_IMAGES cfg
                  then emit Test_alive else ret tt) ;;;
                 sync_exchange count images) ;;
      sync_images_err_chk ierr stat errmsg errmsg_len internal.

(** [PREFIX (sync_images)] *)
Definition sync_images (count : Z) (images : list Z) (stat : option Z)
    (errmsg : list ascii) (errmsg_len : Z) : M (option Z * list ascii) :=
  sync_images_internal count images stat errmsg errmsg_len false.

(** *** Atomics *)

(** [selectType (size, &dt)]: [*dt] keeps what it held when no size
    matches; [None] is a datatype that was never set. *)
Definition selectType (size : Z) (dt : option MPI_Datatype)
  : option MPI_Datatype :=
  if MPI_Type_size MPI_INT =? size then Some MPI_INT
  else if MPI_Type_size MPI_DOUBLE =? size then Some MPI_DOUBLE
  else if MPI_Type_size MPI_COMPLEX =? size then Some MPI_COMPLEX
  else if MPI_Type_size MPI_DOUBLE_COMPLEX =? size then Some MPI_DOUBLE_COMPLEX
  else dt.

(** [MPI_Fetch_and_op (origin_addr, result_addr, dt, target_rank,
    target_disp, op, win)]: the bytes found at the target go to
    [result_addr] in the memory of the caller, the target receives the
    combination with the origin.  A datatype that was never set is an
    erroneous call. *)
Definition MPI_Fetch_and_op (origin_addr result_addr : Z)
    (dt : option MPI_Datatype) (target_rank target_disp : Z) (op : MPI_Op)
    (win : MPI_Win) : M Z :=
  rt <- get_rt ;;
  match dt with
  | None => mpi_fatal
  | Some dt =>
      if negb (valid_rank rt target_rank)
      then mpi_fatal
      else
        let n := Z.to_nat (MPI_Type_size dt) in
        let addr := win_base win target_rank + target_disp in
        let found := Mem.load (memory rt target_rank) addr n in
        let origin := Mem.load (local_memory rt) origin_addr n in
        modify (set_memory
                  (update_rank (memory rt) target_rank
                     (Mem.store (memory rt target_rank) addr
                        (firstn n (mpi_reduce op dt found origin))))) ;;;
        modify (fun rt =>
          set_memory (update_rank (memory rt) (this_rank rt)
                        (Mem.store (local_memory rt) result_addr found)) rt) ;;;
        emit (Fetch_and_op op target_rank target_disp (win_id win)) ;;;
        ret MPI_SUCCESS
  end.

(** [PREFIX (atomic_op)].  The parameter [old] is assigned the result of
    [malloc (kind)] before its first use, which the rebinding of [old]
    below writes out. *)
Definition atomic_op (op : Z) (token : MPI_Win) (offset image_index : Z)
    (value old : Z) (stat : option Z) (kind : Z) : M (option Z) :=
  let ierr := 0 in
  old <- malloc (to_size_t kind) ;;
  rt <- get_rt ;;
  let image :=
    if negb (image_index =? 0) then image_index - 1
    else caf_this_image rt - 1 in
  let dt := selectType kind None in
  ierr <- (if op =? 1
           then MPI_Fetch_and_op value old dt image offset MPI_SUM token
           else if op =? 2
           then MPI_Fetch_and_op value old dt image offset MPI_BAND token
           else if op =? 4
           then MPI_Fetch_and_op value old dt image offset MPI_BOR token
           else if op =? 5
           then MPI_Fetch_and_op value old dt image offset MPI_BXOR token
           else
             emit (Stdout "We apologize but the atomic operation requested for MPI < 3 is not yet implemented") ;;;
             ret ierr) ;;
  CAF_Win_unlock image (win_id token) ;;;
  free old ;;;
  match stat with
  | Some _ => ret (Some ierr)
  | None =>
      if negb (ierr =? 0) then terminate_internal ierr 0 else ret None
  end.

(** *** The transfer engine *)

(** A loop that carries a local variable. *)
Fixpoint for_loop {S : Type} (l : list nat) (body : nat -> S -> M S) (s : S)
  : M S :=
  match l with
  | [] => ret s
  | i :: l' => s' <- body i s ;; for_loop l' body s'
  end.

(** Writing into a local buffer ([calloc], [alloca]) at an offset. *)
Definition poke (buf : list Z) (off : Z) (data : list Z) : list Z :=
  firstn (Z.to_nat off) buf ++ data
    ++ skipn (Z.to_nat off + List.length data) buf.

Definition peek (buf : list Z) (off : Z) (n : Z) : list Z :=
  firstn (Z.to_nat n) (skipn (Z.to_nat off) buf).

(** [memmove] within the memory of the caller. *)
Definition local_memmove (dst src n : Z) : M unit :=
  modify (fun rt =>
    set_memory (update_rank (memory rt) (this_rank rt)
                  (Mem.memmove (local_memory rt) dst src n)) rt).

(** Bytes of a local buffer copied into the memory of the caller. *)
Definition local_store (dst : Z) (data : list Z) : M unit :=
  modify (fun rt =>
    set_memory (update_rank (memory rt) (this_rank rt)
                  (Mem.store (local_memory rt) dst data)) rt).

(** [ptrdiff_t dimextent = dest->dim[j]._ubound - dest->dim[j].lower_bound + 1;
     if (dimextent < 0) dimextent = 0;] *)
Definition dimextent (d : descriptor_dimension) : Z :=
  let e := to_ptrdiff_t (to_ptrdiff_t (_ubound d - lower_bound d) + 1) in
  if e <? 0 then 0 else e.

(** [size = 1; for (j = 0; j < rank; j++) size *= dimextent;] with [size]
    a [size_t]. *)
Definition transfer_size (rank : Z) (dest : gfc_descriptor_t) : Z :=
  fold_left (fun size j => to_size_t (size * dimextent (dim_at dest j)))
    (seq 0 (Z.to_nat rank)) 1.

(** The scratch pad of spaces: [memset (pad_str, ' ', dst_size-src_size)]
    for kind 1, else [(dst_size-src_size)/4] 32-bit spaces (the bytes of
    the [alloca] buffer the loop does not reach are left as [0] here). *)
Definition make_pad_str (dest src : gfc_descriptor_t) (dst_kind : Z)
  : option (list Z) :=
  let src_size := GFC_DESCRIPTOR_SIZE src in
  let dst_size := GFC_DESCRIPTOR_SIZE dest in
  if bt_type_eqb (GFC_DESCRIPTOR_TYPE dest) BT_CHARACTER
     && (dst_size >? src_size)
  then
    Some (if dst_kind =? 1
          then repeat 32 (Z.to_nat (dst_size - src_size))
          else
            flat_map (fun _ => Mem.bytes_of_int32 32)
              (seq 0 (Z.to_nat ((dst_size - src_size) / 4)))
            ++ repeat 0 (Z.to_nat ((dst_size - src_size) mod 4)))
  else None.

(** The unravelling of the linear index [i]:
    [for (j = 0; j < loop_rank-1; j++)
       { array_offset += ((i / tot_ext) % (ub_j - lb_j + 1)) * stride_j;
         extent = (ub_j - lb_j + 1); tot_ext *= extent; }
     array_offset += (i / tot_ext) * desc->dim[last_rank-1]._stride;]
    The index is a [size_t], so quotient, remainder and product are taken
    on [size_t] values ([x / 0] is not defined in C and is [0] here). *)
Definition array_offset (i : Z) (loop_rank last_rank : Z)
    (desc : gfc_descriptor_t) : Z :=
  let step (acc : Z * Z) (j : nat) : Z * Z :=
    let '(off, tot_ext) := acc in
    let d := dim_at desc j in
    let extent := to_ptrdiff_t (to_ptrdiff_t (_ubound d - lower_bound d) + 1) in
    (to_ptrdiff_t (off + to_size_t (((i / to_size_t tot_ext)
                                      mod to_size_t extent)
                                     * to_size_t (_stride d))),
     to_ptrdiff_t (tot_ext * extent)) in
  let '(off, tot_ext) :=
    fold_left step (seq 0 (Z.to_nat (loop_rank - 1))) (0, 1) in
  to_ptrdiff_t
    (off + to_size_t ((i / to_size_t tot_ext)
                      * to_size_t (_stride
                                     (dim_at desc (Z.to_nat (last_rank - 1)))))).

Definition same_type_and_kind (dest src : gfc_descriptor_t)
    (dst_kind src_kind : Z) : bool :=
  bt_type_eqb (GFC_DESCRIPTOR_TYPE dest) (GFC_DESCRIPTOR_TYPE src)
  && (dst_kind =? src_kind).

(** [(dst_size > src_size ? src_size : dst_size)] *)
Definition min_size (dest src : gfc_descriptor_t) : Z :=
  if GFC_DESCRIPTOR_SIZE dest >? GFC_DESCRIPTOR_SIZE src
  then GFC_DESCRIPTOR_SIZE src else GFC_DESCRIPTOR_SIZE dest.

(** [PREFIX (send)]: the answer is what the call leaves in [*stat]. *)
Definition send (token : MPI_Win) (offset image_index : Z)
    (dest src : gfc_descriptor_t) (dst_kind src_kind : Z) (mrt : bool)
    (stat : option Z) : M (option Z) :=
  let ierr := 0 in
  let rank := GFC_DESCRIPTOR_RANK dest in
  let src_size := GFC_DESCRIPTOR_SIZE src in
  let dst_size := GFC_DESCRIPTOR_SIZE dest in
  let size := transfer_size rank dest in
  if size =? 0 then ret stat
  else
    health <- check_image_health image_index stat ;;
    if fst health then ret (snd health)
    else
      let pad_str := make_pad_str dest src dst_kind in
      rt <- get_rt ;;
      if (rank =? 0)
         || (same_type_and_kind dest src dst_kind src_kind
             && negb (GFC_DESCRIPTOR_RANK src =? 0)
             && (negb (bt_type_eqb (GFC_DESCRIPTOR_TYPE dest) BT_CHARACTER)
                 || (dst_size =? src_size))
             && is_contiguous dest && is_contiguous src)
      then
        if caf_this_image rt =? image_index
        then
          local_memmove (base_addr dest) (base_addr src)
            (to_size_t (size * dst_size)) ;;;
          ret stat
        else
          let nbytes := to_int (to_size_t (min_size dest src * size)) in
          ierr <- (if same_type_and_kind dest src dst_kind src_kind
                   then MPI_Put (base_addr src) nbytes (image_index - 1)
                          offset nbytes token
                   else ret ierr) ;;
          ierr <- match pad_str with
                  | Some pad =>
                      let newoff :=
                        to_size_t (offset + to_size_t (min_size dest src * size)) in
                      rma_put pad (to_int (to_size_t (dst_size - src_size)))
                        (image_index - 1) newoff
                        (to_int (to_size_t (dst_size - src_size))) token
                  | None => ret ierr
                  end ;;
          emit (Win_flush (image_index - 1) (win_id token)) ;;;
          if WITH_FAILED_IMAGES cfg
          then
            health <- check_image_health image_index stat ;;
            ret (snd health)
          else
            if negb (ierr =? 0) then terminate_internal ierr 0
            else ret stat
      else
        let self_mrt := (caf_this_image rt =? image_index) && mrt in
        let t_buff :=
          if self_mrt
          then repeat 0 (Z.to_nat (to_size_t (size * dst_size))) else [] in
        let dst_offset_of (i : nat) : Z :=
          to_ptrdiff_t
            (offset + to_size_t (array_offset (Z.of_nat i) rank rank dest
                                 * dst_size)) in
        t_buff <-
          for_loop (seq 0 (Z.to_nat size))
            (fun i t_buff =>
               let dst_offset := dst_offset_of i in
               let sr :=
                 if negb (GFC_DESCRIPTOR_RANK src =? 0)
                 then base_addr src
                      + array_offset (Z.of_nat i) (GFC_DESCRIPTOR_RANK src)
                          rank src * src_size
                 else base_addr src in
               if caf_this_image rt =? image_index
               then
                 if negb mrt
                 then
                   local_memmove (base_addr dest + dst_offset) sr src_size ;;;
                   ret t_buff
                 else
                   rt' <- get_rt ;;
                   ret (poke t_buff (Z.of_nat i * src_size)
                          (Mem.load (local_memory rt') sr (Z.to_nat src_size)))
               else
                 ierr <- MPI_Put sr (to_int dst_size) (image_index - 1)
                           dst_offset (to_int dst_size) token ;;
                 ierr <- match pad_str with
                         | Some pad =>
                             rma_put pad
                               (to_int (to_size_t (dst_size - src_size)))
                               (image_index - 1) dst_offset
                               (to_int (to_size_t (dst_size - src_size)))
                               token
                         | None => ret ierr
                         end ;;
                 if negb (WITH_FAILED_IMAGES cfg) && negb (ierr =? 0)
                 then caf_runtime_error "MPI Error"
                 else ret t_buff)
            t_buff ;;
        (if self_mrt
         then
           for_each (seq 0 (Z.to_nat size))
             (fun i =>
                modify (fun rt =>
                  set_memory
                    (update_rank (memory rt) (this_rank rt)
                       (Mem.store (local_memory rt)
                          (base_addr src + dst_offset_of i)
                          (peek t_buff (Z.of_nat i * src_size) src_size)))
                    rt))
         else ret tt) ;;;
        emit (Win_flush (image_index - 1) (win_id token)) ;;;
        health <- check_image_health image_index stat ;;
        ret (snd health).

(** [PREFIX (get)]: [src] describes the remote side, [dest] the local
    one; the rank is taken from [src] and the extents from [dest]. *)
Definition get (token : MPI_Win) (offset image_index : Z)
    (src dest : gfc_descriptor_t) (src_kind dst_kind : Z) (mrt : bool)
    (stat : option Z) : M (option Z) :=
  let ierr := 0 in
  let rank := GFC_DESCRIPTOR_RANK src in
  let src_size := GFC_DESCRIPTOR_SIZE src in
  let dst_size := GFC_DESCRIPTOR_SIZE dest in
  let size := transfer_size rank dest in
  if size =? 0 then ret stat
  else
    health <- check_image_health image_index stat ;;
    if fst health then ret (snd health)
    else
      let pad_str := make_pad_str dest src dst_kind in
      rt <- get_rt ;;
      if (rank =? 0)
         || (same_type_and_kind dest src dst_kind src_kind
             && (negb (bt_type_eqb (GFC_DESCRIPTOR_TYPE dest) BT_CHARACTER)
                 || (dst_size =? src_size))
             && is_contiguous dest && is_contiguous src)
      then
        if caf_this_image rt =? image_index
        then
          local_memmove (base_addr dest) (base_addr src)
            (to_size_t (size * src_size)) ;;;
          ret stat
        else
          let nbytes := to_int (to_size_t (dst_size * size)) in
          ierr <- MPI_Get (base_addr dest) nbytes (image_index - 1) offset
                    nbytes token ;;
          match pad_str with
          | Some pad =>
              local_store (base_addr dest + src_size)
                (firstn (Z.to_nat (to_size_t (dst_size - src_size))) pad)
          | None => ret tt
          end ;;;
          emit (Win_flush (image_index - 1) (win_id token)) ;;;
          health <- check_image_health image_index stat ;;
          if fst health then ret (snd health)
          else
            if negb (ierr =? 0) then terminate_internal ierr 0
            else ret stat
      else
        let self_mrt := (caf_this_image rt =? image_index) && mrt in
        let t_buff :=
          if self_mrt
          then repeat 0 (Z.to_nat (to_size_t (size * dst_size))) else [] in
        let array_offset_sr_of (i : nat) : Z :=
          array_offset (Z.of_nat i) (GFC_DESCRIPTOR_RANK src) rank src in
        t_buff <-
          for_loop (seq 0 (Z.to_nat size))
            (fun i t_buff =>
               let array_offset_dst :=
                 array_offset (Z.of_nat i) rank rank dest in
               let array_offset_sr := array_offset_sr_of i in
               let sr_off := to_size_t (offset + array_offset_sr * src_size) in
               let dst := base_addr dest + array_offset_dst * dst_size in
               ierr <-
                 (if caf_this_image rt =? image_index
                  then
                    if negb mrt
                    then
                      local_memmove dst
                        (base_addr src + array_offset_sr * src_size)
                        src_size ;;;
                      ret (ierr, t_buff)
                    else
                      rt' <- get_rt ;;
                      ret (ierr,
                           poke t_buff (Z.of_nat i * dst_size)
                             (Mem.load (local_memory rt') dst
                                (Z.to_nat dst_size)))
                  else
                    ierr <- MPI_Get dst (to_int dst_size) (image_index - 1)
                              sr_off (to_int src_size) token ;;
                    match pad_str with
                    | Some pad =>
                        local_store (dst + src_size)
                          (firstn (Z.to_nat (to_size_t (dst_size - src_size)))
                             pad)
                    | None => ret tt
                    end ;;;
                    ret (ierr, t_buff)) ;;
               if negb (fst ierr =? 0) then terminate_internal (fst ierr) 0
               else ret (snd ierr))
            t_buff ;;
        (if self_mrt
         then
           for_each (seq 0 (Z.to_nat size))
             (fun i =>
                let sr_off :=
                  to_size_t (offset + array_offset_sr_of i * src_size) in
                local_store (base_addr dest + sr_off)
                  (peek t_buff (Z.of_nat i * src_size) src_size))
         else ret tt) ;;;
        emit (Win_flush (image_index - 1) (win_id token)) ;;;
        ret stat.

(** [PREFIX (sendget)]: [token_s], [offset_s], [image_index_s] and [dest]
    name the image written to, [token_g], [offset_g], [image_index_g] and
    [src] the image read from. *)
Definition sendget (token_s : MPI_Win) (offset_s image_index_s : Z)
    (dest : gfc_descriptor_t) (token_g : MPI_Win) (offset_g image_index_g : Z)
    (src : gfc_descriptor_t) (src_kind dst_kind : Z) (mrt : bool)
    (stat : option Z) : M (option Z) :=
  let ierr := 0 in
  let rank := GFC_DESCRIPTOR_RANK dest in
  let src_size := GFC_DESCRIPTOR_SIZE src in
  let dst_size := GFC_DESCRIPTOR_SIZE dest in
  let size := transfer_size rank dest in
  if size =? 0 then ret stat
  else
    health <- check_image_health image_index_s stat ;;
    if fst health then ret (snd health)
    else
      health <- check_image_health image_index_g (snd health) ;;
      if fst health then ret (snd health)
      else
        let stat := snd health in
        if (rank =? 0)
           || (same_type_and_kind dest src dst_kind src_kind
               && negb (GFC_DESCRIPTOR_RANK src =? 0)
               && (negb (bt_type_eqb (GFC_DESCRIPTOR_TYPE dest) BT_CHARACTER)
                   || (dst_size =? src_size))
               && is_contiguous dest && is_contiguous src)
        then
          let nbytes := to_int (to_size_t (dst_size * size)) in
          let tmp := repeat 0 (Z.to_nat (to_size_t (size * dst_size))) in
          data <- rma_get nbytes (image_index_g - 1) offset_g nbytes token_g ;;
          let tmp := poke tmp 0 data in
          emit (Win_flush (image_index_g - 1) (win_id token_g)) ;;;
          ierr <- (if same_type_and_kind dest src dst_kind src_kind
                   then rma_put tmp nbytes (image_index_s - 1) offset_s
                          (to_int (to_size_t (min_size dest src * size)))
                          token_s
                   else ret ierr) ;;
          emit (Win_flush (image_index_s - 1) (win_id token_s)) ;;;
          if negb (ierr =? 0) then terminate_internal ierr 0
          else ret stat
        else
          let tmp := repeat 0 (Z.to_nat dst_size) in
          for_each (seq 0 (Z.to_nat size))
            (fun i =>
               let dst_offset :=
                 to_ptrdiff_t
                   (offset_s
                    + to_size_t (array_offset (Z.of_nat i) rank rank dest
                                 * dst_size)) in
               let array_offset_sr :=
                 if negb (GFC_DESCRIPTOR_RANK src =? 0)
                 then to_ptrdiff_t
                        (array_offset (Z.of_nat i) (GFC_DESCRIPTOR_RANK src)
                           rank src * src_size)
                 else 0 in
               let src_offset := to_ptrdiff_t (offset_g + array_offset_sr) in
               data <- rma_get (to_int dst_size) (image_index_g - 1)
                         src_offset (to_int src_size) token_g ;;
               let tmp := poke tmp 0 data in
               emit (Win_flush (image_index_g - 1) (win_id token_g)) ;;;
               ierr <- rma_put tmp (to_int dst_size) (image_index_s - 1)
                         dst_offset (to_int dst_size) token_s ;;
               emit (Win_flush (image_index_s - 1) (win_id token_s)) ;;;
               if negb (ierr =? 0) then terminate_internal ierr 0
               else ret tt) ;;;
          ret stat.

(** *** The reference walker: elements per dimension *)

(** Modelled from the spec: the kinds of a dimension of an array
    reference, "SINGLE, RANGE, OPEN_START, OPEN_END, FULL, VECTOR"
    (the enumeration of libcaf.h is not part of the sources at hand);
    [CAF_ARR_REF_NONE] ends the list of dimensions. *)
Inductive caf_array_ref_t :=
| CAF_ARR_REF_NONE
| CAF_ARR_REF_VECTOR
| CAF_ARR_REF_FULL
| CAF_ARR_REF_RANGE
| CAF_ARR_REF_SINGLE
| CAF_ARR_REF_OPEN_END
| CAF_ARR_REF_OPEN_START.

(** One entry of [ref->u.a.dim]: the members [s] (a triplet) and [v] (a
    vector of indices of some integer kind) of the union. *)
Record caf_ref_dim := mkRefDim {
  s_start : Z;
  s_end : Z;
  s_stride : Z;
  v_vector : list Z;
  v_nvec : Z;
  v_kind : Z
}.

(** [COMPUTE_NUM_ITEMS (num, stride, lb, ub)]; [None] is the [return]
    the macro makes the enclosing function take. *)
Definition COMPUTE_NUM_ITEMS (stride lb ub : Z) : option Z :=
  let abs_stride := if stride >? 0 then stride else to_ptrdiff_t (- stride) in
  let num :=
    if stride >? 0
    then to_ptrdiff_t (to_ptrdiff_t (ub + 1) - lb)
    else to_ptrdiff_t (to_ptrdiff_t (lb + 1) - ub) in
  if (num <=? 0) || (abs_stride <? 1) then None
  else Some (if abs_stride >? 1
             then to_ptrdiff_t (1 + Z.quot (num - 1) abs_stride)
             else num).

(** What the planning pass makes of one dimension; [Plan_trap] is the
    integer division by 0, which ends the process. *)
Inductive dim_plan :=
| Plan_error (message : string)
| Plan_return
| Plan_items (delta : Z) (memptr_step : Z)
| Plan_trap.

Definition plan_items (num : option Z) (memptr_step : Z) : dim_plan :=
  match num with
  | None => Plan_return
  | Some delta => if delta <=? 0 then Plan_return else Plan_items delta memptr_step
  end.

(** [_gfortran_caf_get_by_ref], case [CAF_REF_ARRAY]: the [switch] over
    [riter->u.a.mode[i]] and the test [if (delta <= 0) return;] that
    follows it.  [sd] is [src->dim[i]]. *)
Definition get_by_ref_array_dim (mode : caf_array_ref_t) (rd : caf_ref_dim)
    (item_size : Z) (sd : descriptor_dimension) : dim_plan :=
  let first_elem (start : Z) : Z :=
    (start - lower_bound sd) * _stride sd * item_size in
  match mode with
  | CAF_ARR_REF_VECTOR =>
      if (v_kind rd =? 1) || (v_kind rd =? 2) || (v_kind rd =? 4)
         || (v_kind rd =? 8)
      then plan_items (Some (to_long (v_nvec rd)))
             (first_elem (nth 0 (v_vector rd) 0))
      else Plan_error "unknown kind in vector-ref."
  | CAF_ARR_REF_FULL =>
      plan_items
        (COMPUTE_NUM_ITEMS (s_stride rd) (lower_bound sd) (_ubound sd)) 0
  | CAF_ARR_REF_RANGE =>
      plan_items (COMPUTE_NUM_ITEMS (s_stride rd) (s_start rd) (s_end rd))
        (first_elem (s_start rd))
  | CAF_ARR_REF_SINGLE =>
      plan_items (Some 1) (first_elem (s_start rd))
  | CAF_ARR_REF_OPEN_END =>
      plan_items (COMPUTE_NUM_ITEMS (s_stride rd) (s_start rd) (_ubound sd))
        (first_elem (s_start rd))
  | CAF_ARR_REF_OPEN_START =>
      plan_items
        (COMPUTE_NUM_ITEMS (s_stride rd) (lower_bound sd) (s_end rd)) 0
  | CAF_ARR_REF_NONE => Plan_error "unknown array reference type."
  end.

(** [get_for_ref], case [CAF_REF_ARRAY]: the value of [extent_src] that
    bounds the loop over one dimension in the copy pass; [None] where
    the function returns or the mode has no such loop. *)
Definition get_for_ref_extent_src (mode : caf_array_ref_t) (rd : caf_ref_dim)
    (sd : descriptor_dimension) : option Z :=
  match mode with
  | CAF_ARR_REF_FULL =>
      COMPUTE_NUM_ITEMS (s_stride rd) (lower_bound sd) (_ubound sd)
  | CAF_ARR_REF_RANGE =>
      COMPUTE_NUM_ITEMS (s_stride rd) (s_start rd) (s_end rd)
  | CAF_ARR_REF_OPEN_END =>
      COMPUTE_NUM_ITEMS (s_stride rd) (s_start rd) (_ubound sd)
  | CAF_ARR_REF_OPEN_START =>
      COMPUTE_NUM_ITEMS (s_stride rd) (lower_bound sd) (s_end rd)
  | _ => None
  end.

(** The lower and the upper bound a dimension of an array reference runs
    between: those of the reference where it gives them, those of the
    remote descriptor where it leaves them open. *)
Definition ref_lower_bound (mode : caf_array_ref_t) (rd : caf_ref_dim)
    (sd : descriptor_dimension) : Z :=
  match mode with
  | CAF_ARR_REF_RANGE | CAF_ARR_REF_OPEN_END => s_start rd
  | _ => lower_bound sd
  end.

Definition ref_upper_bound (mode : caf_array_ref_t) (rd : caf_ref_dim)
    (sd : descriptor_dimension) : Z :=
  match mode with
  | CAF_ARR_REF_RANGE | CAF_ARR_REF_OPEN_START => s_end rd
  | _ => _ubound sd
  end.

Definition is_triplet (mode : caf_array_ref_t) : bool :=
  match mode with
  | CAF_ARR_REF_FULL | CAF_ARR_REF_RANGE | CAF_ARR_REF_OPEN_END
  | CAF_ARR_REF_OPEN_START => true
  | _ => false
  end.

(** [_gfortran_caf_get_by_ref], case [CAF_REF_STATIC_ARRAY]: the [switch]
    over [riter->u.a.mode[i]] and the test [if (delta <= 0) return;] that
    follows it.  A static array has no descriptor: its indices start at 0,
    and a FULL dimension counts [s.end / s.stride + 1], with no test of the
    stride before the division. *)
Definition get_by_ref_static_array_dim (mode : caf_array_ref_t)
    (rd : caf_ref_dim) (item_size : Z) : dim_plan :=
  match mode with
  | CAF_ARR_REF_VECTOR =>
      if (v_kind rd =? 1) || (v_kind rd =? 2) || (v_kind rd =? 4)
         || (v_kind rd =? 8)
      then plan_items (Some (to_long (v_nvec rd)))
             (nth 0 (v_vector rd) 0 * item_size)
      else Plan_error "unknown kind in vector-ref."
  | CAF_ARR_REF_FULL =>
      if s_stride rd =? 0 then Plan_trap
      else
        plan_items
          (Some (to_long (to_ptrdiff_t
                            (to_ptrdiff_t (Z.quot (s_end rd) (s_stride rd))
                             + 1))))
          0
  | CAF_ARR_REF_RANGE =>
      plan_items (COMPUTE_NUM_ITEMS (s_stride rd) (s_start rd) (s_end rd))
        (s_start rd * s_stride rd * item_size)
  | CAF_ARR_REF_SINGLE =>
      plan_items (Some 1) (s_start rd * s_stride rd * item_size)
  | _ => Plan_error "unknown array reference type."
  end.

(** The bounds of a dimension of a reference into a static array: a FULL
    dimension runs from index 0 to [s.end]. *)
Definition static_lower_bound (mode : caf_array_ref_t) (rd : caf_ref_dim) : Z :=
  match mode with
  | CAF_ARR_REF_RANGE => s_start rd
  | _ => 0
  end.

Definition static_upper_bound (rd : caf_ref_dim) : Z := s_end rd.

Definition is_static_triplet (mode : caf_array_ref_t) : bool :=
  match mode with
  | CAF_ARR_REF_FULL | CAF_ARR_REF_RANGE => true
  | _ => false
  end.

(** ** Properties *)

(** *** Reading a field after an update *)

Lemma caf_this_image_set_caf_is_finalized v rt : caf_this_image (set_caf_is_finalized v rt) = caf_this_image rt.
Proof. reflexivity. Qed.
Lemma caf_num_images_set_caf_is_finalized v rt : caf_num_images (set_caf_is_finalized v rt) = caf_num_images rt.
Proof. reflexivity. Qed.
Lemma caf_is_finalized_set_caf_is_finalized v rt : caf_is_finalized (set_caf_is_finalized v rt) = v.
Proof. reflexivity. Qed.
Lemma caf_owns_mpi_set_caf_is_finalized v rt : caf_owns_mpi (set_caf_is_finalized v rt) = caf_owns_mpi rt.
Proof. reflexivity. Qed.
Lemma img_status_set_caf_is_finalized v rt : img_status (set_caf_is_finalized v rt) = img_status rt.
Proof. reflexivity. Qed.
Lemma images_full_set_caf_is_finalized v rt : images_full (set_caf_is_finalized v rt) = images_full rt.
Proof. reflexivity. Qed.
Lemma arrived_set_caf_is_finalized v rt : arrived (set_caf_is_finalized v rt) = arrived rt.
Proof. reflexivity. Qed.
Lemma image_stati_set_caf_is_finalized v rt : image_stati (set_caf_is_finalized v rt) = image_stati rt.
Proof. reflexivity. Qed.
Lemma no_stopped_images_check_in_errhandler_set_caf_is_finalized v rt : no_stopped_images_check_in_errhandler (set_caf_is_finalized v rt) = no_stopped_images_check_in_errhandler rt.
Proof. reflexivity. Qed.
Lemma caf_allocated_tokens_set_caf_is_finalized v rt : caf_allocated_tokens (set_caf_is_finalized v rt) = caf_allocated_tokens rt.
Proof. reflexivity. Qed.
Lemma caf_allocated_slave_tokens_set_caf_is_finalized v rt : caf_allocated_slave_tokens (set_caf_is_finalized v rt) = caf_allocated_slave_tokens rt.
Proof. reflexivity. Qed.
Lemma memory_set_caf_is_finalized v rt : memory (set_caf_is_finalized v rt) = memory rt.
Proof. reflexivity. Qed.
Lemma heap_top_set_caf_is_finalized v rt : heap_top (set_caf_is_finalized v rt) = heap_top rt.
Proof. reflexivity. Qed.
Lemma events_set_caf_is_finalized v rt : events (set_caf_is_finalized v rt) = events rt.
Proof. reflexivity. Qed.
Lemma caf_this_image_set_img_status v rt : caf_this_image (set_img_status v rt) = caf_this_image rt.
Proof. reflexivity. Qed.
Lemma caf_num_images_set_img_status v rt : caf_num_images (set_img_status v rt) = caf_num_images rt.
Proof. reflexivity. Qed.
Lemma caf_is_finalized_set_img_status v rt : caf_is_finalized (set_img_status v rt) = caf_is_finalized rt.
Proof. reflexivity. Qed.
Lemma caf_owns_mpi_set_img_status v rt : caf_owns_mpi (set_img_status v rt) = caf_owns_mpi rt.
Proof. reflexivity. Qed.
Lemma img_status_set_img_status v rt : img_status (set_img_status v rt) = v.
Proof. reflexivity. Qed.
Lemma images_full_set_img_status v rt : images_full (set_img_status v rt) = images_full rt.
Proof. reflexivity. Qed.
Lemma arrived_set_img_status v rt : arrived (set_img_status v rt) = arrived rt.
Proof. reflexivity. Qed.
Lemma image_stati_set_img_status v rt : image_stati (set_img_status v rt) = image_stati rt.
Proof. reflexivity. Qed.
Lemma no_stopped_images_check_in_errhandler_set_img_status v rt : no_stopped_images_check_in_errhandler (set_img_status v rt) = no_stopped_images_check_in_errhandler rt.
Proof. reflexivity. Qed.
Lemma caf_allocated_tokens_set_img_status v rt : caf_allocated_tokens (set_img_status v rt) = caf_allocated_tokens rt.
Proof. reflexivity. Qed.
Lemma caf_allocated_slave_tokens_set_img_status v rt : caf_allocated_slave_tokens (set_img_status v rt) = caf_allocated_slave_tokens rt.
Proof. reflexivity. Qed.
Lemma memory_set_img_status v rt : memory (set_img_status v rt) = memory rt.
Proof. reflexivity. Qed.
Lemma heap_top_set_img_status v rt : heap_top (set_img_status v rt) = heap_top rt.
Proof. reflexivity. Qed.
Lemma events_set_img_status v rt : events (set_img_status v rt) = events rt.
Proof. reflexivity. Qed.
Lemma caf_this_image_set_arrived v rt : caf_this_image (set_arrived v rt) = caf_this_image rt.
Proof. reflexivity. Qed.
Lemma caf_num_images_set_arrived v rt : caf_num_images (set_arrived v rt) = caf_num_images rt.
Proof. reflexivity. Qed.
Lemma caf_is_finalized_set_arrived v rt : caf_is_finalized (set_arrived v rt) = caf_is_finalized rt.
Proof. reflexivity. Qed.
Lemma caf_owns_mpi_set_arrived v rt : caf_owns_mpi (set_arrived v rt) = caf_owns_mpi rt.
Proof. reflexivity. Qed.
Lemma img_status_set_arrived v rt : img_status (set_arrived v rt) = img_status rt.
Proof. reflexivity. Qed.
Lemma images_full_set_arrived v rt : images_full (set_arrived v rt) = images_full rt.
Proof. reflexivity. Qed.
Lemma arrived_set_arrived v rt : arrived (set_arrived v rt) = v.
Proof. reflexivity. Qed.
Lemma image_stati_set_arrived v rt : image_stati (set_arrived v rt) = image_stati rt.
Proof. reflexivity. Qed.
Lemma no_stopped_images_check_in_errhandler_set_arrived v rt : no_stopped_images_check_in_errhandler (set_arrived v rt) = no_stopped_images_check_in_errhandler rt.
Proof. reflexivity. Qed.
Lemma caf_allocated_tokens_set_arrived v rt : caf_allocated_tokens (set_arrived v rt) = caf_allocated_tokens rt.
Proof. reflexivity. Qed.
Lemma caf_allocated_slave_tokens_set_arrived v rt : caf_allocated_slave_tokens (set_arrived v rt) = caf_allocated_slave_tokens rt.
Proof. reflexivity. Qed.
Lemma memory_set_arrived v rt : memory (set_arrived v rt) = memory rt.
Proof. reflexivity. Qed.
Lemma heap_top_set_arrived v rt : heap_top (set_arrived v rt) = heap_top rt.
Proof. reflexivity. Qed.
Lemma events_set_arrived v rt : events (set_arrived v rt) = events rt.
Proof. reflexivity. Qed.
Lemma caf_this_image_set_image_stati v rt : caf_this_image (set_image_stati v rt) = caf_this_image rt.
Proof. reflexivity. Qed.
Lemma caf_num_images_set_image_stati v rt : caf_num_images (set_image_stati v rt) = caf_num_images rt.
Proof. reflexivity. Qed.
Lemma caf_is_finalized_set_image_stati v rt : caf_is_finalized (set_image_stati v rt) = caf_is_finalized rt.
Proof. reflexivity. Qed.
Lemma caf_owns_mpi_set_image_stati v rt : caf_owns_mpi (set_image_stati v rt) = caf_owns_mpi rt.
Proof. reflexivity. Qed.
Lemma img_status_set_image_stati v rt : img_status (set_image_stati v rt) = img_status rt.
Proof. reflexivity. Qed.
Lemma images_full_set_image_stati v rt : images_full (set_image_stati v rt) = images_full rt.
Proof. reflexivity. Qed.
Lemma arrived_set_image_stati v rt : arrived (set_image_stati v rt) = arrived rt.
Proof. reflexivity. Qed.
Lemma image_stati_set_image_stati v rt : image_stati (set_image_stati v rt) = v.
Proof. reflexivity. Qed.
Lemma no_stopped_images_check_in_errhandler_set_image_stati v rt : no_stopped_images_check_in_errhandler (set_image_stati v rt) = no_stopped_images_check_in_errhandler rt.
Proof. reflexivity. Qed.
Lemma caf_allocated_tokens_set_image_stati v rt : caf_allocated_tokens (set_image_stati v rt) = caf_allocated_tokens rt.
Proof. reflexivity. Qed.
Lemma caf_allocated_slave_tokens_set_image_stati v rt : caf_allocated_slave_tokens (set_image_stati v rt) = caf_allocated_slave_tokens rt.
Proof. reflexivity. Qed.
Lemma memory_set_image_stati v rt : memory (set_image_stati v rt) = memory rt.
Proof. reflexivity. Qed.
Lemma heap_top_set_image_stati v rt : heap_top (set_image_stati v rt) = heap_top rt.
Proof. reflexivity. Qed.
Lemma events_set_image_stati v rt : events (set_image_stati v rt) = events rt.
Proof. reflexivity. Qed.
Lemma caf_this_image_set_no_stopped_images_check v rt : caf_this_image (set_no_stopped_images_check v rt) = caf_this_image rt.
Proof. reflexivity. Qed.
Lemma caf_num_images_set_no_stopped_images_check v rt : caf_num_images (set_no_stopped_images_check v rt) = caf_num_images rt.
Proof. reflexivity. Qed.
Lemma caf_is_finalized_set_no_stopped_images_check v rt : caf_is_finalized (set_no_stopped_images_check v rt) = caf_is_finalized rt.
Proof. reflexivity. Qed.
Lemma caf_owns_mpi_set_no_stopped_images_check v rt : caf_owns_mpi (set_no_stopped_images_check v rt) = caf_owns_mpi rt.
Proof. reflexivity. Qed.
Lemma img_status_set_no_stopped_images_check v rt : img_status (set_no_stopped_images_check v rt) = img_status rt.
Proof. reflexivity. Qed.
Lemma images_full_set_no_stopped_images_check v rt : images_full (set_no_stopped_images_check v rt) = images_full rt.
Proof. reflexivity. Qed.
Lemma arrived_set_no_stopped_images_check v rt : arrived (set_no_stopped_images_check v rt) = arrived rt.
Proof. reflexivity. Qed.
Lemma image_stati_set_no_stopped_images_check v rt : image_stati (set_no_stopped_images_check v rt) = image_stati rt.
Proof. reflexivity. Qed.
Lemma no_stopped_images_check_in_errhandler_set_no_stopped_images_check v rt : no_stopped_images_check_in_errhandler (set_no_stopped_images_check v rt) = v.
Proof. reflexivity. Qed.
Lemma caf_allocated_tokens_set_no_stopped_images_check v rt : caf_allocated_tokens (set_no_stopped_images_check v rt) = caf_allocated_tokens rt.
Proof. reflexivity. Qed.
Lemma caf_allocated_slave_tokens_set_no_stopped_images_check v rt : caf_allocated_slave_tokens (set_no_stopped_images_check v rt) = caf_allocated_slave_tokens rt.
Proof. reflexivity. Qed.
Lemma memory_set_no_stopped_images_check v rt : memory (set_no_stopped_images_check v rt) = memory rt.
Proof. reflexivity. Qed.
Lemma heap_top_set_no_stopped_images_check v rt : heap_top (set_no_stopped_images_check v rt) = heap_top rt.
Proof. reflexivity. Qed.
Lemma events_set_no_stopped_images_check v rt : events (set_no_stopped_images_check v rt) = events rt.
Proof. reflexivity. Qed.
Lemma caf_this_image_set_caf_allocated_tokens v rt : caf_this_image (set_caf_allocated_tokens v rt) = caf_this_image rt.
Proof. reflexivity. Qed.
Lemma caf_num_images_set_caf_allocated_tokens v rt : caf_num_images (set_caf_allocated_tokens v rt) = caf_num_images rt.
Proof. reflexivity. Qed.
Lemma caf_is_finalized_set_caf_allocated_tokens v rt : caf_is_finalized (set_caf_allocated_tokens v rt) = caf_is_finalized rt.
Proof. reflexivity. Qed.
Lemma caf_owns_mpi_set_caf_allocated_tokens v rt : caf_owns_mpi (set_caf_allocated_tokens v rt) = caf_owns_mpi rt.
Proof. reflexivity. Qed.
Lemma img_status_set_caf_allocated_tokens v rt : img_status (set_caf_allocated_tokens v rt) = img_status rt.
Proof. reflexivity. Qed.
Lemma images_full_set_caf_allocated_tokens v rt : images_full (set_caf_allocated_tokens v rt) = images_full rt.
Proof. reflexivity. Qed.
Lemma arrived_set_caf_allocated_tokens v rt : arrived (set_caf_allocated_tokens v rt) = arrived rt.
Proof. reflexivity. Qed.
Lemma image_stati_set_caf_allocated_tokens v rt : image_stati (set_caf_allocated_tokens v rt) = image_stati rt.
Proof. reflexivity. Qed.
Lemma no_stopped_images_check_in_errhandler_set_caf_allocated_tokens v rt : no_stopped_images_check_in_errhandler (set_caf_allocated_tokens v rt) = no_stopped_images_check_in_errhandler rt.
Proof. reflexivity. Qed.
Lemma caf_allocated_tokens_set_caf_allocated_tokens v rt : caf_allocated_tokens (set_caf_allocated_tokens v rt) = v.
Proof. reflexivity. Qed.
Lemma caf_allocated_slave_tokens_set_caf_allocated_tokens v rt : caf_allocated_slave_tokens (set_caf_allocated_tokens v rt) = caf_allocated_slave_tokens rt.
Proof. reflexivity. Qed.
Lemma memory_set_caf_allocated_tokens v rt : memory (set_caf_allocated_tokens v rt) = memory rt.
Proof. reflexivity. Qed.
Lemma heap_top_set_caf_allocated_tokens v rt : heap_top (set_caf_allocated_tokens v rt) = heap_top rt.
Proof. reflexivity. Qed.
Lemma events_set_caf_allocated_tokens v rt : events (set_caf_allocated_tokens v rt) = events rt.
Proof. reflexivity. Qed.
Lemma caf_this_image_set_caf_allocated_slave_tokens v rt : caf_this_image (set_caf_allocated_slave_tokens v rt) = caf_this_image rt.
Proof. reflexivity. Qed.
Lemma caf_num_images_set_caf_allocated_slave_tokens v rt : caf_num_images (set_caf_allocated_slave_tokens v rt) = caf_num_images rt.
Proof. reflexivity. Qed.
Lemma caf_is_finalized_set_caf_allocated_slave_tokens v rt : caf_is_finalized (set_caf_allocated_slave_tokens v rt) = caf_is_finalized rt.
Proof. reflexivity. Qed.
Lemma caf_owns_mpi_set_caf_allocated_slave_tokens v rt : caf_owns_mpi (set_caf_allocated_slave_tokens v rt) = caf_owns_mpi rt.
Proof. reflexivity. Qed.
Lemma img_status_set_caf_allocated_slave_tokens v rt : img_status (set_caf_allocated_slave_tokens v rt) = img_status rt.
Proof. reflexivity. Qed.
Lemma images_full_set_caf_allocated_slave_tokens v rt : images_full (set_caf_allocated_slave_tokens v rt) = images_full rt.
Proof. reflexivity. Qed.
Lemma arrived_set_caf_allocated_slave_tokens v rt : arrived (set_caf_allocated_slave_tokens v rt) = arrived rt.
Proof. reflexivity. Qed.
Lemma image_stati_set_caf_allocated_slave_tokens v rt : image_stati (set_caf_allocated_slave_tokens v rt) = image_stati rt.
Proof. reflexivity. Qed.
Lemma no_stopped_images_check_in_errhandler_set_caf_allocated_slave_tokens v rt : no_stopped_images_check_in_errhandler (set_caf_allocated_slave_tokens v rt) = no_stopped_images_check_in_errhandler rt.
Proof. reflexivity. Qed.
Lemma caf_allocated_tokens_set_caf_allocated_slave_tokens v rt : caf_allocated_tokens (set_caf_allocated_slave_tokens v rt) = caf_allocated_tokens rt.
Proof. reflexivity. Qed.
Lemma caf_allocated_slave_tokens_set_caf_allocated_slave_tokens v rt : caf_allocated_slave_tokens (set_caf_allocated_slave_tokens v rt) = v.
Proof. reflexivity. Qed.
Lemma memory_set_caf_allocated_slave_tokens v rt : memory (set_caf_allocated_slave_tokens v rt) = memory rt.
Proof. reflexivity. Qed.
Lemma heap_top_set_caf_allocated_slave_tokens v rt : heap_top (set_caf_allocated_slave_tokens v rt) = heap_top rt.
Proof. reflexivity. Qed.
Lemma events_set_caf_allocated_slave_tokens v rt : events (set_caf_allocated_slave_tokens v rt) = events rt.
Proof. reflexivity. Qed.
Lemma caf_this_image_set_memory v rt : caf_this_image (set_memory v rt) = caf_this_image rt.
Proof. reflexivity. Qed.
Lemma caf_num_images_set_memory v rt : caf_num_images (set_memory v rt) = caf_num_images rt.
Proof. reflexivity. Qed.
Lemma caf_is_finalized_set_memory v rt : caf_is_finalized (set_memory v rt) = caf_is_finalized rt.
Proof. reflexivity. Qed.
Lemma caf_owns_mpi_set_memory v rt : caf_owns_mpi (set_memory v rt) = caf_owns_mpi rt.
Proof. reflexivity. Qed.
Lemma img_status_set_memory v rt : img_status (set_memory v rt) = img_status rt.
Proof. reflexivity. Qed.
Lemma images_full_set_memory v rt : images_full (set_memory v rt) = images_full rt.
Proof. reflexivity. Qed.
Lemma arrived_set_memory v rt : arrived (set_memory v rt) = arrived rt.
Proof. reflexivity. Qed.
Lemma image_stati_set_memory v rt : image_stati (set_memory v rt) = image_stati rt.
Proof. reflexivity. Qed.
Lemma no_stopped_images_check_in_errhandler_set_memory v rt : no_stopped_images_check_in_errhandler (set_memory v rt) = no_stopped_images_check_in_errhandler rt.
Proof. reflexivity. Qed.
Lemma caf_allocated_tokens_set_memory v rt : caf_allocated_tokens (set_memory v rt) = caf_allocated_tokens rt.
Proof. reflexivity. Qed.
Lemma caf_allocated_slave_tokens_set_memory v rt : caf_allocated_slave_tokens (set_memory v rt) = caf_allocated_slave_tokens rt.
Proof. reflexivity. Qed.
Lemma memory_set_memory v rt : memory (set_memory v rt) = v.
Proof. reflexivity. Qed.
Lemma heap_top_set_memory v rt : heap_top (set_memory v rt) = heap_top rt.
Proof. reflexivity. Qed.
Lemma events_set_memory v rt : events (set_memory v rt) = events rt.
Proof. reflexivity. Qed.
Lemma caf_this_image_set_heap_top v rt : caf_this_image (set_heap_top v rt) = caf_this_image rt.
Proof. reflexivity. Qed.
Lemma caf_num_images_set_heap_top v rt : caf_num_images (set_heap_top v rt) = caf_num_images rt.
Proof. reflexivity. Qed.
Lemma caf_is_finalized_set_heap_top v rt : caf_is_finalized (set_heap_top v rt) = caf_is_finalized rt.
Proof. reflexivity. Qed.
Lemma caf_owns_mpi_set_heap_top v rt : caf_owns_mpi (set_heap_top v rt) = caf_owns_mpi rt.
Proof. reflexivity. Qed.
Lemma img_status_set_heap_top v rt : img_status (set_heap_top v rt) = img_status rt.
Proof. reflexivity. Qed.
Lemma images_full_set_heap_top v rt : images_full (set_heap_top v rt) = images_full rt.
Proof. reflexivity. Qed.
Lemma arrived_set_heap_top v rt : arrived (set_heap_top v rt) = arrived rt.
Proof. reflexivity. Qed.
Lemma image_stati_set_heap_top v rt : image_stati (set_heap_top v rt) = image_stati rt.
Proof. reflexivity. Qed.
Lemma no_stopped_images_check_in_errhandler_set_heap_top v rt : no_stopped_images_check_in_errhandler (set_heap_top v rt) = no_stopped_images_check_in_errhandler rt.
Proof. reflexivity. Qed.
Lemma caf_allocated_tokens_set_heap_top v rt : caf_allocated_tokens (set_heap_top v rt) = caf_allocated_tokens rt.
Proof. reflexivity. Qed.
Lemma caf_allocated_slave_tokens_set_heap_top v rt : caf_allocated_slave_tokens (set_heap_top v rt) = caf_allocated_slave_tokens rt.
Proof. reflexivity. Qed.
Lemma memory_set_heap_top v rt : memory (set_heap_top v rt) = memory rt.
Proof. reflexivity. Qed.
Lemma heap_top_set_heap_top v rt : heap_top (set_heap_top v rt) = v.
Proof. reflexivity. Qed.
Lemma events_set_heap_top v rt : events (set_heap_top v rt) = events rt.
Proof. reflexivity. Qed.
Lemma caf_this_image_set_events v rt : caf_this_image (set_events v rt) = caf_this_image rt.
Proof. reflexivity. Qed.
Lemma caf_num_images_set_events v rt : caf_num_images (set_events v rt) = caf_num_images rt.
Proof. reflexivity. Qed.
Lemma caf_is_finalized_set_events v rt : caf_is_finalized (set_events v rt) = caf_is_finalized rt.
Proof. reflexivity. Qed.
Lemma caf_owns_mpi_set_events v rt : caf_owns_mpi (set_events v rt) = caf_owns_mpi rt.
Proof. reflexivity. Qed.
Lemma img_status_set_events v rt : img_status (set_events v rt) = img_status rt.
Proof. reflexivity. Qed.
Lemma images_full_set_events v rt : images_full (set_events v rt) = images_full rt.
Proof. reflexivity. Qed.
Lemma arrived_set_events v rt : arrived (set_events v rt) = arrived rt.
Proof. reflexivity. Qed.
Lemma image_stati_set_events v rt : image_stati (set_events v rt) = image_stati rt.
Proof. reflexivity. Qed.
Lemma no_stopped_images_check_in_errhandler_set_events v rt : no_stopped_images_check_in_errhandler (set_events v rt) = no_stopped_images_check_in_errhandler rt.
Proof. reflexivity. Qed.
Lemma caf_allocated_tokens_set_events v rt : caf_allocated_tokens (set_events v rt) = caf_allocated_tokens rt.
Proof. reflexivity. Qed.
Lemma caf_allocated_slave_tokens_set_events v rt : caf_allocated_slave_tokens (set_events v rt) = caf_allocated_slave_tokens rt.
Proof. reflexivity. Qed.
Lemma memory_set_events v rt : memory (set_events v rt) = memory rt.
Proof. reflexivity. Qed.
Lemma heap_top_set_events v rt : heap_top (set_events v rt) = heap_top rt.
Proof. reflexivity. Qed.
Lemma events_set_events v rt : events (set_events v rt) = v.
Proof. reflexivity. Qed.
Lemma caf_this_image_set_caf_this_image v rt : caf_this_image (set_caf_this_image v rt) = v.
Proof. reflexivity. Qed.
Lemma caf_num_images_set_caf_this_image v rt : caf_num_images (set_caf_this_image v rt) = caf_num_images rt.
Proof. reflexivity. Qed.
Lemma caf_is_finalized_set_caf_this_image v rt : caf_is_finalized (set_caf_this_image v rt) = caf_is_finalized rt.
Proof. reflexivity. Qed.
Lemma caf_owns_mpi_set_caf_this_image v rt : caf_owns_mpi (set_caf_this_image v rt) = caf_owns_mpi rt.
Proof. reflexivity. Qed.
Lemma img_status_set_caf_this_image v rt : img_status (set_caf_this_image v rt) = img_status rt.
Proof. reflexivity. Qed.
Lemma images_full_set_caf_this_image v rt : images_full (set_caf_this_image v rt) = images_full rt.
Proof. reflexivity. Qed.
Lemma arrived_set_caf_this_image v rt : arrived (set_caf_this_image v rt) = arrived rt.
Proof. reflexivity. Qed.
Lemma image_stati_set_caf_this_image v rt : image_stati (set_caf_this_image v rt) = image_stati rt.
Proof. reflexivity. Qed.
Lemma no_stopped_images_check_in_errhandler_set_caf_this_image v rt : no_stopped_images_check_in_errhandler (set_caf_this_image v rt) = no_stopped_images_check_in_errhandler rt.
Proof. reflexivity. Qed.
Lemma caf_allocated_tokens_set_caf_this_image v rt : caf_allocated_tokens (set_caf_this_image v rt) = caf_allocated_tokens rt.
Proof. reflexivity. Qed.
Lemma caf_allocated_slave_tokens_set_caf_this_image v rt : caf_allocated_slave_tokens (set_caf_this_image v rt) = caf_allocated_slave_tokens rt.
Proof. reflexivity. Qed.
Lemma memory_set_caf_this_image v rt : memory (set_caf_this_image v rt) = memory rt.
Proof. reflexivity. Qed.
Lemma heap_top_set_caf_this_image v rt : heap_top (set_caf_this_image v rt) = heap_top rt.
Proof. reflexivity. Qed.
Lemma events_set_caf_this_image v rt : events (set_caf_this_image v rt) = events rt.
Proof. reflexivity. Qed.
Lemma caf_this_image_set_caf_num_images v rt : caf_this_image (set_caf_num_images v rt) = caf_this_image rt.
Proof. reflexivity. Qed.
Lemma caf_num_images_set_caf_num_images v rt : caf_num_images (set_caf_num_images v rt) = v.
Proof. reflexivity. Qed.
Lemma caf_is_finalized_set_caf_num_images v rt : caf_is_finalized (set_caf_num_images v rt) = caf_is_finalized rt.
Proof. reflexivity. Qed.
Lemma caf_owns_mpi_set_caf_num_images v rt : caf_owns_mpi (set_caf_num_images v rt) = caf_owns_mpi rt.
Proof. reflexivity. Qed.
Lemma img_status_set_caf_num_images v rt : img_status (set_caf_num_images v rt) = img_status rt.
Proof. reflexivity. Qed.
Lemma images_full_set_caf_num_images v rt : images_full (set_caf_num_images v rt) = images_full rt.
Proof. reflexivity. Qed.
Lemma arrived_set_caf_num_images v rt : arrived (set_caf_num_images v rt) = arrived rt.
Proof. reflexivity. Qed.
Lemma image_stati_set_caf_num_images v rt : image_stati (set_caf_num_images v rt) = image_stati rt.
Proof. reflexivity. Qed.
Lemma no_stopped_images_check_in_errhandler_set_caf_num_images v rt : no_stopped_images_check_in_errhandler (set_caf_num_images v rt) = no_stopped_images_check_in_errhandler rt.
Proof. reflexivity. Qed.
Lemma caf_allocated_tokens_set_caf_num_images v rt : caf_allocated_tokens (set_caf_num_images v rt) = caf_allocated_tokens rt.
Proof. reflexivity. Qed.
Lemma caf_allocated_slave_tokens_set_caf_num_images v rt : caf_allocated_slave_tokens (set_caf_num_images v rt) = caf_allocated_slave_tokens rt.
Proof. reflexivity. Qed.
Lemma memory_set_caf_num_images v rt : memory (set_caf_num_images v rt) = memory rt.
Proof. reflexivity. Qed.
Lemma heap_top_set_caf_num_images v rt : heap_top (set_caf_num_images v rt) = heap_top rt.
Proof. reflexivity. Qed.
Lemma events_set_caf_num_images v rt : events (set_caf_num_images v rt) = events rt.
Proof. reflexivity. Qed.
Lemma caf_this_image_set_caf_owns_mpi v rt : caf_this_image (set_caf_owns_mpi v rt) = caf_this_image rt.
Proof. reflexivity. Qed.
Lemma caf_num_images_set_caf_owns_mpi v rt : caf_num_images (set_caf_owns_mpi v rt) = caf_num_images rt.
Proof. reflexivity. Qed.
Lemma caf_is_finalized_set_caf_owns_mpi v rt : caf_is_finalized (set_caf_owns_mpi v rt) = caf_is_finalized rt.
Proof. reflexivity. Qed.
Lemma caf_owns_mpi_set_caf_owns_mpi v rt : caf_owns_mpi (set_caf_owns_mpi v rt) = v.
Proof. reflexivity. Qed.
Lemma img_status_set_caf_owns_mpi v rt : img_status (set_caf_owns_mpi v rt) = img_status rt.
Proof. reflexivity. Qed.
Lemma images_full_set_caf_owns_mpi v rt : images_full (set_caf_owns_mpi v rt) = images_full rt.
Proof. reflexivity. Qed.
Lemma arrived_set_caf_owns_mpi v rt : arrived (set_caf_owns_mpi v rt) = arrived rt.
Proof. reflexivity. Qed.
Lemma image_stati_set_caf_owns_mpi v rt : image_stati (set_caf_owns_mpi v rt) = image_stati rt.
Proof. reflexivity. Qed.
Lemma no_stopped_images_check_in_errhandler_set_caf_owns_mpi v rt : no_stopped_images_check_in_errhandler (set_caf_owns_mpi v rt) = no_stopped_images_check_in_errhandler rt.
Proof. reflexivity. Qed.
Lemma caf_allocated_tokens_set_caf_owns_mpi v rt : caf_allocated_tokens (set_caf_owns_mpi v rt) = caf_allocated_tokens rt.
Proof. reflexivity. Qed.
Lemma caf_allocated_slave_tokens_set_caf_owns_mpi v rt : caf_allocated_slave_tokens (set_caf_owns_mpi v rt) = caf_allocated_slave_tokens rt.
Proof. reflexivity. Qed.
Lemma memory_set_caf_owns_mpi v rt : memory (set_caf_owns_mpi v rt) = memory rt.
Proof. reflexivity. Qed.
Lemma heap_top_set_caf_owns_mpi v rt : heap_top (set_caf_owns_mpi v rt) = heap_top rt.
Proof. reflexivity. Qed.
Lemma events_set_caf_owns_mpi v rt : events (set_caf_owns_mpi v rt) = events rt.
Proof. reflexivity. Qed.
Lemma caf_this_image_set_images_full v rt : caf_this_image (set_images_full v rt) = caf_this_image rt.
Proof. reflexivity. Qed.
Lemma caf_num_images_set_images_full v rt : caf_num_images (set_images_full v rt) = caf_num_images rt.
Proof. reflexivity. Qed.
Lemma caf_is_finalized_set_images_full v rt : caf_is_finalized (set_images_full v rt) = caf_is_finalized rt.
Proof. reflexivity. Qed.
Lemma caf_owns_mpi_set_images_full v rt : caf_owns_mpi (set_images_full v rt) = caf_owns_mpi rt.
Proof. reflexivity. Qed.
Lemma img_status_set_images_full v rt : img_status (set_images_full v rt) = img_status rt.
Proof. reflexivity. Qed.
Lemma images_full_set_images_full v rt : images_full (set_images_full v rt) = v.
Proof. reflexivity. Qed.
Lemma arrived_set_images_full v rt : arrived (set_images_full v rt) = arrived rt.
Proof. reflexivity. Qed.
Lemma image_stati_set_images_full v rt : image_stati (set_images_full v rt) = image_stati rt.
Proof. reflexivity. Qed.
Lemma no_stopped_images_check_in_errhandler_set_images_full v rt : no_stopped_images_check_in_errhandler (set_images_full v rt) = no_stopped_images_check_in_errhandler rt.
Proof. reflexivity. Qed.
Lemma caf_allocated_tokens_set_images_full v rt : caf_allocated_tokens (set_images_full v rt) = caf_allocated_tokens rt.
Proof. reflexivity. Qed.
Lemma caf_allocated_slave_tokens_set_images_full v rt : caf_allocated_slave_tokens (set_images_full v rt) = caf_allocated_slave_tokens rt.
Proof. reflexivity. Qed.
Lemma memory_set_images_full v rt : memory (set_images_full v rt) = memory rt.
Proof. reflexivity. Qed.
Lemma heap_top_set_images_full v rt : heap_top (set_images_full v rt) = heap_top rt.
Proof. reflexivity. Qed.
Lemma events_set_images_full v rt : events (set_images_full v rt) = events rt.
Proof. reflexivity. Qed.

Create Rewrite HintDb rt.

Hint Rewrite
  caf_this_image_set_caf_is_finalized caf_num_images_set_caf_is_finalized
  caf_is_finalized_set_caf_is_finalized caf_owns_mpi_set_caf_is_finalized
  img_status_set_caf_is_finalized images_full_set_caf_is_finalized
  arrived_set_caf_is_finalized image_stati_set_caf_is_finalized
  no_stopped_images_check_in_errhandler_set_caf_is_finalized
  caf_allocated_tokens_set_caf_is_finalized
  caf_allocated_slave_tokens_set_caf_is_finalized memory_set_caf_is_finalized
  heap_top_set_caf_is_finalized events_set_caf_is_finalized
  caf_this_image_set_img_status caf_num_images_set_img_status
  caf_is_finalized_set_img_status caf_owns_mpi_set_img_status
  img_status_set_img_status images_full_set_img_status arrived_set_img_status
  image_stati_set_img_status
  no_stopped_images_check_in_errhandler_set_img_status
  caf_allocated_tokens_set_img_status
  caf_allocated_slave_tokens_set_img_status memory_set_img_status
  heap_top_set_img_status events_set_img_status caf_this_image_set_arrived
  caf_num_images_set_arrived caf_is_finalized_set_arrived
  caf_owns_mpi_set_arrived img_status_set_arrived images_full_set_arrived
  arrived_set_arrived image_stati_set_arrived
  no_stopped_images_check_in_errhandler_set_arrived
  caf_allocated_tokens_set_arrived caf_allocated_slave_tokens_set_arrived
  memory_set_arrived heap_top_set_arrived events_set_arrived
  caf_this_image_set_image_stati caf_num_images_set_image_stati
  caf_is_finalized_set_image_stati caf_owns_mpi_set_image_stati
  img_status_set_image_stati images_full_set_image_stati
  arrived_set_image_stati image_stati_set_image_stati
  no_stopped_images_check_in_errhandler_set_image_stati
  caf_allocated_tokens_set_image_stati
  caf_allocated_slave_tokens_set_image_stati memory_set_image_stati
  heap_top_set_image_stati events_set_image_stati
  caf_this_image_set_no_stopped_images_check
  caf_num_images_set_no_stopped_images_check
  caf_is_finalized_set_no_stopped_images_check
  caf_owns_mpi_set_no_stopped_images_check
  img_status_set_no_stopped_images_check
  images_full_set_no_stopped_images_check arrived_set_no_stopped_images_check
  image_stati_set_no_stopped_images_check
  no_stopped_images_check_in_errhandler_set_no_stopped_images_check
  caf_allocated_tokens_set_no_stopped_images_check
  caf_allocated_slave_tokens_set_no_stopped_images_check
  memory_set_no_stopped_images_check heap_top_set_no_stopped_images_check
  events_set_no_stopped_images_check caf_this_image_set_caf_allocated_tokens
  caf_num_images_set_caf_allocated_tokens
  caf_is_finalized_set_caf_allocated_tokens
  caf_owns_mpi_set_caf_allocated_tokens img_status_set_caf_allocated_tokens
  images_full_set_caf_allocated_tokens arrived_set_caf_allocated_tokens
  image_stati_set_caf_allocated_tokens
  no_stopped_images_check_in_errhandler_set_caf_allocated_tokens
  caf_allocated_tokens_set_caf_allocated_tokens
  caf_allocated_slave_tokens_set_caf_allocated_tokens
  memory_set_caf_allocated_tokens heap_top_set_caf_allocated_tokens
  events_set_caf_allocated_tokens
  caf_this_image_set_caf_allocated_slave_tokens
  caf_num_images_set_caf_allocated_slave_tokens
  caf_is_finalized_set_caf_allocated_slave_tokens
  caf_owns_mpi_set_caf_allocated_slave_tokens
  img_status_set_caf_allocated_slave_tokens
  images_full_set_caf_allocated_slave_tokens
  arrived_set_caf_allocated_slave_tokens
  image_stati_set_caf_allocated_slave_tokens
  no_stopped_images_check_in_errhandler_set_caf_allocated_slave_tokens
  caf_allocated_tokens_set_caf_allocated_slave_tokens
  caf_allocated_slave_tokens_set_caf_allocated_slave_tokens
  memory_set_caf_allocated_slave_tokens
  heap_top_set_caf_allocated_slave_tokens
  events_set_caf_allocated_slave_tokens caf_this_image_set_memory
  caf_num_images_set_memory caf_is_finalized_set_memory
  caf_owns_mpi_set_memory img_status_set_memory images_full_set_memory
  arrived_set_memory image_stati_set_memory
  no_stopped_images_check_in_errhandler_set_memory
  caf_allocated_tokens_set_memory caf_allocated_slave_tokens_set_memory
  memory_set_memory heap_top_set_memory events_set_memory
  caf_this_image_set_heap_top caf_num_images_set_heap_top
  caf_is_finalized_set_heap_top caf_owns_mpi_set_heap_top
  img_status_set_heap_top images_full_set_heap_top arrived_set_heap_top
  image_stati_set_heap_top no_stopped_images_check_in_errhandler_set_heap_top
  caf_allocated_tokens_set_heap_top caf_allocated_slave_tokens_set_heap_top
  memory_set_heap_top heap_top_set_heap_top events_set_heap_top
  caf_this_image_set_events caf_num_images_set_events
  caf_is_finalized_set_events caf_owns_mpi_set_events img_status_set_events
  images_full_set_events arrived_set_events image_stati_set_events
  no_stopped_images_check_in_errhandler_set_events
  caf_allocated_tokens_set_events caf_allocated_slave_tokens_set_events
  memory_set_events heap_top_set_events events_set_events
  : rt.

Lemma set_caf_is_finalized_twice v w rt : set_caf_is_finalized v (set_caf_is_finalized w rt) = set_caf_is_finalized v rt.
Proof. reflexivity. Qed.
Lemma set_img_status_twice v w rt : set_img_status v (set_img_status w rt) = set_img_status v rt.
Proof. reflexivity. Qed.
Lemma set_arrived_twice v w rt : set_arrived v (set_arrived w rt) = set_arrived v rt.
Proof. reflexivity. Qed.
Lemma set_image_stati_twice v w rt : set_image_stati v (set_image_stati w rt) = set_image_stati v rt.
Proof. reflexivity. Qed.
Lemma set_no_stopped_images_check_twice v w rt : set_no_stopped_images_check v (set_no_stopped_images_check w rt) = set_no_stopped_images_check v rt.
Proof. reflexivity. Qed.
Lemma set_caf_allocated_tokens_twice v w rt : set_caf_allocated_tokens v (set_caf_allocated_tokens w rt) = set_caf_allocated_tokens v rt.
Proof. reflexivity. Qed.
Lemma set_caf_allocated_slave_tokens_twice v w rt : set_caf_allocated_slave_tokens v (set_caf_allocated_slave_tokens w rt) = set_caf_allocated_slave_tokens v rt.
Proof. reflexivity. Qed.
Lemma set_memory_twice v w rt : set_memory v (set_memory w rt) = set_memory v rt.
Proof. reflexivity. Qed.
Lemma set_heap_top_twice v w rt : set_heap_top v (set_heap_top w rt) = set_heap_top v rt.
Proof. reflexivity. Qed.
Lemma set_events_twice v w rt : set_events v (set_events w rt) = set_events v rt.
Proof. reflexivity. Qed.

Hint Rewrite
  set_caf_is_finalized_twice
  set_img_status_twice
  set_arrived_twice
  set_image_stati_twice
  set_no_stopped_images_check_twice
  set_caf_allocated_tokens_twice
  set_caf_allocated_slave_tokens_twice
  set_memory_twice
  set_heap_top_twice
  set_events_twice
  : rt.

Create Rewrite HintDb rt_events.

Hint Rewrite
  events_set_caf_is_finalized
  events_set_img_status
  events_set_arrived
  events_set_image_stati
  events_set_no_stopped_images_check
  events_set_caf_allocated_tokens
  events_set_caf_allocated_slave_tokens
  events_set_memory
  events_set_heap_top
  events_set_events
  set_events_twice
  : rt_events.

Hint Rewrite
  caf_this_image_set_caf_this_image
  caf_num_images_set_caf_this_image
  caf_is_finalized_set_caf_this_image
  caf_owns_mpi_set_caf_this_image
  img_status_set_caf_this_image
  images_full_set_caf_this_image
  arrived_set_caf_this_image
  image_stati_set_caf_this_image
  no_stopped_images_check_in_errhandler_set_caf_this_image
  caf_allocated_tokens_set_caf_this_image
  caf_allocated_slave_tokens_set_caf_this_image
  memory_set_caf_this_image
  heap_top_set_caf_this_image
  events_set_caf_this_image
  caf_this_image_set_caf_num_images
  caf_num_images_set_caf_num_images
  caf_is_finalized_set_caf_num_images
  caf_owns_mpi_set_caf_num_images
  img_status_set_caf_num_images
  images_full_set_caf_num_images
  arrived_set_caf_num_images
  image_stati_set_caf_num_images
  no_stopped_images_check_in_errhandler_set_caf_num_images
  caf_allocated_tokens_set_caf_num_images
  caf_allocated_slave_tokens_set_caf_num_images
  memory_set_caf_num_images
  heap_top_set_caf_num_images
  events_set_caf_num_images
  caf_this_image_set_caf_owns_mpi
  caf_num_images_set_caf_owns_mpi
  caf_is_finalized_set_caf_owns_mpi
  caf_owns_mpi_set_caf_owns_mpi
  img_status_set_caf_owns_mpi
  images_full_set_caf_owns_mpi
  arrived_set_caf_owns_mpi
  image_stati_set_caf_owns_mpi
  no_stopped_images_check_in_errhandler_set_caf_owns_mpi
  caf_allocated_tokens_set_caf_owns_mpi
  caf_allocated_slave_tokens_set_caf_owns_mpi
  memory_set_caf_owns_mpi
  heap_top_set_caf_owns_mpi
  events_set_caf_owns_mpi
  caf_this_image_set_images_full
  caf_num_images_set_images_full
  caf_is_finalized_set_images_full
  caf_owns_mpi_set_images_full
  img_status_set_images_full
  images_full_set_images_full
  arrived_set_images_full
  image_stati_set_images_full
  no_stopped_images_check_in_errhandler_set_images_full
  caf_allocated_tokens_set_images_full
  caf_allocated_slave_tokens_set_images_full
  memory_set_images_full
  heap_top_set_images_full
  events_set_images_full
  : rt.

Hint Rewrite
  events_set_caf_this_image
  events_set_caf_num_images
  events_set_caf_owns_mpi
  events_set_images_full
  : rt_events.

(** *** Running the monad *)

Lemma bind_Returns {A B} (m : M A) (k : A -> M B) rt a rt' :
  m rt = Returns a rt' -> bind m k rt = k a rt'.
Proof. intros H. unfold bind. rewrite H. reflexivity. Qed.

Lemma emit_run (e : event) (rt : runtime) :
  emit e rt = Returns tt (set_events (events rt ++ [e]) rt).
Proof. reflexivity. Qed.

Lemma for_each_emit {A} (f : A -> event) (l : list A) rt :
  for_each l (fun x => emit (f x)) rt
  = Returns tt (set_events (events rt ++ map f l) rt).
Proof.
  revert rt. induction l as [|x l IH]; intros rt; simpl.
  - unfold ret. rewrite app_nil_r. destruct rt; reflexivity.
  - unfold bind at 1. unfold emit at 1, modify. rewrite IH.
    rewrite events_set_events, <- app_assoc. reflexivity.
Qed.

(** One run of straight-line code: binds are opened and the events are
    appended to the log. *)
Ltac run :=
  unfold bind, ret, get_rt, modify, exit, mpi_fatal, this_rank, local_memory;
  cbn beta iota;
  repeat (progress (first [rewrite emit_run | rewrite for_each_emit];
                    cbn beta iota; autorewrite with rt_events));
  autorewrite with rt.

(** What a call leaves alone. *)
Definition same_image (rt rt' : runtime) : Prop :=
  caf_this_image rt' = caf_this_image rt
  /\ caf_num_images rt' = caf_num_images rt
  /\ images_full rt' = images_full rt
  /\ memory rt' = memory rt
  /\ heap_top rt' = heap_top rt.

(** The status word as [finalize_internal] sets it. *)
Definition status_word (status_code : Z) : Z :=
  if status_code =? 0 then STAT_STOPPED_IMAGE else status_code.

Lemma finalize_internal_returns (status_code : Z) (rt : runtime) :
  exists rt',
    finalize_internal status_code rt = Returns tt rt'
    /\ same_image rt rt'
    /\ img_status rt' = status_word status_code
    /\ (exists before after,
          events rt' =
            events rt ++ before
            ++ map (fun i => Send (status_word status_code)
                               (nth i (images_full rt) 0 - 1)
                               MPI_TAG_CAF_SYNC_IMAGES)
                 (seq 0 (Z.to_nat (caf_num_images rt - 1)))
            ++ after)
    /\ (status_code <> 0 -> caf_is_finalized rt' = caf_is_finalized rt).
Proof.
  unfold finalize_internal, status_word, announce_status, teardown,
    CAF_Win_unlock.
  destruct (WITH_FAILED_IMAGES cfg); destruct (status_code =? 0) eqn:E; run;
    try (destruct (caf_owns_mpi rt); run);
    (eexists; split; [reflexivity|]);
    unfold same_image; autorewrite with rt;
    (split; [repeat split|]); (split; [reflexivity|]);
    (split; [| first [ intros _; reflexivity
                     | intros H; apply Z.eqb_eq in E; contradiction ]]);
    repeat rewrite <- app_assoc; simpl;
    first [ eexists [_; _]; eexists; simpl; reflexivity
          | eexists [_]; eexists; simpl; reflexivity
          | eexists [_]; exists []; simpl; rewrite app_nil_r; reflexivity ].
Qed.

Lemma status_word_stopped : status_word STAT_STOPPED_IMAGE = STAT_STOPPED_IMAGE.
Proof.
  unfold status_word. destruct (STAT_STOPPED_IMAGE =? 0); reflexivity.
Qed.

Lemma terminate_internal_exits {A} (stat_code exit_code : Z) (rt : runtime) :
  exists rt',
    @terminate_internal A stat_code exit_code rt = Exits exit_code rt'
    /\ same_image rt rt'
    /\ img_status rt' = status_word stat_code
    /\ (exists before after,
          events rt' =
            events rt ++ before
            ++ map (fun i => Send (status_word stat_code)
                               (nth i (images_full rt) 0 - 1)
                               MPI_TAG_CAF_SYNC_IMAGES)
                 (seq 0 (Z.to_nat (caf_num_images rt - 1)))
            ++ after).
Proof.
  destruct (finalize_internal_returns stat_code rt)
    as (rt1 & Hrun & Hsame & Hst & (before & after & Hev) & _).
  unfold terminate_internal.
  rewrite (bind_Returns _ _ _ _ _ Hrun).
  destruct (WITH_FAILED_IMAGES cfg); unfold bind, ret, emit, modify, exit; simpl.
  - exists rt1. repeat split; try apply Hsame; auto.
    exists before, after. exact Hev.
  - eexists. split; [reflexivity|]. simpl. repeat split; try apply Hsame; auto.
    exists before, (after ++ [MPI_Abort exit_code]).
    rewrite Hev. repeat rewrite <- app_assoc. reflexivity.
Qed.

(** An image that went through [PREFIX (init)]: its index is one of
    [1..caf_num_images] and [images_full] is the table [init] filled. *)
Definition initialised (rt : runtime) : Prop :=
  1 <= caf_this_image rt <= caf_num_images rt
  /\ images_full rt = init_images_full (caf_this_image rt) (caf_num_images rt).

Lemma init_images_full_In (this_image num_images p : Z) :
  In p (init_images_full this_image num_images)
  <-> 1 <= p <= num_images /\ p <> this_image.
Proof.
  unfold init_images_full. rewrite filter_In, in_map_iff. split.
  - intros [(k & Hk & Hin) Hne]. apply in_seq in Hin.
    apply negb_true_iff, Z.eqb_neq in Hne. lia.
  - intros [Hp Hne]. split.
    + exists (Z.to_nat p). split; [lia|]. apply in_seq. lia.
    + apply negb_true_iff, Z.eqb_neq. exact Hne.
Qed.

Lemma init_images_full_length_nat (this_image : Z) (n : nat) :
  List.length (filter (fun i => negb (i =? this_image))
                 (map Z.of_nat (seq 1 n)))
  = if (1 <=? this_image) && (this_image <=? Z.of_nat n)
    then pred n else n.
Proof.
  induction n as [|n IH].
  - simpl. destruct (1 <=? this_image) eqn:E1; simpl; [|reflexivity].
    destruct (this_image <=? 0) eqn:E2; [|reflexivity].
    apply Z.leb_le in E1, E2. lia.
  - rewrite seq_S, map_app, filter_app, length_app, IH.
    cbn [map filter plus].
    destruct (1 <=? this_image) eqn:E1;
      destruct (this_image <=? Z.of_nat n) eqn:E2;
      destruct (this_image <=? Z.of_nat (S n)) eqn:E3;
      destruct (Z.of_nat (S n) =? this_image) eqn:E4;
      cbn [andb negb List.length];
      repeat match goal with
        | H : (_ <=? _) = true |- _ => apply Z.leb_le in H
        | H : (_ <=? _) = false |- _ => apply Z.leb_gt in H
        | H : (_ =? _) = true |- _ => apply Z.eqb_eq in H
        | H : (_ =? _) = false |- _ => apply Z.eqb_neq in H
        end; lia.
Qed.

Lemma init_images_full_length (this_image num_images : Z) :
  1 <= this_image <= num_images ->
  List.length (init_images_full this_image num_images)
  = Z.to_nat (num_images - 1).
Proof.
  intros H. unfold init_images_full. rewrite init_images_full_length_nat.
  replace (Z.of_nat (Z.to_nat num_images)) with num_images by lia.
  destruct (1 <=? this_image) eqn:E1; [| apply Z.leb_gt in E1; lia].
  destruct (this_image <=? num_images) eqn:E2; [| apply Z.leb_gt in E2; lia].
  simpl. lia.
Qed.

(** Every other image is one of the first [caf_num_images - 1] entries of
    the table of an initialised image. *)
Lemma initialised_peer_index (rt : runtime) (p : Z) :
  initialised rt ->
  1 <= p <= caf_num_images rt -> p <> caf_this_image rt ->
  exists i, (i < Z.to_nat (caf_num_images rt - 1))%nat
            /\ nth i (images_full rt) 0 = p.
Proof.
  intros [Hthis Hfull] Hp Hne.
  assert (Hin : In p (images_full rt)).
  { rewrite Hfull. apply init_images_full_In. auto. }
  destruct (In_nth _ _ 0 Hin) as (i & Hi & Hnth).
  exists i. split; [|exact Hnth].
  rewrite Hfull, init_images_full_length in Hi by exact Hthis. exact Hi.
Qed.

(** *** Termination (C8) *)

Lemma terminate_stopped_announces {A} (exit_code : Z) (rt rt0 : runtime) :
  initialised rt ->
  same_image rt rt0 ->
  (exists l, events rt0 = events rt ++ l) ->
  exists rt',
    @terminate_internal A STAT_STOPPED_IMAGE exit_code rt0 = Exits exit_code rt'
    /\ img_status rt' = STAT_STOPPED_IMAGE
    /\ (forall p, 1 <= p <= caf_num_images rt -> p <> caf_this_image rt ->
          In (Send STAT_STOPPED_IMAGE (p - 1) MPI_TAG_CAF_SYNC_IMAGES)
            (events rt')).
Proof.
  intros Hinit (Hthis & Hnum & Hfull & _) _.
  destruct (terminate_internal_exits (A:=A) STAT_STOPPED_IMAGE exit_code rt0)
    as (rt' & Hrun & _ & Hst & (before & after & Hev)).
  rewrite status_word_stopped in *.
  exists rt'. split; [exact Hrun|]. split; [exact Hst|].
  intros p Hp Hne.
  destruct (initialised_peer_index rt p Hinit Hp Hne) as (i & Hi & Hnth).
  rewrite Hev, Hnum, Hfull. apply in_or_app. right. apply in_or_app. right.
  apply in_or_app. left. apply in_map_iff. exists i. split.
  - rewrite Hnth. reflexivity.
  - apply in_seq. lia.
Qed.

(** *** C integers within range *)

Lemma signed_small (w z : Z) :
  0 < w -> - 2 ^ (w - 1) <= z < 2 ^ (w - 1) -> CInt.signed w z = z.
Proof.
  intros Hw Hz. unfold CInt.signed.
  assert (E : 2 ^ w = 2 * 2 ^ (w - 1)).
  { replace w with (Z.succ (w - 1)) at 1 by lia. apply Z.pow_succ_r. lia. }
  rewrite Z.mod_small by lia. lia.
Qed.

Lemma to_int_small (z : Z) : - 2 ^ 31 <= z < 2 ^ 31 -> to_int z = z.
Proof. intros H. apply signed_small; [lia | exact H]. Qed.

Lemma to_ptrdiff_t_small (z : Z) : - 2 ^ 63 <= z < 2 ^ 63 -> to_ptrdiff_t z = z.
Proof. intros H. apply signed_small; [lia | exact H]. Qed.

Lemma to_size_t_small (z : Z) : 0 <= z < 2 ^ 64 -> to_size_t z = z.
Proof. intros H. apply Z.mod_small. exact H. Qed.

(** *** Error messages *)

(** A message cut or padded with spaces to exactly [n] characters. *)
Definition padded (msg : string) (n : Z) : list ascii :=
  firstn (Z.to_nat n) (Buf.chars msg ++ repeat Buf.space (Z.to_nat n)).

Lemma chars_length (msg : string) :
  List.length (Buf.chars msg) = String.length msg.
Proof.
  unfold Buf.chars. induction msg as [|c msg IH]; simpl; [reflexivity|].
  rewrite IH. reflexivity.
Qed.

Lemma padded_length (msg : string) (n : Z) :
  List.length (padded msg n) = Z.to_nat n.
Proof.
  unfold padded. rewrite length_firstn, length_app, repeat_length. lia.
Qed.

Lemma padded_short (msg : string) (n : Z) :
  (String.length msg <= Z.to_nat n)%nat ->
  padded msg n
  = Buf.chars msg ++ repeat Buf.space (Z.to_nat n - String.length msg).
Proof.
  intros H. unfold padded.
  rewrite firstn_app, chars_length.
  rewrite firstn_all2 by (rewrite chars_length; exact H).
  f_equal.
  set (k := (Z.to_nat n - String.length msg)%nat).
  replace (Z.to_nat n) with (k + (Z.to_nat n - k))%nat at 1 by lia.
  rewrite repeat_app, firstn_app, repeat_length.
  rewrite firstn_all2 by (rewrite repeat_length; lia).
  replace (k - k)%nat with 0%nat by lia. simpl. apply app_nil_r.
Qed.

Lemma padded_long (msg : string) (n : Z) :
  (Z.to_nat n <= String.length msg)%nat ->
  padded msg n = firstn (Z.to_nat n) (Buf.chars msg).
Proof.
  intros H. unfold padded. rewrite firstn_app, chars_length.
  replace (Z.to_nat n - String.length msg)%nat with 0%nat by lia.
  simpl. apply app_nil_r.
Qed.

Lemma write_errmsg_padded (msg : string) (errmsg : list ascii) (errmsg_len : Z) :
  0 <= errmsg_len ->
  List.length errmsg = Z.to_nat errmsg_len ->
  Buf.strlen msg < 2 ^ 31 ->
  write_errmsg msg errmsg errmsg_len = padded msg errmsg_len.
Proof.
  intros Hlen Hbuf Hmsg. unfold write_errmsg.
  assert (Hs : to_int (Buf.strlen msg) = Buf.strlen msg).
  { apply to_int_small. unfold Buf.strlen in *. lia. }
  rewrite Hs. unfold Buf.strlen in *.
  destruct (errmsg_len >? 0) eqn:E0.
  2:{ rewrite Z.gtb_ltb in E0; apply Z.ltb_ge in E0.
      assert (errmsg_len = 0) by lia. subst errmsg_len.
      destruct errmsg; [reflexivity | discriminate]. }
  apply Z.gtb_lt in E0.
  destruct (Z.of_nat (String.length msg) >? errmsg_len) eqn:E1.
  - apply Z.gtb_lt in E1.
    rewrite Z.gtb_ltb, Z.ltb_irrefl.
    rewrite padded_long by lia.
    unfold Buf.memcpy. simpl.
    rewrite skipn_all2 by lia. apply app_nil_r.
  - rewrite Z.gtb_ltb in E1; apply Z.ltb_ge in E1.
    rewrite padded_short by lia.
    unfold Buf.memcpy, Buf.memset. simpl.
    rewrite Nat2Z.id.
    rewrite (firstn_all2 (Buf.chars msg)) by (rewrite chars_length; lia).
    rewrite (skipn_all2 (n:=String.length msg + _))
      by (rewrite length_app, length_skipn, chars_length; lia).
    destruct (errmsg_len >? Z.of_nat (String.length msg)) eqn:E2.
    + rewrite firstn_app, chars_length.
      rewrite firstn_all2 by (rewrite chars_length; lia).
      replace (String.length msg - String.length msg)%nat with 0%nat by lia.
      simpl. rewrite app_nil_r.
      replace (Z.to_nat (errmsg_len - Z.of_nat (String.length msg)))
        with (Z.to_nat errmsg_len - String.length msg)%nat by lia.
      rewrite ?app_nil_r. reflexivity.
    + rewrite Z.gtb_ltb in E2; apply Z.ltb_ge in E2.
      replace (Z.to_nat errmsg_len - String.length msg)%nat with 0%nat by lia.
      simpl. rewrite app_nil_r.
      rewrite skipn_all2 by lia. rewrite app_nil_r. reflexivity.
Qed.

(** *** Registration failure (C7) *)

(** A call that, if it returns, returns a result with a given property;
    and a call that does not end in [exit]. *)
Definition returns_only {A} (P : A -> Prop) (m : M A) : Prop :=
  forall rt a rt', m rt = Returns a rt' -> P a.

Definition never_exits {A} (m : M A) : Prop :=
  forall rt code rt', m rt <> Exits code rt'.

Lemma returns_only_bind {A B} (P : B -> Prop) (m : M A) (k : A -> M B) :
  (forall a, returns_only P (k a)) -> returns_only P (bind m k).
Proof.
  intros Hk rt b rt'. unfold bind.
  destruct (m rt) as [a rt1|c rt1|rt1|rt1]; intros H; try discriminate H.
  exact (Hk a rt1 b rt' H).
Qed.

Lemma returns_only_ret {A} (P : A -> Prop) (a : A) :
  P a -> returns_only P (ret a).
Proof. intros H rt a' rt' E. injection E as <- _. exact H. Qed.

Lemma never_exits_bind {A B} (m : M A) (k : A -> M B) :
  never_exits m -> (forall a, never_exits (k a)) -> never_exits (bind m k).
Proof.
  intros Hm Hk rt code rt'. unfold bind.
  destruct (m rt) as [a rt1|c rt1|rt1|rt1] eqn:E; try discriminate.
  - apply Hk.
  - exfalso. exact (Hm rt c rt1 E).
Qed.

Lemma never_exits_ret {A} (a : A) : never_exits (ret a).
Proof. intros rt code rt'. discriminate. Qed.

Lemma never_exits_get_rt : never_exits get_rt.
Proof. intros rt code rt'. discriminate. Qed.

Lemma never_exits_modify (f : runtime -> runtime) : never_exits (modify f).
Proof. intros rt code rt'. discriminate. Qed.

Lemma never_exits_emit (e : event) : never_exits (emit e).
Proof. intros rt code rt'. discriminate. Qed.

Lemma never_exits_mpi_fatal {A} : never_exits (@mpi_fatal A).
Proof. intros rt code rt'. discriminate. Qed.

Lemma never_exits_if {A} (b : bool) (m1 m2 : M A) :
  never_exits m1 -> never_exits m2 -> never_exits (if b then m1 else m2).
Proof. destruct b; auto. Qed.

(** Straight-line code built from the calls above does not end in
    [exit]. *)
Ltac solve_never_exits :=
  repeat first
    [ apply never_exits_ret | apply never_exits_get_rt
    | apply never_exits_modify | apply never_exits_emit
    | apply never_exits_mpi_fatal
    | apply never_exits_if
    | apply never_exits_bind; [|intros ?] ].

Lemma init_never_exits : never_exits init.
Proof. unfold init. solve_never_exits. Qed.

Lemma rma_put_never_exits (origin : list Z) (origin_count target_rank
    target_disp target_count : Z) (win : MPI_Win) :
  never_exits (rma_put origin origin_count target_rank target_disp
                 target_count win).
Proof. unfold rma_put. solve_never_exits. Qed.

(** What [register] leaves in [stat] when it does not take its failure
    exit: 0 for an object that gets a window of its own; for the two
    kinds that attach memory to the dynamic window [stat] is not
    written. *)
Definition registered_stat (type : caf_register_t) (stat : option Z)
  : option Z :=
  match type with
  | CAF_REGTYPE_COARRAY_ALLOC_REGISTER_ONLY
  | CAF_REGTYPE_COARRAY_ALLOC_ALLOCATE_ONLY => stat
  | _ => option_map (fun _ => 0) stat
  end.

(** [register] on a runtime that has not been finalized never reaches the
    label [error:]: if it returns, [stat] is as [registered_stat] says and
    [errmsg] is as it was, and it does not end in a runtime error. *)
Lemma register_running (size : Z) (type : caf_register_t) (token : option Z)
    (desc : gfc_descriptor_t) (stat : option Z) (errmsg : list ascii)
    (errmsg_len : Z) (rt : runtime) :
  caf_is_finalized rt = 0 ->
  (forall r rt',
      register size type token desc stat errmsg errmsg_len rt = Returns r rt' ->
      reg_stat r = registered_stat type stat /\ reg_errmsg r = errmsg)
  /\ (forall code rt',
         register size type token desc stat errmsg errmsg_len rt
         <> Exits code rt').
Proof.
  intros Hfin. split.
  - intros r rt'. unfold register. unfold bind at 1, get_rt at 1.
    cbn beta iota. rewrite Hfin. cbn [Z.eqb negb]. cbv zeta.
    apply (returns_only_bind
             (fun r => reg_stat r = registered_stat type stat
                       /\ reg_errmsg r = errmsg)).
    intros _. unfold malloc.
    destruct type;
      repeat (apply returns_only_bind; intros ?);
      apply returns_only_ret; cbn [reg_stat reg_errmsg registered_stat];
      (split; [destruct stat; reflexivity | reflexivity]).
  - intros code rt'. unfold register. unfold bind at 1, get_rt at 1.
    cbn beta iota. rewrite Hfin. cbn [Z.eqb negb]. cbv zeta.
    refine (never_exits_bind _ _ _ _ rt code rt').
    + apply never_exits_if; [apply init_never_exits | apply never_exits_ret].
    + intros _. unfold malloc, CAF_Win_unlock.
      destruct type; solve_never_exits; apply rma_put_never_exits.
Qed.

(** C7, as amended.  [register] takes its failure exit, the block after
    [error:], when and only when the runtime has been finalized.  On a
    finalized runtime it puts the stopped-image code into [stat] and
    leaves in the [errmsg_len] characters of [errmsg] the message followed
    by spaces; without a [stat] it ends the image with a runtime error.
    On a runtime that has not been finalized no failure of the allocation
    is detected: a call that returns leaves [stat] 0, or unwritten for the
    two kinds that attach to the dynamic window, and does not write
    [errmsg], and no call ends in a runtime error; the code 1 of the block
    is never handed out. *)
Theorem register_failure_reports :
  forall (size : Z) (type : caf_register_t) (token : option Z)
         (desc : gfc_descriptor_t) (stat : option Z) (errmsg : list ascii)
         (errmsg_len : Z) (rt : runtime),
    0 <= errmsg_len ->
    List.length errmsg = Z.to_nat errmsg_len ->
    (caf_is_finalized rt <> 0 ->
     match stat with
     | Some _ =>
         exists r,
           register size type token desc stat errmsg errmsg_len rt
           = Returns r rt
           /\ reg_stat r = Some STAT_STOPPED_IMAGE
           /\ reg_errmsg r
              = padded "Failed to allocate coarray - there are stopped images"
                  errmsg_len
     | None =>
         exists rt',
           register size type token desc stat errmsg errmsg_len rt
           = Exits EXIT_FAILURE rt'
           /\ events rt'
              = events rt
                ++ [Stderr_runtime_error (caf_this_image rt)
                      "Failed to allocate coarray - there are stopped images"]
     end)
    /\ (caf_is_finalized rt = 0 ->
        (forall r rt',
            register size type token desc stat errmsg errmsg_len rt
            = Returns r rt' ->
            reg_stat r = registered_stat type stat /\ reg_errmsg r = errmsg)
        /\ (forall code rt',
               register size type token desc stat errmsg errmsg_len rt
               <> Exits code rt')).
Proof.
  intros size type token desc stat errmsg errmsg_len rt Hlen Hbuf. split.
  - intros Hfin. apply Z.eqb_neq in Hfin.
    unfold register, register_error, caf_runtime_error.
    unfold bind at 1, get_rt at 1. cbn beta iota. rewrite Hfin. cbn [negb].
    destruct stat as [s|]; run; rewrite ?Hfin; cbn [negb].
    + eexists. split; [reflexivity|]. cbn [reg_stat reg_errmsg].
      split; [reflexivity|].
      apply write_errmsg_padded; auto; vm_compute; reflexivity.
    + eexists. split; [reflexivity|]. autorewrite with rt.
      rewrite Hfin. reflexivity.
  - intros Hfin.
    exact (register_running size type token desc stat errmsg errmsg_len rt
             Hfin).
Qed.

(** *** Locks (C6) *)

Lemma blank_and_copy_padded (msg : string) (buf : list ascii) (errmsg_len : Z) :
  0 <= errmsg_len < 2 ^ 64 ->
  List.length buf = Z.to_nat errmsg_len ->
  blank_and_copy msg buf errmsg_len = padded msg errmsg_len.
Proof.
  intros Hlen Hbuf. unfold blank_and_copy, MIN_len.
  rewrite to_size_t_small by exact Hlen.
  unfold Buf.memset, Buf.memcpy, Buf.strlen. simpl.
  rewrite (skipn_all2 (n:=Z.to_nat errmsg_len)) by lia. rewrite app_nil_r.
  destruct (errmsg_len <? Z.of_nat (String.length msg)) eqn:E.
  - apply Z.ltb_lt in E. rewrite padded_long by lia.
    rewrite skipn_all2 by (rewrite repeat_length; lia).
    apply app_nil_r.
  - apply Z.ltb_ge in E. rewrite padded_short by lia.
    rewrite Nat2Z.id.
    rewrite firstn_all2 by (rewrite chars_length; lia).
    f_equal.
    replace (Z.to_nat errmsg_len)
      with (String.length msg + (Z.to_nat errmsg_len - String.length msg))%nat
      at 1 by lia.
    rewrite repeat_app, skipn_app, repeat_length.
    rewrite skipn_all2 by (rewrite repeat_length; lia).
    replace (String.length msg - String.length msg)%nat with 0%nat by lia.
    reflexivity.
Qed.

(** A compare-and-swap that finds another value than the one compared
    with leaves the memory as it is. *)
Lemma locking_atomic_op_held (win : MPI_Win) (newval compare image_index
    index : Z) (rt : runtime) :
  valid_rank rt (image_index - 1) = true ->
  Mem.load_int (memory rt (image_index - 1))
    (win_base win (image_index - 1) + to_size_t (index * sizeof_int))
  <> compare ->
  locking_atomic_op win newval compare image_index index rt
  = Returns
      (Mem.load_int (memory rt (image_index - 1))
         (win_base win (image_index - 1) + to_size_t (index * sizeof_int)))
      (set_events
         (events rt
          ++ [Compare_and_swap (image_index - 1)
                (to_size_t (index * sizeof_int)) (win_id win);
              Win_flush (image_index - 1) (win_id win)]) rt).
Proof.
  intros Hrank Hne.
  unfold locking_atomic_op, MPI_Compare_and_swap, CAF_Win_unlock.
  unfold bind at 1 2. unfold get_rt at 1. cbn beta iota.
  rewrite Hrank. cbn [negb].
  apply Z.eqb_neq in Hne. rewrite Hne. run.
  rewrite <- app_assoc. reflexivity.
Qed.

(** C6.  A [lock] call on a slot of the calling image that already holds
    the index of the calling image reports [stat = 99] and leaves the
    message "Already locked", followed by spaces, in the [errmsg_len]
    characters of [errmsg]; without a [stat] the image is terminated (exit
    code 1).  The lock word is not changed. *)
Theorem lock_self_deadlock_reported :
  forall (fuel : nat) (token : MPI_Win) (index image_index : Z)
         (acquired_lock stat : option Z) (errmsg : option (list ascii))
         (errmsg_len : Z) (rt : runtime),
    image_index = 0 \/ image_index = caf_this_image rt ->
    1 <= caf_this_image rt <= caf_num_images rt ->
    0 <= index < 2 ^ 29 ->
    Mem.load_int (local_memory rt)
      (win_base token (this_rank rt) + index * sizeof_int)
    = caf_this_image rt ->
    0 <= errmsg_len < 2 ^ 31 ->
    (forall buf, errmsg = Some buf -> List.length buf = Z.to_nat errmsg_len) ->
    match stat with
    | Some _ =>
        exists rt',
          lock fuel token index image_index acquired_lock stat errmsg
            errmsg_len rt
          = Returns
              (mkLocked (Some 99) acquired_lock
                 (option_map (fun _ => padded "Already locked" errmsg_len)
                    errmsg)) rt'
          /\ memory rt' = memory rt
    | None =>
        exists rt',
          lock fuel token index image_index acquired_lock stat errmsg
            errmsg_len rt
          = Exits 1 rt'
          /\ memory rt' = memory rt
    end.
Proof.
  intros fuel token index image_index acquired_lock stat errmsg errmsg_len rt
    Himg Hthis Hindex Hheld Hlen Hbuf.
  unfold local_memory, this_rank in Hheld.
  assert (Hdest : (if image_index =? 0 then caf_this_image rt else image_index)
                  = caf_this_image rt).
  { destruct Himg as [-> | ->]; [reflexivity|].
    destruct (caf_this_image rt =? 0); reflexivity. }
  assert (Hint : to_int index = index).
  { apply to_int_small. lia. }
  assert (Hdisp : to_size_t (index * sizeof_int) = index * sizeof_int).
  { apply to_size_t_small. unfold sizeof_int. lia. }
  set (rt1 := if WITH_FAILED_IMAGES cfg
              then set_events (events rt ++ [Test_alive]) rt else rt).
  assert (Hpre : (if WITH_FAILED_IMAGES cfg then emit Test_alive else ret tt) rt
                 = Returns tt rt1).
  { unfold rt1. destruct (WITH_FAILED_IMAGES cfg); reflexivity. }
  assert (Hmem : memory rt1 = memory rt).
  { unfold rt1. destruct (WITH_FAILED_IMAGES cfg); reflexivity. }
  assert (Hme : caf_this_image rt1 = caf_this_image rt).
  { unfold rt1. destruct (WITH_FAILED_IMAGES cfg); reflexivity. }
  assert (Hn : caf_num_images rt1 = caf_num_images rt).
  { unfold rt1. destruct (WITH_FAILED_IMAGES cfg); reflexivity. }
  assert (Hop :
    locking_atomic_op token (caf_this_image rt) 0 (caf_this_image rt) index rt1
    = Returns (caf_this_image rt)
        (set_events
           (events rt1
            ++ [Compare_and_swap (caf_this_image rt - 1)
                  (to_size_t (index * sizeof_int)) (win_id token);
                Win_flush (caf_this_image rt - 1) (win_id token)]) rt1)).
  { rewrite locking_atomic_op_held.
    - rewrite Hmem, Hdisp, Hheld. reflexivity.
    - unfold valid_rank. rewrite Hn.
      apply andb_true_iff. split; [apply Z.leb_le | apply Z.ltb_lt]; lia.
    - rewrite Hmem, Hdisp, Hheld. lia. }
  assert (Hmsg : match errmsg with
                 | Some buf => Some (blank_and_copy "Already locked" buf errmsg_len)
                 | None => None
                 end
                 = option_map (fun _ => padded "Already locked" errmsg_len) errmsg).
  { destruct errmsg as [buf|]; [|reflexivity]. simpl. f_equal.
    apply blank_and_copy_padded; [lia | apply Hbuf; reflexivity]. }
  destruct stat as [s|].
  all: unfold lock; unfold bind at 1; unfold get_rt at 1; cbn beta iota;
    rewrite Hdest, Hint; unfold mutex_lock;
    rewrite (bind_Returns _ _ _ _ _ Hpre);
    unfold bind at 1; unfold get_rt at 1; cbn beta iota;
    rewrite Hme, (bind_Returns _ _ _ _ _ Hop);
    rewrite Z.eqb_refl; cbn [andb]; rewrite ?Hmsg.
  - eexists. split; [reflexivity|]. autorewrite with rt. exact Hmem.
  - match goal with
    | |- exists rt', terminate_internal 99 1 ?r = _ /\ _ =>
        destruct (terminate_internal_exits (A:=locked) 99 1 r)
          as (rt' & Hrun & (_ & _ & _ & Hm & _) & _)
    end.
    exists rt'. split; [exact Hrun|].
    rewrite Hm. autorewrite with rt. exact Hmem.
Qed.

(** *** Subset synchronisation (C5, C10) *)

(** The log of [rt'] continues the log of [rt]. *)
Definition extends (rt rt' : runtime) : Prop :=
  exists l, events rt' = events rt ++ l.

Lemma extends_refl (rt : runtime) : extends rt rt.
Proof. exists []. symmetry. apply app_nil_r. Qed.

Lemma extends_trans (rt1 rt2 rt3 : runtime) :
  extends rt1 rt2 -> extends rt2 rt3 -> extends rt1 rt3.
Proof.
  intros [l1 H1] [l2 H2]. exists (l1 ++ l2).
  rewrite H2, H1. symmetry. apply app_assoc.
Qed.

Lemma extends_In (rt rt' : runtime) (e : event) :
  extends rt rt' -> In e (events rt) -> In e (events rt').
Proof. intros [l H] Hin. rewrite H. apply in_or_app. left. exact Hin. Qed.

Lemma terminate_internal_extends {A} (stat_code exit_code : Z) (rt : runtime) :
  extends rt (final_state (@terminate_internal A stat_code exit_code rt)).
Proof.
  destruct (terminate_internal_exits (A:=A) stat_code exit_code rt)
    as (rt' & Hrun & _ & _ & (before & after & Hev)).
  rewrite Hrun. simpl. eexists. exact Hev.
Qed.

Lemma caf_runtime_error_extends {A} (message : string) (rt : runtime) :
  extends rt (final_state (@caf_runtime_error A message rt)).
Proof. unfold caf_runtime_error. run. simpl. eexists. autorewrite with rt. reflexivity. Qed.

Lemma sync_wait_extends (pending : list Z) (rt : runtime) :
  extends rt (final_state (sync_wait pending rt)).
Proof.
  revert rt. induction pending as [|image pending IH]; intros rt.
  - apply extends_refl.
  - cbn [sync_wait]. unfold bind at 1. rewrite emit_run. cbn beta iota.
    set (rt1 := set_events (events rt ++ [Waitany]) rt).
    assert (H1 : extends rt rt1).
    { exists [Waitany]. reflexivity. }
    destruct (sync_peer (image - 1)) as [value | ierr | ierr |].
    + unfold bind at 1, modify at 1. cbn beta iota.
      destruct (value =? STAT_STOPPED_IMAGE).
      * simpl. eapply extends_trans; [exact H1|].
        exists []. autorewrite with rt. symmetry. apply app_nil_r.
      * eapply extends_trans; [exact H1|].
        eapply extends_trans; [|apply IH].
        exists []. autorewrite with rt. symmetry. apply app_nil_r.
    + destruct (WITH_FAILED_IMAGES cfg); run; simpl.
      * eapply extends_trans; [exact H1|].
        eexists. autorewrite with rt. reflexivity.
      * exact H1.
    + exact H1.
    + exact H1.
Qed.

Lemma sync_images_err_chk_extends (ierr : Z) (stat : option Z)
    (errmsg : list ascii) (errmsg_len : Z) (internal : bool) (rt : runtime) :
  extends rt
    (final_state (sync_images_err_chk ierr stat errmsg errmsg_len internal rt)).
Proof.
  unfold sync_images_err_chk.
  set (rt1 := if WITH_FAILED_IMAGES cfg
              then set_no_stopped_images_check false rt else rt).
  assert (Hpre : (if WITH_FAILED_IMAGES cfg
                  then modify (set_no_stopped_images_check false) else ret tt) rt
                 = Returns tt rt1).
  { unfold rt1. destruct (WITH_FAILED_IMAGES cfg); reflexivity. }
  assert (H1 : extends rt rt1).
  { unfold rt1. destruct (WITH_FAILED_IMAGES cfg);
      exists []; autorewrite with rt; symmetry; apply app_nil_r. }
  rewrite (bind_Returns _ _ _ _ _ Hpre).
  eapply extends_trans; [exact H1|].
  destruct stat as [s|].
  - unfold bind at 1, ret at 1. cbn beta iota.
    destruct (negb (ierr =? 0) && negb (ierr =? STAT_FAILED_IMAGE)).
    + unfold bind at 1, get_rt at 1. cbn beta iota.
      destruct (errmsg_len >? 0); [apply extends_refl|].
      rewrite andb_false_r. apply extends_refl.
    + apply extends_refl.
  - destruct (WITH_FAILED_IMAGES cfg && (ierr =? STAT_FAILED_IMAGE)).
    + unfold bind at 1.
      destruct (terminate_internal_exits (A:=option Z) ierr 0 rt1)
        as (rt' & Hrun & _ & _ & (before & after & Hev)).
      rewrite Hrun. simpl. eexists. exact Hev.
    + unfold bind at 1, ret at 1. cbn beta iota.
      destruct (negb (ierr =? 0) && negb (ierr =? STAT_FAILED_IMAGE)).
      * unfold bind at 1, get_rt at 1. cbn beta iota.
        destruct (errmsg_len >? 0); [apply extends_refl|].
        destruct internal; cbn [negb andb].
        -- apply extends_refl.
        -- apply caf_runtime_error_extends.
      * apply extends_refl.
Qed.

Lemma bind_extends {A B} (m : M A) (k : A -> M B) (rt : runtime) :
  extends rt (final_state (m rt)) ->
  (forall a rt', extends rt' (final_state (k a rt'))) ->
  extends rt (final_state (bind m k rt)).
Proof.
  intros Hm Hk. unfold bind. destruct (m rt) as [a rt' | c rt' | rt' | rt'];
    simpl in *; try exact Hm.
  eapply extends_trans; [exact Hm | apply Hk].
Qed.

Lemma has_duplicate_true (count : Z) (images : list Z) (i j : nat) :
  (j < i < Z.to_nat count)%nat ->
  nth i images 0 = nth j images 0 ->
  has_duplicate count images = true.
Proof.
  intros Hij Heq. unfold has_duplicate.
  apply existsb_exists. exists i. split; [apply in_seq; lia|].
  apply existsb_exists. exists j. split; [apply in_seq; lia|].
  apply Z.eqb_eq. exact Heq.
Qed.

(** The entry of [sync_images_internal] up to the first test. *)
Lemma sync_images_enter (rt : runtime) :
  exists rt1,
    (if WITH_FAILED_IMAGES cfg
     then modify (set_no_stopped_images_check true) else ret tt) rt
    = Returns tt rt1
    /\ caf_this_image rt1 = caf_this_image rt
    /\ caf_num_images rt1 = caf_num_images rt
    /\ caf_is_finalized rt1 = caf_is_finalized rt
    /\ images_full rt1 = images_full rt
    /\ events rt1 = events rt
    /\ memory rt1 = memory rt.
Proof.
  destruct (WITH_FAILED_IMAGES cfg); eexists; (split; [reflexivity|]);
    repeat split.
Qed.

(** C10.  For the empty set and for the set that holds only the calling
    image, [sync_images] sets [stat] to 0 and returns without a call to the
    transport, whatever [caf_is_finalized] holds: the test for such a set
    comes before the test of [caf_is_finalized], so the stopped-image code
    is not reported for it, while any other duplicate-free set on a
    finalized runtime gets the stopped-image code. *)
Theorem sync_images_noop_precedes_finalized_check :
  forall (count : Z) (images : list Z) (stat : option Z) (errmsg : list ascii)
         (errmsg_len : Z) (internal : bool) (rt : runtime),
    ((count = 0 \/ (count = 1 /\ nth 0 images 0 = caf_this_image rt)) ->
     exists rt',
       sync_images_internal count images stat errmsg errmsg_len internal rt
       = Returns (option_map (fun _ => 0) stat, errmsg) rt'
       /\ events rt' = events rt
       /\ caf_is_finalized rt' = caf_is_finalized rt
       /\ (STAT_STOPPED_IMAGE <> 0 ->
           option_map (fun _ => 0) stat <> Some STAT_STOPPED_IMAGE))
    /\ (forall s,
          stat = Some s ->
          caf_is_finalized rt <> 0 ->
          ~ (count = 0 \/ (count = 1 /\ nth 0 images 0 = caf_this_image rt)) ->
          has_duplicate count images = false ->
          GFC_CAF_CHECK cfg && has_invalid_image rt count images = false ->
          exists errmsg' rt',
            sync_images_internal count images stat errmsg errmsg_len internal rt
            = Returns (Some STAT_STOPPED_IMAGE, errmsg') rt').
Proof.
  intros count images stat errmsg errmsg_len internal rt.
  destruct (sync_images_enter rt)
    as (rt1 & Hpre & Hme & Hn & Hfin & Hfull & Hev & Hmem).
  split.
  - intros Hset. unfold sync_images_internal.
    rewrite (bind_Returns _ _ _ _ _ Hpre).
    unfold bind at 1, get_rt at 1. cbn beta iota. rewrite Hme.
    assert (Htest : (count =? 0)
                    || ((count =? 1) && (nth 0 images 0 =? caf_this_image rt))
                    = true).
    { destruct Hset as [Hc | [Hc Hi]]; rewrite Hc; [reflexivity|].
      rewrite Hi, !Z.eqb_refl. reflexivity. }
    rewrite Htest.
    destruct (WITH_FAILED_IMAGES cfg) eqn:EWF; run.
    + eexists. split.
      * destruct stat; reflexivity.
      * autorewrite with rt. split; [exact Hev|]. split; [exact Hfin|].
        destruct stat; simpl; congruence.
    + eexists. split.
      * destruct stat; reflexivity.
      * split; [exact Hev|]. split; [exact Hfin|].
        destruct stat; simpl; congruence.
  - intros s -> Hfinalized Hset Hdup Hcheck. unfold sync_images_internal.
    rewrite (bind_Returns _ _ _ _ _ Hpre).
    unfold bind at 1, get_rt at 1. cbn beta iota. rewrite Hme.
    assert (Htest : (count =? 0)
                    || ((count =? 1) && (nth 0 images 0 =? caf_this_image rt))
                    = false).
    { apply orb_false_iff. split.
      - apply Z.eqb_neq. intros ->. apply Hset. left. reflexivity.
      - apply andb_false_iff.
        destruct (Z.eq_dec count 1) as [-> | Hc].
        + right. apply Z.eqb_neq. intros E. apply Hset. right. auto.
        + left. apply Z.eqb_neq. exact Hc. }
    rewrite Htest, Hdup.
    assert (Hchk1 : GFC_CAF_CHECK cfg && has_invalid_image rt1 count images
                    = false).
    { unfold has_invalid_image in *. rewrite Hn. exact Hcheck. }
    rewrite Hchk1. unfold bind at 1, ret at 1. cbn beta iota.
    assert (Hf : negb (caf_is_finalized rt1 =? 0) = true).
    { rewrite Hfin. apply negb_true_iff, Z.eqb_neq. exact Hfinalized. }
    rewrite Hf. unfold bind at 1, ret at 1. cbn beta iota.
    unfold sync_images_err_chk.
    destruct (WITH_FAILED_IMAGES cfg); run;
      destruct (negb (STAT_STOPPED_IMAGE =? 0)
                && negb (STAT_STOPPED_IMAGE =? STAT_FAILED_IMAGE));
      cbn beta iota;
      try (destruct (errmsg_len >? 0)); cbn [negb andb];
      try rewrite andb_false_r; eexists; eexists; reflexivity.
Qed.

Lemma sync_exchange_posts (count : Z) (images : list Z) (rt : runtime) (p : Z) :
  In p (firstn (Z.to_nat count) images) ->
  let rt' := final_state (sync_exchange count images rt) in
  In (Irecv (p - 1) MPI_TAG_CAF_SYNC_IMAGES) (events rt')
  /\ In (Send 0 (p - 1) MPI_TAG_CAF_SYNC_IMAGES) (events rt').
Proof.
  intros Hin.
  set (set := firstn (Z.to_nat count) images) in *.
  set (log := (events rt
               ++ map (fun image => Irecv (image - 1) MPI_TAG_CAF_SYNC_IMAGES)
                    set)
              ++ map (fun image => Send 0 (image - 1) MPI_TAG_CAF_SYNC_IMAGES)
                   set).
  assert (Hrun : sync_exchange count images rt
                 = sync_wait set (set_events log rt)).
  { unfold sync_exchange. fold set.
    unfold bind at 1. rewrite for_each_emit. cbn beta iota.
    unfold bind at 1. rewrite for_each_emit. cbn beta iota.
    autorewrite with rt_events. reflexivity. }
  rewrite Hrun.
  pose proof (sync_wait_extends set (set_events log rt)) as Hext.
  cbv zeta.
  split; (eapply extends_In; [exact Hext|]); rewrite events_set_events;
    unfold log.
  - apply in_or_app. left. apply in_or_app. right.
    apply in_map_iff. exists p. auto.
  - apply in_or_app. right. apply in_map_iff. exists p. auto.
Qed.

(** C5.  [sync_images] on a set with a duplicate image index puts
    [STAT_DUP_SYNC_IMAGES] into [stat]; on the empty set and on the set
    that holds only the calling image it sets [stat] to 0 and does nothing
    else; with [count = -1] the set is the table of all images other than
    the calling one, each of which is posted a receive and sent the
    synchronisation message. *)
Theorem sync_images_rules :
  forall (count : Z) (images : list Z) (stat : option Z) (errmsg : list ascii)
         (errmsg_len : Z) (internal : bool) (rt : runtime),
    (forall s i j,
        stat = Some s ->
        (j < i < Z.to_nat count)%nat ->
        nth i images 0 = nth j images 0 ->
        exists errmsg' rt',
          sync_images_internal count images stat errmsg errmsg_len internal rt
          = Returns (Some STAT_DUP_SYNC_IMAGES, errmsg') rt')
    /\ ((count = 0 \/ (count = 1 /\ nth 0 images 0 = caf_this_image rt)) ->
        exists rt',
          sync_images_internal count images stat errmsg errmsg_len internal rt
          = Returns (option_map (fun _ => 0) stat, errmsg) rt'
          /\ events rt' = events rt
          /\ memory rt' = memory rt)
    /\ (count = -1 ->
        initialised rt ->
        caf_is_finalized rt = 0 ->
        sync_set rt count images
        = (caf_num_images rt - 1,
           init_images_full (caf_this_image rt) (caf_num_images rt))
        /\ (forall p, In p (firstn (Z.to_nat (fst (sync_set rt count images)))
                              (snd (sync_set rt count images)))
                      <-> 1 <= p <= caf_num_images rt /\ p <> caf_this_image rt)
        /\ (forall p,
              1 <= p <= caf_num_images rt -> p <> caf_this_image rt ->
              let rt' :=
                final_state
                  (sync_images_internal count images stat errmsg errmsg_len
                     internal rt) in
              In (Irecv (p - 1) MPI_TAG_CAF_SYNC_IMAGES) (events rt')
              /\ In (Send 0 (p - 1) MPI_TAG_CAF_SYNC_IMAGES) (events rt'))).
Proof.
  intros count images stat errmsg errmsg_len internal rt.
  destruct (sync_images_enter rt)
    as (rt1 & Hpre & Hme & Hn & Hfin & Hfull & Hev & Hmem).
  split; [|split].
  - intros s i j -> Hij Heq.
    pose proof (has_duplicate_true count images i j Hij Heq) as Hdup.
    unfold sync_images_internal.
    rewrite (bind_Returns _ _ _ _ _ Hpre).
    unfold bind at 1, get_rt at 1. cbn beta iota. rewrite Hme.
    assert (Htest : (count =? 0)
                    || ((count =? 1) && (nth 0 images 0 =? caf_this_image rt))
                    = false).
    { apply orb_false_iff. split; [apply Z.eqb_neq; lia|].
      apply andb_false_iff. left. apply Z.eqb_neq. lia. }
    rewrite Htest, Hdup.
    unfold sync_images_err_chk.
    destruct (WITH_FAILED_IMAGES cfg); run;
      destruct (negb (STAT_DUP_SYNC_IMAGES =? 0)
                && negb (STAT_DUP_SYNC_IMAGES =? STAT_FAILED_IMAGE));
      cbn beta iota;
      try (destruct (errmsg_len >? 0)); cbn [negb andb];
      try rewrite andb_false_r; eexists; eexists; reflexivity.
  - intros Hset. unfold sync_images_internal.
    rewrite (bind_Returns _ _ _ _ _ Hpre).
    unfold bind at 1, get_rt at 1. cbn beta iota. rewrite Hme.
    assert (Htest : (count =? 0)
                    || ((count =? 1) && (nth 0 images 0 =? caf_this_image rt))
                    = true).
    { destruct Hset as [Hc | [Hc Hi]]; rewrite Hc; [reflexivity|].
      rewrite Hi, !Z.eqb_refl. reflexivity. }
    rewrite Htest.
    destruct (WITH_FAILED_IMAGES cfg) eqn:EWF; run.
    + eexists. split.
      * destruct stat; reflexivity.
      * autorewrite with rt. split; [exact Hev | exact Hmem].
    + eexists. split.
      * destruct stat; reflexivity.
      * split; [exact Hev | exact Hmem].
  - intros -> Hinit Hnotfin.
    destruct Hinit as [Hthis Htable].
    assert (Hset : sync_set rt (-1) images
                   = (caf_num_images rt - 1,
                      init_images_full (caf_this_image rt) (caf_num_images rt))).
    { unfold sync_set. simpl. rewrite Htable. reflexivity. }
    assert (Hall : firstn (Z.to_nat (caf_num_images rt - 1))
                     (init_images_full (caf_this_image rt) (caf_num_images rt))
                   = init_images_full (caf_this_image rt) (caf_num_images rt)).
    { apply firstn_all2. rewrite init_images_full_length by exact Hthis. lia. }
    split; [exact Hset|]. split.
    + intros p. rewrite Hset. simpl. rewrite Hall. apply init_images_full_In.
    + intros p Hp Hne.
      assert (Hin : In p (firstn (Z.to_nat (caf_num_images rt - 1))
                            (images_full rt))).
      { rewrite Htable, Hall. apply init_images_full_In. auto. }
      set (rt2 := if WITH_FAILED_IMAGES cfg
                  then set_events (events rt1 ++ [Test_alive]) rt1 else rt1).
      assert (Hpre2 : (if WITH_FAILED_IMAGES cfg
                       then emit Test_alive else ret tt) rt1 = Returns tt rt2).
      { unfold rt2. destruct (WITH_FAILED_IMAGES cfg); reflexivity. }
      assert (Hrun :
        sync_images_internal (-1) images stat errmsg errmsg_len internal rt
        = bind (sync_exchange (caf_num_images rt - 1) (images_full rt))
            (fun ierr =>
               sync_images_err_chk ierr stat errmsg errmsg_len internal) rt2).
      { unfold sync_images_internal.
        rewrite (bind_Returns _ _ _ _ _ Hpre).
        unfold bind at 1, get_rt at 1. cbn beta iota.
        change ((-1 =? 0)
                || ((-1 =? 1) && (nth 0 images 0 =? caf_this_image rt1)))
          with false.
        change (has_duplicate (-1) images) with false.
        change (has_invalid_image rt1 (-1) images) with false.
        rewrite andb_false_r. unfold bind at 1, ret at 1. cbn beta iota.
        rewrite Hfin, Hnotfin. cbn [Z.eqb negb].
        unfold sync_set. cbn [Z.eqb Pos.eqb]. rewrite Hn, Hfull.
        cbv zeta. cbn beta iota.
        unfold bind at 1. unfold bind at 1. rewrite Hpre2.
        reflexivity. }
      rewrite Hrun.
      pose proof (sync_exchange_posts (caf_num_images rt - 1) (images_full rt)
                    rt2 p Hin) as Hposts.
      cbv zeta in Hposts. cbv zeta. unfold bind.
      destruct (sync_exchange (caf_num_images rt - 1) (images_full rt) rt2)
        as [ierr rt3 | c rt3 | rt3 | rt3]; simpl in Hposts; try exact Hposts.
      pose proof (sync_images_err_chk_extends ierr stat errmsg errmsg_len
                    internal rt3) as Hext.
      destruct Hposts as [H1 H2].
      split; eapply extends_In; eauto.
Qed.

(** *** Memory *)

Lemma load_length (m : Mem.t) (a : Z) (n : nat) :
  List.length (Mem.load m a n) = n.
Proof. unfold Mem.load. rewrite length_map, length_seq. reflexivity. Qed.

Lemma load_ext (m m' : Mem.t) (a : Z) (n : nat) :
  (forall x, a <= x < a + Z.of_nat n -> m' x = m x) ->
  Mem.load m' a n = Mem.load m a n.
Proof.
  intros H. unfold Mem.load. apply map_ext_in.
  intros k Hk. apply in_seq in Hk. apply H. lia.
Qed.

Lemma store_outside (m : Mem.t) (a : Z) (bs : list Z) (x : Z) :
  x < a \/ a + Z.of_nat (List.length bs) <= x ->
  Mem.store m a bs x = m x.
Proof.
  intros H. unfold Mem.store.
  destruct ((a <=? x) && (x <? a + Z.of_nat (List.length bs))) eqn:E;
    [|reflexivity].
  apply andb_true_iff in E. destruct E as [E1 E2].
  apply Z.leb_le in E1. apply Z.ltb_lt in E2. lia.
Qed.

Lemma load_store_disjoint (m : Mem.t) (a : Z) (bs : list Z) (a' : Z) (n : nat) :
  a' + Z.of_nat n <= a \/ a + Z.of_nat (List.length bs) <= a' ->
  Mem.load (Mem.store m a bs) a' n = Mem.load m a' n.
Proof.
  intros H. apply load_ext. intros x Hx. apply store_outside. lia.
Qed.

Lemma nth_load (m : Mem.t) (a : Z) (n k : nat) (d : Z) :
  (k < n)%nat -> nth k (Mem.load m a n) d = m (a + Z.of_nat k).
Proof.
  intros Hk. unfold Mem.load.
  rewrite (nth_indep _ d ((fun i => m (a + Z.of_nat i)) 0%nat))
    by (rewrite length_map, length_seq; exact Hk).
  rewrite (map_nth (fun i => m (a + Z.of_nat i))), seq_nth by exact Hk.
  reflexivity.
Qed.

Lemma load_store_same (m : Mem.t) (a : Z) (bs : list Z) :
  Mem.load (Mem.store m a bs) a (List.length bs) = bs.
Proof.
  apply nth_ext with (d := 0) (d' := 0).
  - apply load_length.
  - intros k Hk. rewrite load_length in Hk.
    rewrite nth_load by exact Hk. unfold Mem.store.
    replace ((a <=? a + Z.of_nat k)
             && (a + Z.of_nat k <? a + Z.of_nat (List.length bs))) with true.
    + f_equal. lia.
    + symmetry. apply andb_true_iff.
      split; [apply Z.leb_le | apply Z.ltb_lt]; lia.
Qed.

Lemma load_store_same_n (m : Mem.t) (a : Z) (bs : list Z) (n : nat) :
  n = List.length bs -> Mem.load (Mem.store m a bs) a n = bs.
Proof. intros ->. apply load_store_same. Qed.

Lemma update_rank_same (mem : Z -> Mem.t) (rank : Z) (m : Mem.t) :
  update_rank mem rank m rank = m.
Proof. unfold update_rank. rewrite Z.eqb_refl. reflexivity. Qed.

Lemma update_rank_other (mem : Z -> Mem.t) (rank rank' : Z) (m : Mem.t) :
  rank' <> rank -> update_rank mem rank m rank' = mem rank'.
Proof.
  intros H. unfold update_rank. apply Z.eqb_neq in H. rewrite H. reflexivity.
Qed.

(** *** Atomics (C9) *)

(** The memory a fetch-and-op leaves behind. *)
Definition fetch_and_op_memory (rt : runtime) (origin_addr result_addr : Z)
    (dt : MPI_Datatype) (target_rank target_disp : Z) (op : MPI_Op)
    (win : MPI_Win) : Z -> Mem.t :=
  let n := Z.to_nat (MPI_Type_size dt) in
  let addr := win_base win target_rank + target_disp in
  let found := Mem.load (memory rt target_rank) addr n in
  let origin := Mem.load (memory rt (caf_this_image rt - 1)) origin_addr n in
  let mem1 :=
    update_rank (memory rt) target_rank
      (Mem.store (memory rt target_rank) addr
         (firstn n (mpi_reduce op dt found origin))) in
  update_rank mem1 (caf_this_image rt - 1)
    (Mem.store (mem1 (caf_this_image rt - 1)) result_addr found).

Lemma MPI_Fetch_and_op_cases (origin_addr result_addr : Z)
    (dt : option MPI_Datatype) (target_rank target_disp : Z) (op : MPI_Op)
    (win : MPI_Win) (rt : runtime) :
  MPI_Fetch_and_op origin_addr result_addr dt target_rank target_disp op win rt
  = Aborts rt
  \/ exists dt' rt',
       dt = Some dt'
       /\ MPI_Fetch_and_op origin_addr result_addr dt target_rank target_disp
            op win rt = Returns MPI_SUCCESS rt'
       /\ caf_this_image rt' = caf_this_image rt
       /\ memory rt' =
            fetch_and_op_memory rt origin_addr result_addr dt' target_rank
              target_disp op win.
Proof.
  destruct dt as [dt'|]; [|left; reflexivity].
  destruct (valid_rank rt target_rank) eqn:Hrank.
  - right. exists dt'.
    assert (Hrun : exists rt',
               MPI_Fetch_and_op origin_addr result_addr (Some dt') target_rank
                 target_disp op win rt = Returns MPI_SUCCESS rt'
               /\ caf_this_image rt' = caf_this_image rt
               /\ memory rt' =
                    fetch_and_op_memory rt origin_addr result_addr dt'
                      target_rank target_disp op win).
    { unfold MPI_Fetch_and_op. unfold bind at 1, get_rt at 1. cbn beta iota.
      rewrite Hrank. cbn [negb]. run. eexists. split; [reflexivity|].
      autorewrite with rt. split; reflexivity. }
    destruct Hrun as (rt' & H1 & H2 & H3). exists rt'. auto.
  - left. unfold MPI_Fetch_and_op. unfold bind at 1, get_rt at 1.
    cbn beta iota. rewrite Hrank. reflexivity.
Qed.

Lemma firstn_length_le {A} (n : nat) (l : list A) :
  (List.length (firstn n l) <= n)%nat.
Proof. rewrite length_firstn. lia. Qed.

Lemma MPI_Type_size_bounds (dt : MPI_Datatype) : 0 < MPI_Type_size dt <= 16.
Proof. destruct dt; simpl; lia. Qed.

(** Bytes of the caller that lie below the result buffer and are not the
    target of the operation are the same after a fetch-and-op. *)
Lemma fetch_and_op_memory_frame (rt : runtime) (origin_addr result_addr : Z)
    (dt : MPI_Datatype) (target_rank target_disp : Z) (op : MPI_Op)
    (win : MPI_Win) (a : Z) (n : nat) :
  a + Z.of_nat n <= result_addr ->
  (target_rank <> caf_this_image rt - 1
   \/ a + Z.of_nat n <= win_base win target_rank + target_disp
   \/ win_base win target_rank + target_disp + 16 <= a) ->
  Mem.load
    (fetch_and_op_memory rt origin_addr result_addr dt target_rank target_disp
       op win (caf_this_image rt - 1)) a n
  = Mem.load (memory rt (caf_this_image rt - 1)) a n.
Proof.
  intros Hbelow Hsep. unfold fetch_and_op_memory. cbv zeta.
  rewrite update_rank_same.
  rewrite load_store_disjoint by (left; exact Hbelow).
  pose proof (MPI_Type_size_bounds dt) as Hsz.
  destruct (Z.eq_dec (caf_this_image rt - 1) target_rank) as [E | E].
  - rewrite E, update_rank_same.
    apply load_store_disjoint.
    pose proof (firstn_length_le (Z.to_nat (MPI_Type_size dt))
                  (mpi_reduce op dt
                     (Mem.load (memory rt target_rank)
                        (win_base win target_rank + target_disp)
                        (Z.to_nat (MPI_Type_size dt)))
                     (Mem.load (memory rt target_rank) origin_addr
                        (Z.to_nat (MPI_Type_size dt))))) as Hl.
    destruct Hsep as [H | [H | H]]; [congruence | left; exact H | right; lia].
  - rewrite update_rank_other by exact E. reflexivity.
Qed.

(** The operation [atomic_op] hands to the transport for an op code. *)
Definition atomic_op_code (op : Z) : option MPI_Op :=
  if op =? 1 then Some MPI_SUM
  else if op =? 2 then Some MPI_BAND
  else if op =? 4 then Some MPI_BOR
  else if op =? 5 then Some MPI_BXOR
  else None.

(** [atomic_op] as one call of the transport between [malloc] and [free]. *)
Lemma atomic_op_unfold (op : Z) (token : MPI_Win) (offset image_index : Z)
    (value old : Z) (stat : option Z) (kind : Z) (rt : runtime) :
  let rt1 := set_heap_top (heap_top rt + to_size_t kind) rt in
  let image :=
    if negb (image_index =? 0) then image_index - 1
    else caf_this_image rt - 1 in
  atomic_op op token offset image_index value old stat kind rt
  = bind
      match atomic_op_code op with
      | Some mpi_op =>
          MPI_Fetch_and_op value (heap_top rt) (selectType kind None) image
            offset mpi_op token
      | None =>
          emit (Stdout "We apologize but the atomic operation requested for MPI < 3 is not yet implemented") ;;;
          ret 0
      end
      (fun ierr =>
         CAF_Win_unlock image (win_id token) ;;;
         free (heap_top rt) ;;;
         match stat with
         | Some _ => ret (Some ierr)
         | None =>
             if negb (ierr =? 0) then terminate_internal ierr 0 else ret None
         end) rt1.
Proof.
  cbv zeta. unfold atomic_op, atomic_op_code, malloc.
  unfold bind at 1 2, get_rt at 1, modify at 1. cbn beta iota.
  unfold bind at 1, ret at 1. cbn beta iota.
  unfold bind at 1, get_rt at 1. cbn beta iota.
  rewrite caf_this_image_set_heap_top.
  destruct (op =? 1); [reflexivity|].
  destruct (op =? 2); [reflexivity|].
  destruct (op =? 4); [reflexivity|].
  destruct (op =? 5); reflexivity.
Qed.

(** C9.  The bytes the caller passed as [old] are the same after
    [atomic_op] as before: the value found at the target goes to the buffer
    [malloc] has just handed out, which [atomic_op] frees before it
    returns.  The bytes of the caller are those below [heap_top]; they are
    taken to be other bytes than the atomic variable itself. *)
Theorem atomic_op_leaves_old_unchanged :
  forall (op : Z) (token : MPI_Win) (offset image_index value old : Z)
         (stat : option Z) (kind : Z) (n : nat) (rt : runtime),
    old + Z.of_nat n <= heap_top rt ->
    let image :=
      if negb (image_index =? 0) then image_index - 1
      else caf_this_image rt - 1 in
    (image <> this_rank rt
     \/ old + Z.of_nat n <= win_base token image + offset
     \/ win_base token image + offset + 16 <= old) ->
    let o := atomic_op op token offset image_index value old stat kind rt in
    Mem.load (local_memory (final_state o)) old n
    = Mem.load (local_memory rt) old n
    /\ (forall r rt' mpi_op,
          o = Returns r rt' ->
          atomic_op_code op = Some mpi_op ->
          exists dt,
            selectType kind None = Some dt
            /\ Mem.load (local_memory rt') (heap_top rt)
                 (Z.to_nat (MPI_Type_size dt))
               = Mem.load (memory rt image) (win_base token image + offset)
                   (Z.to_nat (MPI_Type_size dt))).
Proof.
  intros op token offset image_index value old stat kind n rt Hbelow image
    Hsep o.
  assert (Ho : o = atomic_op op token offset image_index value old stat kind rt)
    by reflexivity.
  clearbody o. rewrite atomic_op_unfold in Ho. cbv zeta in Ho. fold image in Ho.
  set (rt1 := set_heap_top (heap_top rt + to_size_t kind) rt) in Ho.
  unfold local_memory, this_rank in *.
  destruct (atomic_op_code op) as [mpi_op|].
  - destruct (MPI_Fetch_and_op_cases value (heap_top rt) (selectType kind None)
                image offset mpi_op token rt1)
      as [Habort | (dt & rt2 & Hdt & Hrun & Hme & Hmem)].
    + unfold bind at 1 in Ho. rewrite Habort in Ho. subst o. simpl.
      split; [reflexivity|].
      intros r rt' mpi_op' H. discriminate H.
    + rewrite (bind_Returns _ _ _ _ _ Hrun) in Ho.
      assert (Hfinal : exists rt3,
                 (CAF_Win_unlock image (win_id token) ;;;
                  free (heap_top rt) ;;;
                  match stat with
                  | Some _ => ret (Some MPI_SUCCESS)
                  | None =>
                      if negb (MPI_SUCCESS =? 0)
                      then terminate_internal MPI_SUCCESS 0 else ret None
                  end) rt2
                 = Returns (option_map (fun _ => MPI_SUCCESS) stat) rt3
                 /\ caf_this_image rt3 = caf_this_image rt2
                 /\ memory rt3 = memory rt2).
      { unfold CAF_Win_unlock, free. destruct stat; run;
          eexists; (split; [reflexivity|]); autorewrite with rt;
          split; reflexivity. }
      destruct Hfinal as (rt3 & Hrun3 & Hme3 & Hmem3).
      rewrite Hrun3 in Ho. subst o. simpl.
      rewrite Hme3, Hmem3, Hme, Hmem.
      change (caf_this_image rt1) with (caf_this_image rt).
      split.
      * change (memory rt (caf_this_image rt - 1))
          with (memory rt1 (caf_this_image rt1 - 1)).
        change (caf_this_image rt) with (caf_this_image rt1) at 1.
        apply fetch_and_op_memory_frame; [exact Hbelow | exact Hsep].
      * intros r rt' mpi_op' H _. injection H as _ <-.
        exists dt. split; [exact Hdt|].
        rewrite Hme3, Hmem3, Hme, Hmem.
        unfold fetch_and_op_memory. cbv zeta.
        change (caf_this_image rt1) with (caf_this_image rt).
        rewrite update_rank_same.
        rewrite load_store_same_n by (rewrite load_length; reflexivity).
        reflexivity.
  - assert (Hfinal : memory (final_state o) = memory rt
                     /\ caf_this_image (final_state o) = caf_this_image rt
                     /\ exists r rt', o = Returns r rt').
    { subst o. unfold CAF_Win_unlock, free. destruct stat; run;
        simpl; autorewrite with rt; (split; [reflexivity|]);
        (split; [reflexivity|]); eexists; eexists; reflexivity. }
    destruct Hfinal as (Hm & Hi & _). rewrite Hm, Hi.
    split; [reflexivity|].
    intros r rt' mpi_op' _ H. discriminate H.
Qed.

(** *** Elements per dimension of an array reference (C4) *)

(** The count the specification gives for a dimension. *)
Definition num_items_formula (stride lb ub : Z) : Z :=
  let num := if stride >? 0 then ub + 1 - lb else lb + 1 - ub in
  1 + (num - 1) / Z.abs stride.

Lemma COMPUTE_NUM_ITEMS_formula (stride lb ub : Z) :
  stride <> 0 ->
  - 2 ^ 63 < stride < 2 ^ 63 ->
  - 2 ^ 62 < lb < 2 ^ 62 ->
  - 2 ^ 62 < ub < 2 ^ 62 ->
  0 < (if stride >? 0 then ub + 1 - lb else lb + 1 - ub) ->
  COMPUTE_NUM_ITEMS stride lb ub = Some (num_items_formula stride lb ub)
  /\ 0 < num_items_formula stride lb ub.
Proof.
  intros Hs Hsr Hlb Hub Hnum.
  unfold COMPUTE_NUM_ITEMS, num_items_formula.
  assert (Hneg : to_ptrdiff_t (- stride) = - stride)
    by (apply to_ptrdiff_t_small; lia).
  assert (Hu : to_ptrdiff_t (to_ptrdiff_t (ub + 1) - lb) = ub + 1 - lb).
  { rewrite (to_ptrdiff_t_small (ub + 1)) by lia.
    apply to_ptrdiff_t_small. lia. }
  assert (Hl : to_ptrdiff_t (to_ptrdiff_t (lb + 1) - ub) = lb + 1 - ub).
  { rewrite (to_ptrdiff_t_small (lb + 1)) by lia.
    apply to_ptrdiff_t_small. lia. }
  rewrite Hneg, Hu, Hl.
  destruct (stride >? 0) eqn:E.
  - apply Z.gtb_lt in E. rewrite Z.abs_eq by lia.
    set (num := ub + 1 - lb) in *.
    assert (Hq : 0 <= (num - 1) / stride <= num - 1).
    { split; [apply Z.div_pos; lia|].
      apply Z.div_le_upper_bound; [lia|]. nia. }
    replace (num <=? 0) with false by (symmetry; apply Z.leb_gt; lia).
    replace (stride <? 1) with false by (symmetry; apply Z.ltb_ge; lia).
    cbn [orb]. split; [|lia]. f_equal.
    destruct (stride >? 1) eqn:E1.
    + rewrite Z.quot_div_nonneg by lia. apply to_ptrdiff_t_small. lia.
    + rewrite Z.gtb_ltb in E1. apply Z.ltb_ge in E1.
      assert (stride = 1) by lia. subst stride. rewrite Z.div_1_r. lia.
  - rewrite Z.gtb_ltb in E. apply Z.ltb_ge in E. rewrite Z.abs_neq by lia.
    set (num := lb + 1 - ub) in *.
    assert (Hq : 0 <= (num - 1) / - stride <= num - 1).
    { split; [apply Z.div_pos; lia|].
      apply Z.div_le_upper_bound; [lia|]. nia. }
    replace (num <=? 0) with false by (symmetry; apply Z.leb_gt; lia).
    replace (- stride <? 1) with false by (symmetry; apply Z.ltb_ge; lia).
    cbn [orb]. split; [|lia]. f_equal.
    destruct (- stride >? 1) eqn:E1.
    + rewrite Z.quot_div_nonneg by lia. apply to_ptrdiff_t_small. lia.
    + rewrite Z.gtb_ltb in E1. apply Z.ltb_ge in E1.
      replace (- stride) with 1 by lia. rewrite Z.div_1_r. lia.
Qed.

(** The count of a FULL dimension of a static array, [end / stride + 1]
    with the division of C, is the count of the formula for the bounds 0
    and [end]. *)
Lemma static_full_formula (stride ub : Z) :
  stride <> 0 ->
  - 2 ^ 63 < stride < 2 ^ 63 ->
  - 2 ^ 62 < ub < 2 ^ 62 ->
  0 < (if stride >? 0 then ub + 1 - 0 else 0 + 1 - ub) ->
  to_long (to_ptrdiff_t (to_ptrdiff_t (Z.quot ub stride) + 1))
  = num_items_formula stride 0 ub
  /\ 0 < num_items_formula stride 0 ub.
Proof.
  intros Hs Hsr Hub Hnum. unfold num_items_formula, to_long.
  fold to_ptrdiff_t.
  destruct (stride >? 0) eqn:E.
  - apply Z.gtb_lt in E. rewrite Z.abs_eq by lia.
    replace (ub + 1 - 0 - 1) with ub by lia.
    rewrite Z.quot_div_nonneg by lia.
    assert (Hq : 0 <= ub / stride <= ub).
    { split; [apply Z.div_pos; lia|].
      apply Z.div_le_upper_bound; [lia|]. nia. }
    rewrite (to_ptrdiff_t_small (ub / stride)) by lia.
    rewrite (to_ptrdiff_t_small (ub / stride + 1)) by lia.
    rewrite to_ptrdiff_t_small by lia. lia.
  - rewrite Z.gtb_ltb in E. apply Z.ltb_ge in E. rewrite Z.abs_neq by lia.
    replace (0 + 1 - ub - 1) with (- ub) by lia.
    replace (Z.quot ub stride) with (Z.quot (- ub) (- stride))
      by (rewrite Z.quot_opp_opp by lia; reflexivity).
    rewrite Z.quot_div_nonneg by lia.
    assert (Hq : 0 <= - ub / - stride <= - ub).
    { split; [apply Z.div_pos; lia|].
      apply Z.div_le_upper_bound; [lia|]. nia. }
    rewrite (to_ptrdiff_t_small (- ub / - stride)) by lia.
    rewrite (to_ptrdiff_t_small (- ub / - stride + 1)) by lia.
    rewrite to_ptrdiff_t_small by lia. lia.
Qed.

(** C4.  For a dimension of an array reference that runs from a lower bound
    [lb] to an upper bound [ub] with a stride other than 0, the planning
    pass of the reference walker counts [1 + (num - 1) / |stride|]
    elements, where [num] is [ub + 1 - lb] for a positive stride and
    [lb + 1 - ub] otherwise, whenever [num] is positive.  This holds for
    the kinds FULL, RANGE, OPEN_START and OPEN_END of a reference into an
    array with a descriptor, where the copy pass loops over the same
    number, and for the kinds FULL and RANGE of a reference into a static
    array.  The bounds are taken within the range in which the differences
    do not overflow. *)
Theorem array_ref_dimension_count :
  forall (mode : caf_array_ref_t) (rd : caf_ref_dim) (item_size : Z)
         (sd : descriptor_dimension) (lb ub : Z),
    let stride := s_stride rd in
    stride <> 0 ->
    - 2 ^ 63 < stride < 2 ^ 63 ->
    - 2 ^ 62 < lb < 2 ^ 62 ->
    - 2 ^ 62 < ub < 2 ^ 62 ->
    0 < (if stride >? 0 then ub + 1 - lb else lb + 1 - ub) ->
    (is_triplet mode = true ->
     ref_lower_bound mode rd sd = lb ->
     ref_upper_bound mode rd sd = ub ->
     (exists memptr_step,
         get_by_ref_array_dim mode rd item_size sd
         = Plan_items (num_items_formula stride lb ub) memptr_step)
     /\ get_for_ref_extent_src mode rd sd
        = Some (num_items_formula stride lb ub))
    /\ (is_static_triplet mode = true ->
        static_lower_bound mode rd = lb ->
        static_upper_bound rd = ub ->
        exists memptr_step,
          get_by_ref_static_array_dim mode rd item_size
          = Plan_items (num_items_formula stride lb ub) memptr_step).
Proof.
  intros mode rd item_size sd lb ub stride Hs Hsr Hlb Hub Hnum.
  destruct (COMPUTE_NUM_ITEMS_formula stride lb ub Hs Hsr Hlb Hub Hnum)
    as [Hc Hpos].
  assert (Hle : (num_items_formula stride lb ub <=? 0) = false)
    by (apply Z.leb_gt; exact Hpos).
  unfold stride in *. split.
  - intros Hmode Hl Hu. subst lb ub.
    destruct mode; try discriminate Hmode;
      unfold get_by_ref_array_dim, get_for_ref_extent_src, plan_items;
      cbn [ref_lower_bound ref_upper_bound] in *;
      rewrite Hc, Hle; (split; [eexists; reflexivity | reflexivity]).
  - intros Hmode Hl Hu. unfold static_upper_bound in Hu. subst lb ub.
    destruct mode; try discriminate Hmode;
      unfold get_by_ref_static_array_dim, plan_items;
      cbn [static_lower_bound] in *.
    + destruct (static_full_formula (s_stride rd) (s_end rd) Hs Hsr Hub Hnum)
        as [Hfull _].
      replace (s_stride rd =? 0) with false
        by (symmetry; apply Z.eqb_neq; exact Hs).
      rewrite Hfull, Hle. eexists. reflexivity.
    + rewrite Hc, Hle. eexists. reflexivity.
Qed.

(** *** The transfer engine: sizes (C2) *)

(** The element count as the specification words it: the product, over
    the first [rank] dimensions of a descriptor, of
    [max (0, upper_bound - lower_bound + 1)]. *)
Definition element_count (rank : Z) (desc : gfc_descriptor_t) : Z :=
  fold_left
    (fun count j =>
       count * Z.max 0 (_ubound (dim_at desc j) - lower_bound (dim_at desc j) + 1))
    (seq 0 (Z.to_nat rank)) 1.

(** The extents of the first [rank] dimensions can be computed in a
    [ptrdiff_t] without overflow. *)
Definition extents_in_range (rank : Z) (desc : gfc_descriptor_t) : Prop :=
  forall j, (j < Z.to_nat rank)%nat ->
    - 2 ^ 63 <= _ubound (dim_at desc j) - lower_bound (dim_at desc j)
    /\ _ubound (dim_at desc j) - lower_bound (dim_at desc j) + 1 < 2 ^ 63.

Lemma dimextent_max (d : descriptor_dimension) :
  - 2 ^ 63 <= _ubound d - lower_bound d ->
  _ubound d - lower_bound d + 1 < 2 ^ 63 ->
  dimextent d = Z.max 0 (_ubound d - lower_bound d + 1).
Proof.
  intros H1 H2. unfold dimextent.
  rewrite (to_ptrdiff_t_small (_ubound d - lower_bound d)) by lia.
  rewrite to_ptrdiff_t_small by lia.
  destruct (_ubound d - lower_bound d + 1 <? 0) eqn:E.
  - apply Z.ltb_lt in E. lia.
  - apply Z.ltb_ge in E. lia.
Qed.

Lemma fold_size_count (desc : gfc_descriptor_t) (l : list nat) (size count : Z) :
  (forall j, In j l ->
     - 2 ^ 63 <= _ubound (dim_at desc j) - lower_bound (dim_at desc j)
     /\ _ubound (dim_at desc j) - lower_bound (dim_at desc j) + 1 < 2 ^ 63) ->
  size = to_size_t count ->
  fold_left (fun size j => to_size_t (size * dimextent (dim_at desc j))) l size
  = to_size_t
      (fold_left
         (fun count j =>
            count * Z.max 0 (_ubound (dim_at desc j)
                             - lower_bound (dim_at desc j) + 1)) l count).
Proof.
  revert size count. induction l as [|j l IH]; intros size count Hr Hs.
  - exact Hs.
  - cbn [fold_left]. apply IH.
    + intros k Hk. apply Hr. right. exact Hk.
    + destruct (Hr j (or_introl eq_refl)) as [H1 H2].
      rewrite dimextent_max by assumption. subst size.
      unfold to_size_t, CInt.unsigned. apply Z.mul_mod_idemp_l. lia.
Qed.

Lemma transfer_size_count (rank : Z) (desc : gfc_descriptor_t) :
  extents_in_range rank desc ->
  transfer_size rank desc = to_size_t (element_count rank desc).
Proof.
  intros Hr. unfold transfer_size, element_count. apply fold_size_count.
  - intros j Hj. apply Hr. apply in_seq in Hj. lia.
  - reflexivity.
Qed.

Lemma element_count_nonneg_fold (desc : gfc_descriptor_t) (l : list nat)
    (count : Z) :
  0 <= count ->
  0 <= fold_left
         (fun count j =>
            count * Z.max 0 (_ubound (dim_at desc j)
                             - lower_bound (dim_at desc j) + 1)) l count.
Proof.
  revert count. induction l as [|j l IH]; intros count Hc; [exact Hc|].
  cbn [fold_left]. apply IH. apply Z.mul_nonneg_nonneg; lia.
Qed.

Lemma element_count_nonneg (rank : Z) (desc : gfc_descriptor_t) :
  0 <= element_count rank desc.
Proof. apply element_count_nonneg_fold. lia. Qed.

(** C2.  A [send], a [get] or a [sendget] whose element count, the product
    over the dimensions of the destination descriptor of
    [max (0, upper_bound - lower_bound + 1)], is zero returns at once: the
    state of the image, with it the memory of every image and the log of
    calls to the transport, and [stat] are as they were.  [get] takes the
    number of dimensions from the source descriptor and uses it for both
    descriptors, so it is called with a source and a destination of one
    rank; the count it tests is the one over the leading dimensions of the
    destination, as many as the source has.  The extents are taken within
    the range of a [ptrdiff_t]. *)
Theorem zero_count_transfer_is_noop :
  forall (token token_g : MPI_Win) (offset offset_g image_index image_index_g : Z)
         (dest src : gfc_descriptor_t) (dst_kind src_kind : Z) (mrt : bool)
         (stat : option Z) (rt : runtime),
    (extents_in_range (GFC_DESCRIPTOR_RANK dest) dest ->
     element_count (GFC_DESCRIPTOR_RANK dest) dest = 0 ->
     send token offset image_index dest src dst_kind src_kind mrt stat rt
     = Returns stat rt
     /\ sendget token offset image_index dest token_g offset_g image_index_g
          src src_kind dst_kind mrt stat rt
        = Returns stat rt)
    /\ (extents_in_range (GFC_DESCRIPTOR_RANK src) dest ->
        element_count (GFC_DESCRIPTOR_RANK src) dest = 0 ->
        get token offset image_index src dest src_kind dst_kind mrt stat rt
        = Returns stat rt)
    /\ (GFC_DESCRIPTOR_RANK src = GFC_DESCRIPTOR_RANK dest ->
        extents_in_range (GFC_DESCRIPTOR_RANK dest) dest ->
        element_count (GFC_DESCRIPTOR_RANK dest) dest = 0 ->
        get token offset image_index src dest src_kind dst_kind mrt stat rt
        = Returns stat rt).
Proof.
  intros token token_g offset offset_g image_index image_index_g dest src
    dst_kind src_kind mrt stat rt.
  assert (Hget : extents_in_range (GFC_DESCRIPTOR_RANK src) dest ->
                 element_count (GFC_DESCRIPTOR_RANK src) dest = 0 ->
                 get token offset image_index src dest src_kind dst_kind mrt
                   stat rt = Returns stat rt).
  { intros Hr Hc. unfold get. cbv zeta.
    rewrite (transfer_size_count _ _ Hr), Hc. reflexivity. }
  split; [|split].
  - intros Hr Hc. split.
    + unfold send. cbv zeta.
      rewrite (transfer_size_count _ _ Hr), Hc. reflexivity.
    + unfold sendget. cbv zeta.
      rewrite (transfer_size_count _ _ Hr), Hc. reflexivity.
  - exact Hget.
  - intros Hrank Hr Hc. apply Hget; rewrite Hrank; assumption.
Qed.

(** *** The transfer engine: contiguous round trip (C1) *)

(** Two descriptors of the same rank and the same extents. *)
Definition like_shaped (d1 d2 : gfc_descriptor_t) : Prop :=
  GFC_DESCRIPTOR_RANK d1 = GFC_DESCRIPTOR_RANK d2
  /\ forall j, (j < Z.to_nat (GFC_DESCRIPTOR_RANK d2))%nat ->
       _ubound (dim_at d1 j) - lower_bound (dim_at d1 j)
       = _ubound (dim_at d2 j) - lower_bound (dim_at d2 j).

(** The number of bytes of an array and, for a contiguous array, its bytes
    in the memory of its image. *)
Definition array_nbytes (d : gfc_descriptor_t) : Z :=
  GFC_DESCRIPTOR_SIZE d * element_count (GFC_DESCRIPTOR_RANK d) d.

Definition array_bytes (m : Mem.t) (d : gfc_descriptor_t) : list Z :=
  Mem.load m (base_addr d) (Z.to_nat (array_nbytes d)).

Lemma fold_left_ext_in {A B} (f g : A -> B -> A) (l : list B) (a : A) :
  (forall x y, In y l -> f x y = g x y) ->
  fold_left f l a = fold_left g l a.
Proof.
  revert a. induction l as [|y l IH]; intros a H; [reflexivity|].
  cbn [fold_left]. rewrite H by (left; reflexivity).
  apply IH. intros x z Hz. apply H. right. exact Hz.
Qed.

Lemma like_shaped_transfer_size (d1 d2 : gfc_descriptor_t) :
  like_shaped d1 d2 ->
  transfer_size (GFC_DESCRIPTOR_RANK d2) d1
  = transfer_size (GFC_DESCRIPTOR_RANK d2) d2.
Proof.
  intros [_ H]. unfold transfer_size. apply fold_left_ext_in.
  intros size j Hj. apply in_seq in Hj. unfold dimextent.
  rewrite H by lia. reflexivity.
Qed.

Lemma like_shaped_element_count (d1 d2 : gfc_descriptor_t) :
  like_shaped d1 d2 ->
  element_count (GFC_DESCRIPTOR_RANK d1) d1
  = element_count (GFC_DESCRIPTOR_RANK d2) d2.
Proof.
  intros [Hrank H]. rewrite Hrank. unfold element_count.
  apply fold_left_ext_in.
  intros count j Hj. apply in_seq in Hj. rewrite H by lia. reflexivity.
Qed.

(** The byte count the contiguous path hands to the transport. *)
Lemma contiguous_nbytes (elem count : Z) :
  0 <= elem -> 0 <= count -> elem * count < 2 ^ 31 ->
  to_int (to_size_t (elem * to_size_t count)) = elem * count
  /\ to_size_t (to_size_t count * elem) = elem * count.
Proof.
  intros He Hc Hb.
  destruct (Z.eq_dec elem 0) as [-> | Hne].
  - rewrite Z.mul_0_l, Z.mul_0_r. split; reflexivity.
  - assert (Hcount : count < 2 ^ 31) by nia.
    rewrite (to_size_t_small count) by lia.
    rewrite (Z.mul_comm count elem).
    assert (0 <= elem * count) by nia.
    rewrite to_size_t_small by lia.
    split; [apply to_int_small; lia | reflexivity].
Qed.

Lemma bt_type_eqb_refl (t : bt_type) : bt_type_eqb t t = true.
Proof. destruct t; reflexivity. Qed.

Lemma check_image_health_ok (image_index : Z) (stat : option Z) (rt : runtime) :
  (WITH_FAILED_IMAGES cfg = true ->
   Znth (image_stati rt) (image_index - 1) <> STAT_FAILED_IMAGE) ->
  check_image_health image_index stat rt = Returns (false, stat) rt.
Proof.
  intros H. unfold check_image_health.
  destruct (WITH_FAILED_IMAGES cfg); [|reflexivity].
  unfold bind, get_rt. cbn beta iota.
  specialize (H eq_refl). apply Z.eqb_neq in H. rewrite H. reflexivity.
Qed.

Lemma MPI_Put_ok (origin_addr count target_rank target_disp : Z)
    (win : MPI_Win) (rt : runtime) :
  0 <= count ->
  valid_rank rt target_rank = true ->
  MPI_Put origin_addr count target_rank target_disp count win rt
  = Returns MPI_SUCCESS
      (set_events
         (events rt ++ [Put target_rank target_disp count (win_id win)])
         (set_memory
            (update_rank (memory rt) target_rank
               (Mem.store (memory rt target_rank)
                  (win_base win target_rank + target_disp)
                  (Mem.load (memory rt (caf_this_image rt - 1)) origin_addr
                     (Z.to_nat count))))
            rt)).
Proof.
  intros Hc Hrank. unfold MPI_Put, rma_put.
  unfold bind at 1, get_rt at 1. cbn beta iota.
  unfold bind at 1, get_rt at 1. cbn beta iota.
  rewrite Hrank. rewrite Z.ltb_irrefl.
  replace (count <? 0) with false by (symmetry; apply Z.ltb_ge; exact Hc).
  cbn [orb negb]. run.
  rewrite firstn_all2 by (rewrite load_length; lia).
  reflexivity.
Qed.

Lemma MPI_Get_ok (origin_addr count target_rank target_disp : Z)
    (win : MPI_Win) (rt : runtime) :
  0 <= count ->
  valid_rank rt target_rank = true ->
  MPI_Get origin_addr count target_rank target_disp count win rt
  = Returns MPI_SUCCESS
      (set_memory
         (update_rank (memory rt) (caf_this_image rt - 1)
            (Mem.store (memory rt (caf_this_image rt - 1)) origin_addr
               (Mem.load (memory rt target_rank)
                  (win_base win target_rank + target_disp) (Z.to_nat count))))
         (set_events
            (events rt ++ [Get target_rank target_disp count (win_id win)])
            rt)).
Proof.
  intros Hc Hrank. unfold MPI_Get, rma_get.
  unfold bind at 1 2, get_rt at 1. cbn beta iota.
  rewrite Hrank. rewrite Z.ltb_irrefl.
  replace (count <? 0) with false by (symmetry; apply Z.ltb_ge; exact Hc).
  cbn [orb negb]. run. reflexivity.
Qed.

Section RoundTrip.

(** The coarray side of both transfers: a token, an offset, an image and
    the descriptor [R] of the remote array; [kind] is the kind on both
    sides. *)
Variables (token : MPI_Win) (offset P kind : Z) (R : gfc_descriptor_t).

Hypothesis R_in_range : extents_in_range (GFC_DESCRIPTOR_RANK R) R.
Hypothesis R_size : 0 <= GFC_DESCRIPTOR_SIZE R.
Hypothesis R_fits_int : array_nbytes R < 2 ^ 31.
Hypothesis R_contiguous : is_contiguous R = true.

(** The image addressed exists and is not known to have failed. *)
Definition peer_ok (rt : runtime) : Prop :=
  1 <= P <= caf_num_images rt
  /\ (WITH_FAILED_IMAGES cfg = true ->
      Znth (image_stati rt) (P - 1) <> STAT_FAILED_IMAGE).

Lemma R_nbytes :
  to_int (to_size_t (GFC_DESCRIPTOR_SIZE R
                     * transfer_size (GFC_DESCRIPTOR_RANK R) R))
  = array_nbytes R
  /\ to_size_t (transfer_size (GFC_DESCRIPTOR_RANK R) R * GFC_DESCRIPTOR_SIZE R)
     = array_nbytes R
  /\ 0 <= array_nbytes R.
Proof.
  rewrite (transfer_size_count _ _ R_in_range).
  pose proof (element_count_nonneg (GFC_DESCRIPTOR_RANK R) R) as Hc.
  destruct (contiguous_nbytes (GFC_DESCRIPTOR_SIZE R)
              (element_count (GFC_DESCRIPTOR_RANK R) R) R_size Hc R_fits_int)
    as [H1 H2].
  unfold array_nbytes. split; [exact H1|]. split; [exact H2|].
  apply Z.mul_nonneg_nonneg; assumption.
Qed.

Lemma R_empty :
  transfer_size (GFC_DESCRIPTOR_RANK R) R = 0 -> array_nbytes R = 0.
Proof.
  intros H. destruct R_nbytes as (_ & H2 & _). rewrite H in H2.
  rewrite <- H2. reflexivity.
Qed.

Lemma contiguous_path_taken (dest src : gfc_descriptor_t) (with_rank : bool) :
  GFC_DESCRIPTOR_TYPE dest = GFC_DESCRIPTOR_TYPE src ->
  GFC_DESCRIPTOR_SIZE dest = GFC_DESCRIPTOR_SIZE src ->
  is_contiguous dest = true -> is_contiguous src = true ->
  same_type_and_kind dest src kind kind = true
  /\ make_pad_str dest src kind = None
  /\ min_size dest src = GFC_DESCRIPTOR_SIZE dest
  /\ same_type_and_kind dest src kind kind
     && (negb (bt_type_eqb (GFC_DESCRIPTOR_TYPE dest) BT_CHARACTER)
         || (GFC_DESCRIPTOR_SIZE dest =? GFC_DESCRIPTOR_SIZE src))
     && is_contiguous dest && is_contiguous src = true.
Proof.
  intros Ht Hs Hd Hsrc.
  assert (Hstk : same_type_and_kind dest src kind kind = true).
  { unfold same_type_and_kind. rewrite Ht, bt_type_eqb_refl, Z.eqb_refl.
    reflexivity. }
  split; [exact Hstk|]. split; [|split].
  - unfold make_pad_str. rewrite Hs.
    rewrite Z.gtb_ltb, Z.ltb_irrefl, andb_false_r. reflexivity.
  - unfold min_size. rewrite Hs. rewrite Z.gtb_ltb, Z.ltb_irrefl. reflexivity.
  - rewrite Hstk, Hd, Hsrc, Hs, Z.eqb_refl, orb_true_r. reflexivity.
Qed.

(** What a [send] of a like-shaped contiguous array [A] leaves in the
    memory of the image addressed. *)
Lemma send_contiguous (A : gfc_descriptor_t) (mrt : bool) (stat : option Z)
    (rt : runtime) :
  peer_ok rt ->
  GFC_DESCRIPTOR_TYPE A = GFC_DESCRIPTOR_TYPE R ->
  GFC_DESCRIPTOR_SIZE A = GFC_DESCRIPTOR_SIZE R ->
  is_contiguous A = true ->
  like_shaped A R ->
  exists rt1,
    send token offset P R A kind kind mrt stat rt = Returns stat rt1
    /\ caf_this_image rt1 = caf_this_image rt
    /\ caf_num_images rt1 = caf_num_images rt
    /\ image_stati rt1 = image_stati rt
    /\ (if caf_this_image rt =? P
        then
          Mem.load (memory rt1 (caf_this_image rt - 1)) (base_addr R)
            (Z.to_nat (array_nbytes R))
          = Mem.load (memory rt (caf_this_image rt - 1)) (base_addr A)
              (Z.to_nat (array_nbytes R))
        else
          memory rt1 (caf_this_image rt - 1) = memory rt (caf_this_image rt - 1)
          /\ Mem.load (memory rt1 (P - 1)) (win_base token (P - 1) + offset)
               (Z.to_nat (array_nbytes R))
             = Mem.load (memory rt (caf_this_image rt - 1)) (base_addr A)
                 (Z.to_nat (array_nbytes R))).
Proof.
  intros [HP Hhealth] Ht Hs HA [Hrank _].
  destruct R_nbytes as (Hn1 & Hn2 & Hn0).
  destruct (contiguous_path_taken R A true (eq_sym Ht) (eq_sym Hs)
              R_contiguous HA) as (Hstk & Hpad & Hmin & Hpath).
  unfold send. cbv zeta.
  destruct (transfer_size (GFC_DESCRIPTOR_RANK R) R =? 0) eqn:Ezero.
  - apply Z.eqb_eq in Ezero. rewrite (R_empty Ezero). simpl.
    exists rt. split; [reflexivity|]. repeat split.
    destruct (caf_this_image rt =? P); [reflexivity | split; reflexivity].
  - rewrite (bind_Returns _ _ _ _ _ (check_image_health_ok P stat rt Hhealth)).
    cbn [fst snd]. rewrite Hpad.
    unfold bind at 1, get_rt at 1. cbn beta iota.
    assert (Hcond :
      (GFC_DESCRIPTOR_RANK R =? 0)
      || (same_type_and_kind R A kind kind
          && negb (GFC_DESCRIPTOR_RANK A =? 0)
          && (negb (bt_type_eqb (GFC_DESCRIPTOR_TYPE R) BT_CHARACTER)
              || (GFC_DESCRIPTOR_SIZE R =? GFC_DESCRIPTOR_SIZE A))
          && is_contiguous R && is_contiguous A) = true).
    { rewrite Hrank.
      destruct (GFC_DESCRIPTOR_RANK R =? 0); [reflexivity|].
      rewrite Hstk, R_contiguous, HA, <- Hs, Z.eqb_refl, orb_true_r.
      reflexivity. }
    rewrite Hcond.
    destruct (caf_this_image rt =? P) eqn:Eself.
    + unfold local_memmove. run. rewrite Hn2.
      eexists. split; [reflexivity|]. autorewrite with rt.
      repeat split. rewrite update_rank_same. unfold Mem.memmove.
      apply load_store_same_n. rewrite load_length. reflexivity.
    + apply Z.eqb_neq in Eself.
      rewrite Hstk, Hmin, Hn1.
      assert (Hvalid : valid_rank rt (P - 1) = true).
      { unfold valid_rank. apply andb_true_iff.
        split; [apply Z.leb_le | apply Z.ltb_lt]; lia. }
      rewrite (bind_Returns _ _ _ _ _
                 (MPI_Put_ok (base_addr A) (array_nbytes R) (P - 1) offset
                    token rt Hn0 Hvalid)).
      unfold bind at 1, ret at 1. cbn beta iota.
      unfold bind at 1. rewrite emit_run. cbn beta iota.
      autorewrite with rt_events.
      match goal with
      | |- exists rt1, _ ?r = _ /\ _ => set (rt' := r)
      end.
      assert (Htail :
        (if WITH_FAILED_IMAGES cfg
         then health <- check_image_health P stat ;; ret (snd health)
         else if negb (MPI_SUCCESS =? 0)
              then terminate_internal MPI_SUCCESS 0 else ret stat) rt'
        = Returns stat rt').
      { destruct (WITH_FAILED_IMAGES cfg) eqn:EWF; [|reflexivity].
        rewrite (bind_Returns _ _ _ _ _
                   (check_image_health_ok P stat rt'
                      (fun _ => Hhealth eq_refl))).
        reflexivity. }
      exists rt'. split; [exact Htail|]. unfold rt'. autorewrite with rt.
      repeat split.
      * apply update_rank_other. lia.
      * rewrite update_rank_same. apply load_store_same_n.
        rewrite load_length. reflexivity.
Qed.

(** What a [get] into a like-shaped contiguous array [B] fetches. *)
Lemma get_contiguous (B : gfc_descriptor_t) (mrt : bool) (stat : option Z)
    (rt : runtime) :
  peer_ok rt ->
  GFC_DESCRIPTOR_TYPE B = GFC_DESCRIPTOR_TYPE R ->
  GFC_DESCRIPTOR_SIZE B = GFC_DESCRIPTOR_SIZE R ->
  is_contiguous B = true ->
  like_shaped B R ->
  exists rt2,
    get token offset P R B kind kind mrt stat rt = Returns stat rt2
    /\ caf_this_image rt2 = caf_this_image rt
    /\ Mem.load (memory rt2 (caf_this_image rt - 1)) (base_addr B)
         (Z.to_nat (array_nbytes R))
       = if caf_this_image rt =? P
         then Mem.load (memory rt (caf_this_image rt - 1)) (base_addr R)
                (Z.to_nat (array_nbytes R))
         else Mem.load (memory rt (P - 1)) (win_base token (P - 1) + offset)
                (Z.to_nat (array_nbytes R)).
Proof.
  intros [HP Hhealth] Ht Hs HB Hshape.
  destruct R_nbytes as (Hn1 & Hn2 & Hn0).
  destruct (contiguous_path_taken B R true Ht Hs HB R_contiguous)
    as (Hstk & Hpad & Hmin & Hpath).
  unfold get. cbv zeta.
  rewrite (like_shaped_transfer_size B R Hshape).
  destruct (transfer_size (GFC_DESCRIPTOR_RANK R) R =? 0) eqn:Ezero.
  - apply Z.eqb_eq in Ezero. rewrite (R_empty Ezero). simpl.
    exists rt. split; [reflexivity|]. split; [reflexivity|].
    destruct (caf_this_image rt =? P); reflexivity.
  - rewrite (bind_Returns _ _ _ _ _ (check_image_health_ok P stat rt Hhealth)).
    cbn [fst snd]. rewrite Hpad.
    unfold bind at 1, get_rt at 1. cbn beta iota.
    rewrite Hpath, orb_true_r.
    destruct (caf_this_image rt =? P) eqn:Eself.
    + unfold local_memmove. run. rewrite Hn2.
      eexists. split; [reflexivity|]. autorewrite with rt.
      split; [reflexivity|]. rewrite update_rank_same. unfold Mem.memmove.
      apply load_store_same_n. rewrite load_length. reflexivity.
    + apply Z.eqb_neq in Eself.
      rewrite Hs, Hn1.
      assert (Hvalid : valid_rank rt (P - 1) = true).
      { unfold valid_rank. apply andb_true_iff.
        split; [apply Z.leb_le | apply Z.ltb_lt]; lia. }
      rewrite (bind_Returns _ _ _ _ _
                 (MPI_Get_ok (base_addr B) (array_nbytes R) (P - 1) offset
                    token rt Hn0 Hvalid)).
      unfold bind at 1, ret at 1. cbn beta iota.
      unfold bind at 1. rewrite emit_run. cbn beta iota.
      autorewrite with rt_events.
      match goal with
      | |- exists rt2, _ ?r = _ /\ _ => set (rt' := r)
      end.
      assert (Htail :
        (health <- check_image_health P stat ;;
         if fst health then ret (snd health)
         else if negb (MPI_SUCCESS =? 0)
              then terminate_internal MPI_SUCCESS 0 else ret stat) rt'
        = Returns stat rt').
      { rewrite (bind_Returns _ _ _ _ _
                   (check_image_health_ok P stat rt' Hhealth)).
        reflexivity. }
      exists rt'. split; [exact Htail|]. unfold rt'. autorewrite with rt.
      split; [reflexivity|].
      rewrite update_rank_same. apply load_store_same_n.
      rewrite load_length. reflexivity.
Qed.

Lemma like_shaped_nbytes (D : gfc_descriptor_t) :
  GFC_DESCRIPTOR_SIZE D = GFC_DESCRIPTOR_SIZE R ->
  like_shaped D R ->
  array_nbytes D = array_nbytes R.
Proof.
  intros Hs Hshape. unfold array_nbytes.
  rewrite Hs, (like_shaped_element_count D R Hshape). reflexivity.
Qed.

(** C1, as amended.  A contiguous array [A] of the calling image, of fewer
    than 2^31 bytes, is sent to the image [P] and fetched back from there
    into a like-shaped contiguous array [B] of the same type, kind and
    element size: after the [get], the bytes of [B] are the bytes [A] had
    before the [send].  [P] is an image of the program that is not known
    to have failed.  The bound is the range of the [int] that takes the
    byte count for the transport: [send] and [get] hand it the product of
    two [size_t]. *)
Theorem send_get_round_trip :
  forall (A B : gfc_descriptor_t) (mrt_s mrt_g : bool)
         (stat_s stat_g : option Z) (rt : runtime),
    peer_ok rt ->
    GFC_DESCRIPTOR_TYPE A = GFC_DESCRIPTOR_TYPE R ->
    GFC_DESCRIPTOR_SIZE A = GFC_DESCRIPTOR_SIZE R ->
    is_contiguous A = true ->
    like_shaped A R ->
    GFC_DESCRIPTOR_TYPE B = GFC_DESCRIPTOR_TYPE R ->
    GFC_DESCRIPTOR_SIZE B = GFC_DESCRIPTOR_SIZE R ->
    is_contiguous B = true ->
    like_shaped B R ->
    exists rt1 rt2,
      send token offset P R A kind kind mrt_s stat_s rt = Returns stat_s rt1
      /\ get token offset P R B kind kind mrt_g stat_g rt1 = Returns stat_g rt2
      /\ array_bytes (local_memory rt2) B = array_bytes (local_memory rt) A.
Proof.
  intros A B mrt_s mrt_g stat_s stat_g rt Hpeer HtA HsA HcA HshA HtB HsB HcB
    HshB.
  destruct (send_contiguous A mrt_s stat_s rt Hpeer HtA HsA HcA HshA)
    as (rt1 & Hsend & Hme1 & Hn1 & Hstati1 & Hmem1).
  assert (Hpeer1 : peer_ok rt1).
  { destruct Hpeer as [HP Hh]. split; [rewrite Hn1; exact HP|].
    rewrite Hstati1. exact Hh. }
  destruct (get_contiguous B mrt_g stat_g rt1 Hpeer1 HtB HsB HcB HshB)
    as (rt2 & Hget & Hme2 & Hmem2).
  exists rt1, rt2. split; [exact Hsend|]. split; [exact Hget|].
  unfold array_bytes, local_memory, this_rank.
  rewrite (like_shaped_nbytes A HsA HshA), (like_shaped_nbytes B HsB HshB).
  rewrite Hme2, Hme1. rewrite Hme1 in Hmem2. rewrite Hmem2.
  destruct (caf_this_image rt =? P).
  - exact Hmem1.
  - destruct Hmem1 as [_ H]. exact H.
Qed.

End RoundTrip.

(** ** Further properties of the runtime *)

(** *** Subset synchronisation: the exchange *)

(** What a peer sends in answer to a synchronisation. *)
Definition arrival (image : Z) : Z :=
  match sync_peer (image - 1) with
  | Completed value => value
  | _ => 0
  end.

(** Every image of a set answers, and none of them has stopped. *)
Definition all_arrive (set : list Z) : Prop :=
  forall p, In p set ->
    exists value,
      sync_peer (p - 1) = Completed value /\ value <> STAT_STOPPED_IMAGE.

Lemma sync_wait_all_arrive (pending : list Z) (rt : runtime) :
  all_arrive pending ->
  exists rt',
    sync_wait pending rt = Returns MPI_SUCCESS rt'
    /\ events rt' = events rt ++ repeat Waitany (List.length pending)
    /\ memory rt' = memory rt
    /\ caf_is_finalized rt' = caf_is_finalized rt
    /\ arrived rt'
       = fold_left (fun a p => Zset a (p - 1) (arrival p)) pending (arrived rt).
Proof.
  revert rt. induction pending as [|image pending IH]; intros rt Hall.
  - exists rt. cbn [sync_wait]. split; [reflexivity|].
    simpl. rewrite app_nil_r. auto.
  - destruct (Hall image (or_introl eq_refl)) as (value & Hv & Hns).
    assert (Hrest : all_arrive pending).
    { intros p Hp. apply Hall. right. exact Hp. }
    cbn [sync_wait]. unfold bind at 1. rewrite emit_run. cbn beta iota.
    rewrite Hv. unfold bind at 1, modify at 1. cbn beta iota.
    apply Z.eqb_neq in Hns. rewrite Hns.
    destruct (IH (set_arrived
                    (Zset (arrived (set_events (events rt ++ [Waitany]) rt))
                       (image - 1) value)
                    (set_events (events rt ++ [Waitany]) rt)) Hrest)
      as (rt' & Hrun & Hev & Hmem & Hfin & Harr).
    exists rt'. split; [exact Hrun|].
    autorewrite with rt in Hev, Hmem, Hfin, Harr.
    split; [|split; [exact Hmem | split; [exact Hfin|]]].
    + rewrite Hev, <- app_assoc. reflexivity.
    + rewrite Harr. cbn [fold_left]. unfold arrival at 3. rewrite Hv.
      reflexivity.
Qed.

(** The nested loops find no duplicate in a set without repetition. *)
Lemma has_duplicate_NoDup (count : Z) (images : list Z) :
  (Z.to_nat count <= List.length images)%nat ->
  NoDup (firstn (Z.to_nat count) images) ->
  has_duplicate count images = false.
Proof.
  intros Hlen Hnd. unfold has_duplicate.
  destruct (existsb _ _) eqn:E; [|reflexivity].
  apply existsb_exists in E. destruct E as (i & Hi & E).
  apply existsb_exists in E. destruct E as (j & Hj & E).
  apply in_seq in Hi. apply in_seq in Hj. apply Z.eqb_eq in E.
  exfalso.
  rewrite NoDup_nth with (d := 0) in Hnd.
  assert (Hfl : List.length (firstn (Z.to_nat count) images) = Z.to_nat count)
    by (rewrite length_firstn; lia).
  assert (i = j); [|lia].
  apply Hnd; try (rewrite Hfl; lia).
  rewrite !nth_firstn.
  replace (i <? Z.to_nat count)%nat with true
    by (symmetry; apply Nat.ltb_lt; lia).
  replace (j <? Z.to_nat count)%nat with true
    by (symmetry; apply Nat.ltb_lt; lia).
  exact E.
Qed.

Lemma has_invalid_image_valid (rt : runtime) (count : Z) (images : list Z) :
  (Z.to_nat count <= List.length images)%nat ->
  (forall p, In p (firstn (Z.to_nat count) images) ->
             1 <= p <= caf_num_images rt) ->
  has_invalid_image rt count images = false.
Proof.
  intros Hlen Hvalid. unfold has_invalid_image.
  destruct (existsb _ _) eqn:E; [|reflexivity].
  apply existsb_exists in E. destruct E as (i & Hi & E).
  apply in_seq in Hi. exfalso.
  assert (Hin : In (nth i images 0) (firstn (Z.to_nat count) images)).
  { replace (nth i images 0) with (nth i (firstn (Z.to_nat count) images) 0).
    - apply nth_In. rewrite length_firstn. lia.
    - rewrite nth_firstn.
      replace (i <? Z.to_nat count)%nat with true
        by (symmetry; apply Nat.ltb_lt; lia).
      reflexivity. }
  specialize (Hvalid _ Hin).
  apply orb_true_iff in E. destruct E as [E | E]; apply Z.ltb_lt in E; lia.
Qed.

(** The log of a complete exchange with a set of images. *)
Definition exchange_log (set : list Z) : list event :=
  map (fun image => Irecv (image - 1) MPI_TAG_CAF_SYNC_IMAGES) set
  ++ map (fun image => Send 0 (image - 1) MPI_TAG_CAF_SYNC_IMAGES) set
  ++ repeat Waitany (List.length set).

(** A set that passes the tests of [sync_images_internal]: the runtime has
    not been finalized, the set is not empty and not the calling image
    alone, and its [count] images are distinct images of the program. *)
Definition exchange_set (rt : runtime) (count : Z) (images : list Z) : Prop :=
  caf_is_finalized rt = 0
  /\ 0 < count
  /\ (Z.to_nat count <= List.length images)%nat
  /\ ~ (count = 1 /\ nth 0 images 0 = caf_this_image rt)
  /\ NoDup (firstn (Z.to_nat count) images)
  /\ (forall p, In p (firstn (Z.to_nat count) images) ->
                1 <= p <= caf_num_images rt).

(** With such a set the call comes to the loop that waits, with the
    receives and the messages posted. *)
Lemma sync_images_reaches_wait (count : Z) (images : list Z) (stat : option Z)
    (errmsg : list ascii) (errmsg_len : Z) (internal : bool) (rt : runtime) :
  exchange_set rt count images ->
  exists rt2,
    sync_images_internal count images stat errmsg errmsg_len internal rt
    = bind (sync_wait (firstn (Z.to_nat count) images))
        (fun ierr => sync_images_err_chk ierr stat errmsg errmsg_len internal)
        rt2
    /\ events rt2
       = events rt
         ++ (if WITH_FAILED_IMAGES cfg then [Test_alive] else [])
         ++ map (fun image => Irecv (image - 1) MPI_TAG_CAF_SYNC_IMAGES)
              (firstn (Z.to_nat count) images)
         ++ map (fun image => Send 0 (image - 1) MPI_TAG_CAF_SYNC_IMAGES)
              (firstn (Z.to_nat count) images)
    /\ memory rt2 = memory rt
    /\ arrived rt2 = arrived rt
    /\ caf_this_image rt2 = caf_this_image rt
    /\ caf_is_finalized rt2 = caf_is_finalized rt.
Proof.
  intros (Hnotfin & Hcount & Hlen & Hself & Hnd & Hvalid).
  destruct (sync_images_enter rt)
    as (rt1 & Hpre & Hme & Hn & Hfin & Hfull & Hev & Hmem).
  assert (Harr1 : arrived rt1 = arrived rt).
  { revert Hpre. destruct (WITH_FAILED_IMAGES cfg); intros H;
      inversion H; reflexivity. }
  set (set := firstn (Z.to_nat count) images) in *.
  set (rt2 := if WITH_FAILED_IMAGES cfg
              then set_events (events rt1 ++ [Test_alive]) rt1 else rt1).
  assert (Hpre2 : (if WITH_FAILED_IMAGES cfg
                   then emit Test_alive else ret tt) rt1 = Returns tt rt2).
  { unfold rt2. destruct (WITH_FAILED_IMAGES cfg); reflexivity. }
  set (log := (events rt2
               ++ map (fun image => Irecv (image - 1) MPI_TAG_CAF_SYNC_IMAGES)
                    set)
              ++ map (fun image => Send 0 (image - 1) MPI_TAG_CAF_SYNC_IMAGES)
                   set).
  assert (Htest : (count =? 0)
                  || ((count =? 1) && (nth 0 images 0 =? caf_this_image rt1))
                  = false).
  { apply orb_false_iff. split; [apply Z.eqb_neq; lia|].
    apply andb_false_iff.
    destruct (Z.eq_dec count 1) as [E | E].
    - right. apply Z.eqb_neq. rewrite Hme. intros H. apply Hself. auto.
    - left. apply Z.eqb_neq. exact E. }
  exists (set_events log rt2). split.
  - unfold sync_images_internal.
    rewrite (bind_Returns _ _ _ _ _ Hpre).
    unfold bind at 1, get_rt at 1. cbn beta iota.
    rewrite Htest, (has_duplicate_NoDup count images Hlen Hnd).
    rewrite (has_invalid_image_valid rt1 count images Hlen)
      by (rewrite Hn; exact Hvalid).
    rewrite andb_false_r. unfold bind at 1, ret at 1. cbn beta iota.
    rewrite Hfin, Hnotfin. cbn [Z.eqb negb].
    unfold sync_set.
    replace (count =? -1) with false by (symmetry; apply Z.eqb_neq; lia).
    cbn beta iota.
    assert (Hexch : sync_exchange count images rt2
                    = sync_wait set (set_events log rt2)).
    { unfold sync_exchange. fold set.
      unfold bind at 1. rewrite for_each_emit. cbn beta iota.
      unfold bind at 1. rewrite for_each_emit. cbn beta iota.
      autorewrite with rt_events. reflexivity. }
    unfold bind at 1. unfold bind at 1. rewrite Hpre2. rewrite Hexch.
    reflexivity.
  - autorewrite with rt. unfold log, rt2.
    destruct (WITH_FAILED_IMAGES cfg); autorewrite with rt;
      rewrite ?Hev, ?Hmem, ?Harr1, ?Hme, ?Hfin;
      repeat rewrite <- app_assoc; repeat split; reflexivity.
Qed.

(** X1.  [sync_images] on a set of [count] distinct valid images, not the
    empty set and not the calling image alone, on a runtime that has not
    been finalized: when every image of the set answers and none has
    stopped, the call returns with [stat] 0 and [errmsg] as it was, having
    posted one receive for each image, then sent one message to each, then
    waited once for each, in the order of the set; the memory is not
    touched and the answers are in [arrived].  The failed-image code is
    not 0. *)
Theorem sync_images_completes :
  forall (count : Z) (images : list Z) (stat : option Z) (errmsg : list ascii)
         (errmsg_len : Z) (internal : bool) (rt : runtime),
    STAT_FAILED_IMAGE <> 0 ->
    exchange_set rt count images ->
    all_arrive (firstn (Z.to_nat count) images) ->
    exists rt',
      sync_images_internal count images stat errmsg errmsg_len internal rt
      = Returns (option_map (fun _ => 0) stat, errmsg) rt'
      /\ events rt'
         = events rt
           ++ (if WITH_FAILED_IMAGES cfg then [Test_alive] else [])
           ++ exchange_log (firstn (Z.to_nat count) images)
      /\ memory rt' = memory rt
      /\ arrived rt'
         = fold_left (fun a p => Zset a (p - 1) (arrival p))
             (firstn (Z.to_nat count) images) (arrived rt).
Proof.
  intros count images stat errmsg errmsg_len internal rt Hf0 Hset Hall.
  destruct (sync_images_reaches_wait count images stat errmsg errmsg_len
              internal rt Hset)
    as (rt2 & Hrun & Hev2 & Hmem2 & Harr2 & _).
  destruct (sync_wait_all_arrive _ rt2 Hall)
    as (rt3 & Hwait & Hev3 & Hmem3 & Hfin3 & Harr3).
  rewrite Hrun, (bind_Returns _ _ _ _ _ Hwait).
  unfold sync_images_err_chk, MPI_SUCCESS.
  assert (Hlog : events rt3
                 = events rt
                   ++ (if WITH_FAILED_IMAGES cfg then [Test_alive] else [])
                   ++ exchange_log (firstn (Z.to_nat count) images)).
  { rewrite Hev3, Hev2. unfold exchange_log.
    repeat rewrite <- app_assoc. reflexivity. }
  assert (Hf0' : (0 =? STAT_FAILED_IMAGE) = false)
    by (apply Z.eqb_neq; auto).
  destruct (WITH_FAILED_IMAGES cfg) eqn:EWF; run; rewrite ?Hf0';
    cbn [negb andb]; rewrite ?Z.eqb_refl;
    destruct stat as [s|]; cbn [andb negb option_map]; cbn beta iota;
    eexists; (split; [reflexivity|]); autorewrite with rt;
    (split; [exact Hlog|]); (split; [congruence|]);
    rewrite Harr3, Harr2; reflexivity.
Qed.

(** The wait loop ends at the first answer that carries the stopped-image
    code. *)
Lemma sync_wait_stopped (before after : list Z) (p : Z) (rt : runtime) :
  all_arrive before ->
  sync_peer (p - 1) = Completed STAT_STOPPED_IMAGE ->
  exists rt',
    sync_wait (before ++ p :: after) rt = Returns STAT_STOPPED_IMAGE rt'
    /\ events rt' = events rt ++ repeat Waitany (S (List.length before))
    /\ memory rt' = memory rt
    /\ caf_this_image rt' = caf_this_image rt
    /\ caf_is_finalized rt' = caf_is_finalized rt.
Proof.
  revert rt. induction before as [|image before IH]; intros rt Hall Hp.
  - cbn [app sync_wait]. unfold bind at 1. rewrite emit_run. cbn beta iota.
    rewrite Hp. unfold bind at 1, modify at 1. cbn beta iota.
    rewrite Z.eqb_refl. eexists. split; [reflexivity|].
    autorewrite with rt. repeat split; reflexivity.
  - destruct (Hall image (or_introl eq_refl)) as (value & Hv & Hns).
    assert (Hrest : all_arrive before).
    { intros q Hq. apply Hall. right. exact Hq. }
    cbn [app sync_wait]. unfold bind at 1. rewrite emit_run. cbn beta iota.
    rewrite Hv. unfold bind at 1, modify at 1. cbn beta iota.
    apply Z.eqb_neq in Hns. rewrite Hns.
    destruct (IH (set_arrived
                    (Zset (arrived (set_events (events rt ++ [Waitany]) rt))
                       (image - 1) value)
                    (set_events (events rt ++ [Waitany]) rt)) Hrest Hp)
      as (rt' & Hrun & Hev & Hmem & Hme & Hfin).
    exists rt'. split; [exact Hrun|].
    autorewrite with rt in Hev, Hmem, Hme, Hfin.
    split; [|auto].
    rewrite Hev, <- app_assoc. reflexivity.
Qed.

(** The code after [sync_images_err_chk:] for an error code other than
    the failed-image code. *)
Lemma sync_images_err_chk_failure (ierr : Z) (stat : option Z)
    (errmsg : list ascii) (errmsg_len : Z) (internal : bool) (rt : runtime) :
  ierr <> 0 ->
  ierr <> STAT_FAILED_IMAGE ->
  let rt1 := if WITH_FAILED_IMAGES cfg
             then set_no_stopped_images_check false rt else rt in
  let msg := if negb (caf_is_finalized rt =? 0)
             then "SYNC IMAGES failed - there are stopped images"%string
             else "SYNC IMAGES failed"%string in
  sync_images_err_chk ierr stat errmsg errmsg_len internal rt
  = if errmsg_len >? 0
    then Returns (option_map (fun _ => ierr) stat,
                  write_errmsg msg errmsg errmsg_len) rt1
    else if negb internal
            && match stat with None => true | Some _ => false end
    then Exits EXIT_FAILURE
           (set_events
              (events rt ++ [Stderr_runtime_error (caf_this_image rt) msg])
              rt1)
    else Returns (option_map (fun _ => ierr) stat, errmsg) rt1.
Proof.
  intros H0 Hf rt1 msg.
  apply Z.eqb_neq in H0, Hf.
  assert (Hpre : (if WITH_FAILED_IMAGES cfg
                  then modify (set_no_stopped_images_check false) else ret tt) rt
                 = Returns tt rt1).
  { unfold rt1. destruct (WITH_FAILED_IMAGES cfg); reflexivity. }
  assert (Hsame : caf_is_finalized rt1 = caf_is_finalized rt
                  /\ caf_this_image rt1 = caf_this_image rt
                  /\ events rt1 = events rt).
  { unfold rt1. destruct (WITH_FAILED_IMAGES cfg); auto. }
  destruct Hsame as (Hfin & Hme & Hev).
  unfold sync_images_err_chk.
  rewrite (bind_Returns _ _ _ _ _ Hpre).
  rewrite Hf, andb_false_r, H0. cbn [negb andb].
  destruct stat as [s|]; unfold bind at 1, ret at 1; cbn beta iota;
    unfold bind at 1, get_rt at 1; cbn beta iota; rewrite Hfin; fold msg;
    destruct (errmsg_len >? 0); try reflexivity.
  - rewrite andb_false_r. reflexivity.
  - destruct internal; cbn [negb andb]; [reflexivity|].
    unfold caf_runtime_error. unfold bind at 1, get_rt at 1. cbn beta iota.
    unfold bind at 1. rewrite emit_run. cbn beta iota.
    rewrite Hme, Hev. reflexivity.
Qed.

(** X2.  [sync_images] on such a set, when an image of the set answers
    with the stopped-image code and the images before it in the set have
    answered: the call stops waiting at that answer and reports
    [STAT_STOPPED_IMAGE] in [stat].  With [errmsg_len > 0] the message
    "SYNC IMAGES failed", followed by spaces, fills [errmsg], with or
    without [stat], and the call returns; with no room for a message and
    no [stat], a call from the program ends the image with a runtime
    error.  The stopped-image code is neither 0 nor the failed-image
    code. *)
Theorem sync_images_stopped_peer :
  forall (count : Z) (images before after : list Z) (p : Z) (stat : option Z)
         (errmsg : list ascii) (errmsg_len : Z) (internal : bool)
         (rt : runtime),
    STAT_STOPPED_IMAGE <> 0 ->
    STAT_STOPPED_IMAGE <> STAT_FAILED_IMAGE ->
    exchange_set rt count images ->
    firstn (Z.to_nat count) images = before ++ p :: after ->
    all_arrive before ->
    sync_peer (p - 1) = Completed STAT_STOPPED_IMAGE ->
    List.length errmsg = Z.to_nat errmsg_len ->
    let log :=
      events rt
      ++ (if WITH_FAILED_IMAGES cfg then [Test_alive] else [])
      ++ map (fun image => Irecv (image - 1) MPI_TAG_CAF_SYNC_IMAGES)
           (before ++ p :: after)
      ++ map (fun image => Send 0 (image - 1) MPI_TAG_CAF_SYNC_IMAGES)
           (before ++ p :: after)
      ++ repeat Waitany (S (List.length before)) in
    let o :=
      sync_images_internal count images stat errmsg errmsg_len internal rt in
    if (errmsg_len >? 0) || internal
       || match stat with Some _ => true | None => false end
    then
      o = Returns
            (option_map (fun _ => STAT_STOPPED_IMAGE) stat,
             if errmsg_len >? 0
             then padded "SYNC IMAGES failed" errmsg_len else errmsg)
            (final_state o)
      /\ events (final_state o) = log
    else
      o = Exits EXIT_FAILURE (final_state o)
      /\ events (final_state o)
         = log ++ [Stderr_runtime_error (caf_this_image rt)
                     "SYNC IMAGES failed"].
Proof.
  intros count images before after p stat errmsg errmsg_len internal rt
    Hs0 Hsf Hset Hsplit Hall Hp Hbuf log o.
  destruct (sync_images_reaches_wait count images stat errmsg errmsg_len
              internal rt Hset)
    as (rt2 & Hrun & Hev2 & Hmem2 & Harr2 & Hme2 & Hfin2).
  rewrite Hsplit in Hrun, Hev2.
  destruct (sync_wait_stopped before after p rt2 Hall Hp)
    as (rt3 & Hwait & Hev3 & Hmem3 & Hme3 & Hfin3).
  rewrite (bind_Returns _ _ _ _ _ Hwait) in Hrun.
  assert (Hlog : events rt3 = log).
  { rewrite Hev3, Hev2. unfold log. repeat rewrite <- app_assoc.
    reflexivity. }
  assert (Hnotfin : caf_is_finalized rt3 = 0).
  { rewrite Hfin3, Hfin2. apply Hset. }
  assert (Hmsg : (errmsg_len >? 0) = true ->
                 write_errmsg "SYNC IMAGES failed" errmsg errmsg_len
                 = padded "SYNC IMAGES failed" errmsg_len).
  { intros H. rewrite Z.gtb_ltb in H. apply Z.ltb_lt in H.
    apply write_errmsg_padded; [lia | exact Hbuf | vm_compute; reflexivity]. }
  assert (Ho : o = sync_images_err_chk STAT_STOPPED_IMAGE stat errmsg
                     errmsg_len internal rt3) by exact Hrun.
  clearbody o. clear Hrun.
  rewrite (sync_images_err_chk_failure _ stat errmsg errmsg_len internal rt3
             Hs0 Hsf) in Ho.
  rewrite Hnotfin in Ho. cbn [Z.eqb negb] in Ho.
  assert (Hev1 : events (if WITH_FAILED_IMAGES cfg
                         then set_no_stopped_images_check false rt3 else rt3)
                 = log).
  { destruct (WITH_FAILED_IMAGES cfg); autorewrite with rt; exact Hlog. }
  destruct (errmsg_len >? 0) eqn:El; cbn [orb].
  - rewrite (Hmsg eq_refl) in Ho. subst o. simpl final_state.
    split; [reflexivity | exact Hev1].
  - destruct internal; cbn [negb andb orb] in *.
    + subst o. simpl final_state. split; [reflexivity | exact Hev1].
    + destruct stat as [s|]; subst o; simpl final_state.
      * split; [reflexivity | exact Hev1].
      * split; [reflexivity|]. autorewrite with rt.
        rewrite Hlog, Hme3, Hme2. reflexivity.
Qed.

(** *** Locks: acquiring, trying and waiting *)

Lemma int32_of_bytes_of_int32 (v : Z) :
  - 2 ^ 31 <= v < 2 ^ 31 -> Mem.int32_of_bytes (Mem.bytes_of_int32 v) = v.
Proof.
  intros H. unfold Mem.int32_of_bytes, Mem.bytes_of_int32. cbn [nth].
  replace (v / 65536) with (v / 256 / 256)
    by (rewrite Z.div_div by lia; reflexivity).
  replace (v / 16777216) with (v / 256 / 256 / 256)
    by (rewrite !Z.div_div by lia; reflexivity).
  set (q1 := v / 256). set (q2 := q1 / 256). set (q3 := q2 / 256).
  pose proof (Z.div_mod v 256 ltac:(lia)) as E0. fold q1 in E0.
  pose proof (Z.div_mod q1 256 ltac:(lia)) as E1. fold q2 in E1.
  pose proof (Z.div_mod q2 256 ltac:(lia)) as E2. fold q3 in E2.
  pose proof (Z.div_mod q3 256 ltac:(lia)) as E3.
  pose proof (Z.mod_pos_bound v 256 ltac:(lia)) as B0.
  pose proof (Z.mod_pos_bound q1 256 ltac:(lia)) as B1.
  pose proof (Z.mod_pos_bound q2 256 ltac:(lia)) as B2.
  pose proof (Z.mod_pos_bound q3 256 ltac:(lia)) as B3.
  unfold to_int, signed.
  replace (v mod 256 + 256 * (q1 mod 256) + 65536 * (q2 mod 256)
           + 16777216 * (q3 mod 256) + 2 ^ (32 - 1))
    with (v + 2 ^ 31 + (- (q3 / 256)) * 2 ^ 32) by lia.
  rewrite Z_mod_plus_full. rewrite Z.mod_small by lia. lia.
Qed.

Lemma load_int_store_int (m : Mem.t) (a v : Z) :
  - 2 ^ 31 <= v < 2 ^ 31 -> Mem.load_int (Mem.store_int m a v) a = v.
Proof.
  intros H. unfold Mem.load_int, Mem.store_int.
  change 4%nat with (List.length (Mem.bytes_of_int32 v)).
  rewrite load_store_same. apply int32_of_bytes_of_int32. exact H.
Qed.

(** A compare-and-swap that finds the value compared with puts the new
    value in its place. *)
Lemma locking_atomic_op_swaps (win : MPI_Win) (newval compare image_index
    index : Z) (rt : runtime) :
  valid_rank rt (image_index - 1) = true ->
  Mem.load_int (memory rt (image_index - 1))
    (win_base win (image_index - 1) + to_size_t (index * sizeof_int))
  = compare ->
  locking_atomic_op win newval compare image_index index rt
  = Returns compare
      (set_events
         (events rt
          ++ [Compare_and_swap (image_index - 1)
                (to_size_t (index * sizeof_int)) (win_id win);
              Win_flush (image_index - 1) (win_id win)])
         (set_memory
            (update_rank (memory rt) (image_index - 1)
               (Mem.store_int (memory rt (image_index - 1))
                  (win_base win (image_index - 1)
                   + to_size_t (index * sizeof_int)) newval)) rt)).
Proof.
  intros Hrank Heq.
  unfold locking_atomic_op, MPI_Compare_and_swap, CAF_Win_unlock.
  unfold bind at 1 2. unfold get_rt at 1. cbn beta iota.
  rewrite Hrank. cbn [negb]. rewrite Heq, Z.eqb_refl. run.
  rewrite <- app_assoc. reflexivity.
Qed.

(** The loop that waits is left at once when the slot was found free. *)
Lemma lock_spin_free (fuel : nat) (win : MPI_Win) (image_index index i : Z) :
  lock_spin fuel win image_index index 0 i = ret tt.
Proof. destruct fuel; reflexivity. Qed.

(** The image a lock call addresses, and the state after the probe for
    failed images that opens [mutex_lock]. *)
Definition lock_image (rt : runtime) (image_index : Z) : Z :=
  if image_index =? 0 then caf_this_image rt else image_index.

Definition lock_slot (token : MPI_Win) (rt : runtime) (image_index index : Z)
  : Z :=
  win_base token (lock_image rt image_index - 1) + index * sizeof_int.

Definition lock_probe : list event :=
  if WITH_FAILED_IMAGES cfg then [Test_alive] else [].

Lemma lock_unfold (fuel : nat) (token : MPI_Win) (index image_index : Z)
    (acquired_lock stat : option Z) (errmsg : option (list ascii))
    (errmsg_len : Z) (rt : runtime) :
  0 <= index < 2 ^ 29 ->
  lock fuel token index image_index acquired_lock stat errmsg errmsg_len rt
  = bind
      (locking_atomic_op token (caf_this_image rt) 0
         (lock_image rt image_index) index)
      (fun value =>
         if (value =? caf_this_image rt)
            && (lock_image rt image_index =? caf_this_image rt)
         then
           match match stat with Some _ => Some 0 | None => None end with
           | Some _ =>
               ret (mkLocked (Some 99) acquired_lock
                      match errmsg with
                      | Some buf =>
                          Some (blank_and_copy "Already locked" buf errmsg_len)
                      | None => None
                      end)
           | None => terminate_internal 99 1
           end
         else
           match acquired_lock with
           | Some _ =>
               ret (mkLocked
                      match stat with Some _ => Some 0 | None => None end
                      (Some (if value =? 0 then 1 else 0)) errmsg)
           | None =>
               lock_spin fuel token (lock_image rt image_index) index value 0 ;;;
               match match stat with Some _ => Some 0 | None => None end with
               | Some _ => ret (mkLocked (Some 0) acquired_lock errmsg)
               | None =>
                   if 0 =? STAT_FAILED_IMAGE
                   then terminate_internal 0 0
                   else ret (mkLocked None acquired_lock errmsg)
               end
           end)
      (set_events (events rt ++ lock_probe) rt).
Proof.
  intros Hindex.
  assert (Hint : to_int index = index) by (apply to_int_small; lia).
  unfold lock. unfold bind at 1, get_rt at 1. cbn beta iota.
  fold (lock_image rt image_index). rewrite Hint.
  unfold mutex_lock, lock_probe. cbv zeta.
  destruct (WITH_FAILED_IMAGES cfg).
  - unfold bind at 1. rewrite emit_run. cbn beta iota.
    unfold bind at 1, get_rt at 1. cbn beta iota.
    autorewrite with rt. destruct stat; reflexivity.
  - unfold bind at 1, ret at 1. cbn beta iota.
    unfold bind at 1, get_rt at 1. cbn beta iota.
    rewrite app_nil_r.
    replace (set_events (events rt) rt) with rt by (destruct rt; reflexivity).
    destruct stat; reflexivity.
Qed.

(** X3.  [lock] on a slot that holds 0: the compare-and-swap puts the
    index of the calling image into the slot, and the call returns at once
    with [stat] 0 and, if [acquired_lock] was asked for, with
    [acquired_lock] 1; no other byte of any image changes, and the loop
    that waits is not entered, whatever the fuel.  The failed-image code
    is not 0. *)
Theorem lock_free_slot_acquires :
  forall (fuel : nat) (token : MPI_Win) (index image_index : Z)
         (acquired_lock stat : option Z) (errmsg : option (list ascii))
         (errmsg_len : Z) (rt : runtime),
    STAT_FAILED_IMAGE <> 0 ->
    1 <= caf_this_image rt < 2 ^ 31 ->
    1 <= lock_image rt image_index <= caf_num_images rt ->
    0 <= index < 2 ^ 29 ->
    Mem.load_int (memory rt (lock_image rt image_index - 1))
      (lock_slot token rt image_index index) = 0 ->
    exists rt',
      lock fuel token index image_index acquired_lock stat errmsg errmsg_len
        rt
      = Returns
          (mkLocked (option_map (fun _ => 0) stat)
             (option_map (fun _ => 1) acquired_lock) errmsg) rt'
      /\ memory rt'
         = update_rank (memory rt) (lock_image rt image_index - 1)
             (Mem.store_int (memory rt (lock_image rt image_index - 1))
                (lock_slot token rt image_index index) (caf_this_image rt))
      /\ Mem.load_int (memory rt' (lock_image rt image_index - 1))
           (lock_slot token rt image_index index)
         = caf_this_image rt
      /\ events rt'
         = events rt ++ lock_probe
           ++ [Compare_and_swap (lock_image rt image_index - 1)
                 (index * sizeof_int) (win_id token);
               Win_flush (lock_image rt image_index - 1) (win_id token)].
Proof.
  intros fuel token index image_index acquired_lock stat errmsg errmsg_len rt
    Hf0 Hthis Hdest Hindex Hfree.
  unfold lock_slot in *.
  assert (Hdisp : to_size_t (index * sizeof_int) = index * sizeof_int).
  { apply to_size_t_small. unfold sizeof_int. lia. }
  rewrite lock_unfold by exact Hindex.
  assert (Hvr : valid_rank (set_events (events rt ++ lock_probe) rt)
                  (lock_image rt image_index - 1) = true).
  { unfold valid_rank. autorewrite with rt.
    apply andb_true_iff. split; [apply Z.leb_le | apply Z.ltb_lt]; lia. }
  assert (Hop := locking_atomic_op_swaps token (caf_this_image rt) 0
                   (lock_image rt image_index) index _ Hvr).
  rewrite Hdisp in Hop. autorewrite with rt in Hop.
  rewrite (bind_Returns _ _ _ _ _ (Hop Hfree)).
  replace (0 =? caf_this_image rt) with false
    by (symmetry; apply Z.eqb_neq; lia).
  cbn [andb].
  replace (0 =? STAT_FAILED_IMAGE) with false
    by (symmetry; apply Z.eqb_neq; auto).
  rewrite lock_spin_free.
  destruct acquired_lock as [a|]; destruct stat as [s|];
    cbn [Z.eqb]; run; cbn [option_map];
    (eexists; split; [reflexivity|]); autorewrite with rt;
    (split; [reflexivity|]);
    (split; [rewrite update_rank_same; apply load_int_store_int; lia|]);
    rewrite <- app_assoc; reflexivity.
Qed.

(** X4.  [lock] with [acquired_lock] asked for, on a slot held by another
    image than the one that would make the call a lock on itself: the call
    returns at once with [acquired_lock] 0 and [stat] 0, without waiting
    and without changing any memory. *)
Theorem try_lock_on_held_slot_returns :
  forall (fuel : nat) (token : MPI_Win) (index image_index holder a : Z)
         (stat : option Z) (errmsg : option (list ascii)) (errmsg_len : Z)
         (rt : runtime),
    1 <= lock_image rt image_index <= caf_num_images rt ->
    0 <= index < 2 ^ 29 ->
    Mem.load_int (memory rt (lock_image rt image_index - 1))
      (lock_slot token rt image_index index) = holder ->
    holder <> 0 ->
    ~ (holder = caf_this_image rt
       /\ lock_image rt image_index = caf_this_image rt) ->
    exists rt',
      lock fuel token index image_index (Some a) stat errmsg errmsg_len rt
      = Returns (mkLocked (option_map (fun _ => 0) stat) (Some 0) errmsg) rt'
      /\ memory rt' = memory rt
      /\ events rt'
         = events rt ++ lock_probe
           ++ [Compare_and_swap (lock_image rt image_index - 1)
                 (index * sizeof_int) (win_id token);
               Win_flush (lock_image rt image_index - 1) (win_id token)].
Proof.
  intros fuel token index image_index holder a stat errmsg errmsg_len rt
    Hdest Hindex Hheld Hne Hnotself.
  unfold lock_slot in *.
  assert (Hdisp : to_size_t (index * sizeof_int) = index * sizeof_int).
  { apply to_size_t_small. unfold sizeof_int. lia. }
  rewrite lock_unfold by exact Hindex.
  assert (Hvr : valid_rank (set_events (events rt ++ lock_probe) rt)
                  (lock_image rt image_index - 1) = true).
  { unfold valid_rank. autorewrite with rt.
    apply andb_true_iff. split; [apply Z.leb_le | apply Z.ltb_lt]; lia. }
  assert (Hop := locking_atomic_op_held token (caf_this_image rt) 0
                   (lock_image rt image_index) index _ Hvr).
  rewrite Hdisp in Hop. autorewrite with rt in Hop. rewrite Hheld in Hop.
  rewrite (bind_Returns _ _ _ _ _ (Hop Hne)).
  replace ((holder =? caf_this_image rt)
           && (lock_image rt image_index =? caf_this_image rt))
    with false.
  - replace (holder =? 0) with false by (symmetry; apply Z.eqb_neq; auto).
    destruct stat as [s|]; run; cbn [option_map];
      (eexists; split; [reflexivity|]); autorewrite with rt;
      (split; [reflexivity|]); rewrite <- app_assoc; reflexivity.
  - symmetry. apply andb_false_iff.
    destruct (Z.eq_dec holder (caf_this_image rt)) as [E | E].
    + right. apply Z.eqb_neq. intros E'. apply Hnotself. auto.
    + left. apply Z.eqb_neq. exact E.
Qed.




(** X6.  A blocking [lock] on a slot held by another image, which the
    other images have set to 0 by the time of the second attempt: that
    attempt puts the index of the calling image into the slot and the
    call returns with [stat] 0.  The failed-image code is not 0. *)
Theorem blocking_lock_acquires_after_release :
  forall (fuel : nat) (token : MPI_Win) (index image_index holder : Z)
         (stat : option Z) (errmsg : option (list ascii)) (errmsg_len : Z)
         (rt : runtime),
    STAT_FAILED_IMAGE <> 0 ->
    1 <= caf_this_image rt < 2 ^ 31 ->
    1 <= lock_image rt image_index <= caf_num_images rt ->
    0 <= index < 2 ^ 29 ->
    Mem.load_int (memory rt (lock_image rt image_index - 1))
      (lock_slot token rt image_index index) = holder ->
    holder <> 0 ->
    ~ (holder = caf_this_image rt
       /\ lock_image rt image_index = caf_this_image rt) ->
    Mem.load_int (peers fuel (memory rt) (lock_image rt image_index - 1))
      (lock_slot token rt image_index index) = 0 ->
    exists rt',
      lock (S fuel) token index image_index None stat errmsg errmsg_len rt
      = Returns (mkLocked (option_map (fun _ => 0) stat) None errmsg) rt'
      /\ memory rt'
         = update_rank (peers fuel (memory rt))
             (lock_image rt image_index - 1)
             (Mem.store_int
                (peers fuel (memory rt) (lock_image rt image_index - 1))
                (lock_slot token rt image_index index) (caf_this_image rt))
      /\ Mem.load_int (memory rt' (lock_image rt image_index - 1))
           (lock_slot token rt image_index index)
         = caf_this_image rt.
Proof.
  intros fuel token index image_index holder stat errmsg errmsg_len rt
    Hf0 Hthis Hdest Hindex Hheld Hne Hnotself Hreleased.
  unfold lock_slot in *.
  assert (Hdisp : to_size_t (index * sizeof_int) = index * sizeof_int).
  { apply to_size_t_small. unfold sizeof_int. lia. }
  rewrite lock_unfold by exact Hindex.
  assert (Hvr : valid_rank (set_events (events rt ++ lock_probe) rt)
                  (lock_image rt image_index - 1) = true).
  { unfold valid_rank. autorewrite with rt.
    apply andb_true_iff. split; [apply Z.leb_le | apply Z.ltb_lt]; lia. }
  assert (Hop := locking_atomic_op_held token (caf_this_image rt) 0
                   (lock_image rt image_index) index _ Hvr).
  autorewrite with rt in Hop. rewrite Hdisp, Hheld in Hop.
  rewrite (bind_Returns _ _ _ _ _ (Hop Hne)). clear Hop.
  replace ((holder =? caf_this_image rt)
           && (lock_image rt image_index =? caf_this_image rt))
    with false.
  2:{ symmetry. apply andb_false_iff.
      destruct (Z.eq_dec holder (caf_this_image rt)) as [E | E].
      - right. apply Z.eqb_neq. intros E'. apply Hnotself. auto.
      - left. apply Z.eqb_neq. exact E. }
  match goal with
  | |- exists rt', bind (lock_spin _ _ _ _ _ _) _ ?r = _ /\ _ =>
      set (rt1 := r)
  end.
  set (rt2 := set_memory (peers fuel (memory rt1)) rt1).
  assert (Hvr2 : valid_rank rt2 (lock_image rt image_index - 1) = true)
    by exact Hvr.
  assert (Hop := locking_atomic_op_swaps token (caf_this_image rt) 0
                   (lock_image rt image_index) index rt2 Hvr2).
  rewrite Hdisp in Hop.
  assert (Hmem2 : memory rt2 = peers fuel (memory rt)) by reflexivity.
  rewrite Hmem2 in Hop. specialize (Hop Hreleased).
  assert (Hspin : exists rt',
             lock_spin (S fuel) token (lock_image rt image_index) index
               holder 0 rt1 = Returns tt rt'
             /\ memory rt'
                = update_rank (peers fuel (memory rt))
                    (lock_image rt image_index - 1)
                    (Mem.store_int
                       (peers fuel (memory rt)
                          (lock_image rt image_index - 1))
                       (win_base token (lock_image rt image_index - 1)
                        + index * sizeof_int) (caf_this_image rt))).
  { cbn [lock_spin].
    replace (holder =? 0) with false by (symmetry; apply Z.eqb_neq; auto).
    cbv zeta. change (0 + 1 =? 100) with false.
    assert (Hi : (if WITH_FAILED_IMAGES cfg then ret 1 else ret 1) rt1
                 = Returns 1 rt1)
      by (destruct (WITH_FAILED_IMAGES cfg); reflexivity).
    change (0 + 1) with 1.
    rewrite (bind_Returns _ _ _ _ _ Hi).
    unfold bind at 1, modify at 1. cbn beta iota. fold rt2.
    unfold bind at 1, get_rt at 1. cbn beta iota.
    change (caf_this_image rt2) with (caf_this_image rt).
    rewrite (bind_Returns _ _ _ _ _ Hop).
    rewrite lock_spin_free.
    destruct (WITH_FAILED_IMAGES cfg).
    - destruct (Znth (image_stati rt2) 0 =? STAT_FAILED_IMAGE).
      + unfold MPI_Compare_and_swap, CAF_Win_unlock.
        unfold bind at 1 2, get_rt at 1. cbn beta iota.
        replace (valid_rank _ (lock_image rt image_index - 1)) with true
          by (symmetry; exact Hvr).
        cbn [negb]. autorewrite with rt. rewrite update_rank_same, Hdisp.
        rewrite load_int_store_int by lia.
        replace (caf_this_image rt =? 0) with false
          by (symmetry; apply Z.eqb_neq; lia).
        run. eexists. split; [reflexivity|]. autorewrite with rt.
        reflexivity.
      + unfold ret. eexists. split; [reflexivity|]. autorewrite with rt.
        reflexivity.
    - unfold bind at 1. rewrite emit_run. cbn beta iota.
      unfold ret. eexists. split; [reflexivity|]. autorewrite with rt.
      reflexivity. }
  destruct Hspin as (rt' & Hspin & Hmem').
  rewrite (bind_Returns _ _ _ _ _ Hspin).
  replace (0 =? STAT_FAILED_IMAGE) with false
    by (symmetry; apply Z.eqb_neq; auto).
  exists rt'. split; [destruct stat; reflexivity|].
  split; [exact Hmem'|].
  rewrite Hmem', update_rank_same. apply load_int_store_int. lia.
Qed.

(** *** Unlocking *)

(** Data movement of [MPI_Fetch_and_op] when origin and result are
    variables of the calling function: the answer is the bytes found at
    the target, which receives their combination with the origin.  A
    datatype that was never set is an erroneous call. *)
Definition rma_fetch_and_op (origin : list Z) (dt : option MPI_Datatype)
    (target_rank target_disp : Z) (op : MPI_Op) (win : MPI_Win)
  : M (list Z) :=
  rt <- get_rt ;;
  match dt with
  | None => mpi_fatal
  | Some dt =>
      if negb (valid_rank rt target_rank)
      then mpi_fatal
      else
        let n := Z.to_nat (MPI_Type_size dt) in
        let addr := win_base win target_rank + target_disp in
        let found := Mem.load (memory rt target_rank) addr n in
        modify (set_memory
                  (update_rank (memory rt) target_rank
                     (Mem.store (memory rt target_rank) addr
                        (firstn n (mpi_reduce op dt found origin))))) ;;;
        emit (Fetch_and_op op target_rank target_disp (win_id win)) ;;;
        ret found
  end.

(** [mutex_unlock]: the test [if (value == 0) goto stat_error;] is
    commented out in the source, so the block after [stat_error:], which
    would write "Variable is not locked", is never reached and [errmsg]
    is handed back as it came. *)
Definition mutex_unlock (win : MPI_Win) (image_index index : Z)
    (stat : option Z) (errmsg : option (list ascii)) (errmsg_len : Z)
  : M (option Z * option (list ascii)) :=
  let ierr := 0 in
  let newval := 0 in
  let stat := match stat with Some _ => Some 0 | None => None end in
  (if WITH_FAILED_IMAGES cfg then emit Test_alive else ret tt) ;;;
  _ <- rma_fetch_and_op (Mem.bytes_of_int32 newval) (Some MPI_INT)
         (image_index - 1) (to_size_t (index * sizeof_int)) MPI_REPLACE win ;;
  CAF_Win_unlock (image_index - 1) (win_id win) ;;;
  match stat with
  | Some _ => ret (Some ierr, errmsg)
  | None =>
      if ierr =? STAT_FAILED_IMAGE
      then terminate_internal ierr 0
      else ret (None, errmsg)
  end.

(** [PREFIX (unlock)] *)
Definition unlock (token : MPI_Win) (index image_index : Z)
    (stat : option Z) (errmsg : option (list ascii)) (errmsg_len : Z)
  : M (option Z * option (list ascii)) :=
  rt <- get_rt ;;
  let dest_img :=
    if image_index =? 0 then caf_this_image rt else image_index in
  mutex_unlock token dest_img (to_int index) stat errmsg errmsg_len.

(** The transport's [MPI_REPLACE] puts the origin in the place of the
    target, and its [MPI_NO_OP] leaves the target as it is. *)
Definition replace_is_origin : Prop :=
  forall dt found origin, mpi_reduce MPI_REPLACE dt found origin = origin.

Definition no_op_is_target : Prop :=
  forall dt found origin, mpi_reduce MPI_NO_OP dt found origin = found.

(** X7.  [unlock] puts 0 into the slot it addresses and returns with
    [stat] 0, whatever the slot held before: the index of the calling
    image, the index of another image, or 0.  No error is reported for a
    slot that was not locked, and [errmsg] is not written.  The
    failed-image code is not 0. *)
Theorem unlock_clears_slot :
  forall (token : MPI_Win) (index image_index : Z) (stat : option Z)
         (errmsg : option (list ascii)) (errmsg_len : Z) (rt : runtime),
    replace_is_origin ->
    STAT_FAILED_IMAGE <> 0 ->
    1 <= lock_image rt image_index <= caf_num_images rt ->
    0 <= index < 2 ^ 29 ->
    exists rt',
      unlock token index image_index stat errmsg errmsg_len rt
      = Returns (option_map (fun _ => 0) stat, errmsg) rt'
      /\ memory rt'
         = update_rank (memory rt) (lock_image rt image_index - 1)
             (Mem.store_int (memory rt (lock_image rt image_index - 1))
                (lock_slot token rt image_index index) 0)
      /\ Mem.load_int (memory rt' (lock_image rt image_index - 1))
           (lock_slot token rt image_index index) = 0
      /\ events rt'
         = events rt ++ lock_probe
           ++ [Fetch_and_op MPI_REPLACE (lock_image rt image_index - 1)
                 (index * sizeof_int) (win_id token);
               Win_flush (lock_image rt image_index - 1) (win_id token)].
Proof.
  intros token index image_index stat errmsg errmsg_len rt Hrep Hf0 Hdest
    Hindex.
  unfold lock_slot.
  assert (Hdisp : to_size_t (index * sizeof_int) = index * sizeof_int).
  { apply to_size_t_small. unfold sizeof_int. lia. }
  assert (Hint : to_int index = index) by (apply to_int_small; lia).
  assert (Hvr : valid_rank rt (lock_image rt image_index - 1) = true).
  { unfold valid_rank.
    apply andb_true_iff. split; [apply Z.leb_le | apply Z.ltb_lt]; lia. }
  assert (Hf0' : (0 =? STAT_FAILED_IMAGE) = false)
    by (apply Z.eqb_neq; auto).
  unfold unlock. unfold bind at 1, get_rt at 1. cbn beta iota.
  fold (lock_image rt image_index). rewrite Hint.
  unfold mutex_unlock, rma_fetch_and_op, CAF_Win_unlock, lock_probe.
  cbv zeta. rewrite Hdisp, Hf0'.
  destruct (WITH_FAILED_IMAGES cfg); run;
    unfold valid_rank in *; autorewrite with rt; rewrite Hvr; cbn [negb];
    run; rewrite Hrep;
    destruct stat as [s|]; cbn [option_map];
    (eexists; split; [reflexivity|]); autorewrite with rt;
    (split; [reflexivity|]);
    (split; [rewrite update_rank_same; apply load_int_store_int; lia|]);
    repeat rewrite <- app_assoc; reflexivity.
Qed.

(** *** Synchronising all images *)

(** What [MPI_Barrier] answers in [sync_all], and the class
    [MPI_Error_class] gives an error code. *)
Variable barrier_result : Z.
Variable MPI_Error_class : Z -> Z.

(** [PREFIX (sync_all)]; the block that would write [errmsg] is commented
    out in the source, so [errmsg] is handed back as it came.  With
    failed-image support the barrier is on [alive_comm]. *)
Definition sync_all (stat : option Z) (errmsg : list ascii) (errmsg_len : Z)
  : M (option Z * list ascii) :=
  rt <- get_rt ;;
  ierr <- (if negb (caf_is_finalized rt =? 0)
           then ret STAT_STOPPED_IMAGE
           else
             emit Barrier ;;;
             let mpi_err := barrier_result in
             if mpi_err =? STAT_FAILED_IMAGE then ret STAT_FAILED_IMAGE
             else if negb (mpi_err =? 0) then ret (MPI_Error_class mpi_err)
             else ret 0) ;;
  match stat with
  | Some _ => ret (Some ierr, errmsg)
  | None =>
      if WITH_FAILED_IMAGES cfg && (ierr =? STAT_FAILED_IMAGE)
      then terminate_internal ierr 0
      else ret (None, errmsg)
  end.

(** X8.  [sync_all] on a finalized runtime reports [STAT_STOPPED_IMAGE] in
    [stat] without entering the barrier, and without a [stat] it returns
    all the same: no runtime error is raised and no message is written.
    On a runtime that has not been finalized it enters the barrier once,
    and a barrier that answers 0 gives [stat] 0.  The failed-image code is
    neither 0 nor the stopped-image code. *)
Theorem sync_all_reports :
  forall (stat : option Z) (errmsg : list ascii) (errmsg_len : Z)
         (rt : runtime),
    STAT_FAILED_IMAGE <> 0 ->
    STAT_STOPPED_IMAGE <> STAT_FAILED_IMAGE ->
    (caf_is_finalized rt <> 0 ->
     sync_all stat errmsg errmsg_len rt
     = Returns (option_map (fun _ => STAT_STOPPED_IMAGE) stat, errmsg) rt)
    /\ (caf_is_finalized rt = 0 ->
        barrier_result = 0 ->
        sync_all stat errmsg errmsg_len rt
        = Returns (option_map (fun _ => 0) stat, errmsg)
            (set_events (events rt ++ [Barrier]) rt)).
Proof.
  intros stat errmsg errmsg_len rt Hf0 Hsf.
  apply Z.eqb_neq in Hsf.
  assert (Hf0' : (0 =? STAT_FAILED_IMAGE) = false)
    by (apply Z.eqb_neq; auto).
  unfold sync_all. split.
  - intros Hfin. apply Z.eqb_neq in Hfin.
    unfold bind at 1, get_rt at 1. cbn beta iota. rewrite Hfin. cbn [negb].
    unfold bind at 1, ret at 1. cbn beta iota.
    rewrite Hsf, andb_false_r. destruct stat; reflexivity.
  - intros Hfin Hb.
    unfold bind at 1, get_rt at 1. cbn beta iota.
    rewrite Hfin, Hb, Hf0'. cbn [Z.eqb negb].
    unfold bind at 1. unfold bind at 1. rewrite emit_run. cbn beta iota.
    unfold ret at 1. cbn beta iota.
    rewrite Hf0', andb_false_r. destruct stat; reflexivity.
Qed.

(** *** Taking the runtime down *)

Lemma map_nth_seq {A B} (f : A -> B) (l : list A) (d : A) :
  map (fun i => f (nth i l d)) (seq 0 (List.length l)) = map f l.
Proof.
  induction l as [|a l IH]; [reflexivity|].
  cbn [List.length seq map nth]. f_equal.
  rewrite <- seq_shift, map_map. exact IH.
Qed.

(** The announcement of a status word to every other image. *)
Definition announcement (rt : runtime) (status : Z) : list event :=
  map (fun p => Send status (p - 1) MPI_TAG_CAF_SYNC_IMAGES)
    (init_images_full (caf_this_image rt) (caf_num_images rt)).

Lemma announce_status_log (rt0 rt : runtime) :
  initialised rt0 ->
  caf_this_image rt = caf_this_image rt0 ->
  caf_num_images rt = caf_num_images rt0 ->
  images_full rt = images_full rt0 ->
  announce_status rt
  = Returns tt
      (set_events (events rt ++ announcement rt0 (img_status rt)) rt).
Proof.
  intros [Hthis Htable] Hme Hn Hfull.
  unfold announce_status. unfold bind at 1, get_rt at 1. cbn beta iota.
  rewrite for_each_emit. f_equal. f_equal. f_equal.
  unfold announcement. rewrite Hfull, Htable, Hn.
  rewrite <- (map_nth_seq
                (fun p => Send (img_status rt) (p - 1) MPI_TAG_CAF_SYNC_IMAGES)
                (init_images_full (caf_this_image rt0) (caf_num_images rt0))
                0).
  rewrite init_images_full_length by exact Hthis.
  reflexivity.
Qed.

(** X9.  [finalize] on an initialised runtime sets the status word to
    [STAT_STOPPED_IMAGE], sends it to every other image in the order of
    their indices, waits in the barrier and only then frees the tokens,
    the windows and the communicator, calling [MPI_Finalize] when the
    runtime had initialised MPI itself; it leaves [caf_is_finalized] set
    and the memory as it was. *)
Theorem finalize_takes_runtime_down :
  forall (rt : runtime),
    initialised rt ->
    exists rt',
      finalize rt = Returns tt rt'
      /\ caf_is_finalized rt' = 1
      /\ img_status rt' = STAT_STOPPED_IMAGE
      /\ memory rt' = memory rt
      /\ events rt'
         = events rt
           ++ (if WITH_FAILED_IMAGES cfg then [Win_flush_all] else [])
           ++ [Win_flush (caf_this_image rt - 1) stat_tok]
           ++ announcement rt STAT_STOPPED_IMAGE
           ++ (if WITH_FAILED_IMAGES cfg
               then [Cancel_alive; Errhandler_set_return] else [])
           ++ [Barrier; Free_slave_tokens; Free_tokens; Free_windows_and_comm]
           ++ (if caf_owns_mpi rt then [MPI_Finalize] else []).
Proof.
  intros rt Hinit.
  unfold finalize, finalize_internal, teardown, CAF_Win_unlock.
  cbn [Z.eqb].
  destruct (WITH_FAILED_IMAGES cfg).
  - unfold bind at 1. unfold bind at 1, modify at 1. cbn beta iota.
    rewrite emit_run. cbn beta iota.
    unfold bind at 1, get_rt at 1. cbn beta iota.
    unfold bind at 1. unfold bind at 1, modify at 1. cbn beta iota.
    unfold modify at 1. cbn beta iota.
    unfold bind at 1. rewrite emit_run. cbn beta iota.
    unfold bind at 1.
    rewrite (announce_status_log rt) by (autorewrite with rt; auto).
    cbn beta iota.
    unfold bind at 1. rewrite emit_run. cbn beta iota.
    unfold bind at 1. rewrite emit_run. cbn beta iota.
    unfold bind at 1. rewrite emit_run. cbn beta iota.
    unfold bind at 1. rewrite emit_run. cbn beta iota.
    unfold bind at 1. rewrite emit_run. cbn beta iota.
    unfold bind at 1. rewrite emit_run. cbn beta iota.
    unfold bind at 1, get_rt at 1. cbn beta iota.
    autorewrite with rt.
    destruct (caf_owns_mpi rt); run;
      (eexists; split; [reflexivity|]); autorewrite with rt;
      repeat split; unfold this_rank; repeat rewrite <- app_assoc;
      reflexivity.
  - unfold bind at 1, ret at 1. cbn beta iota.
    unfold bind at 1, get_rt at 1. cbn beta iota.
    unfold bind at 1. unfold bind at 1, modify at 1. cbn beta iota.
    unfold ret at 1. cbn beta iota.
    unfold bind at 1. rewrite emit_run. cbn beta iota.
    unfold bind at 1.
    rewrite (announce_status_log rt) by (autorewrite with rt; auto).
    cbn beta iota.
    unfold bind at 1, ret at 1. cbn beta iota.
    unfold bind at 1, ret at 1. cbn beta iota.
    unfold bind at 1. rewrite emit_run. cbn beta iota.
    unfold bind at 1. rewrite emit_run. cbn beta iota.
    unfold bind at 1. rewrite emit_run. cbn beta iota.
    unfold bind at 1. rewrite emit_run. cbn beta iota.
    unfold bind at 1, get_rt at 1. cbn beta iota.
    autorewrite with rt.
    destruct (caf_owns_mpi rt); run;
      (eexists; split; [reflexivity|]); autorewrite with rt;
      repeat split; unfold this_rank; repeat rewrite <- app_assoc;
      reflexivity.
Qed.

(** The log of [terminate_internal] for a status code other than 0: the
    status word is announced and the process ends, with no barrier and
    with nothing freed. *)
Definition termination_log (rt : runtime) (status exit_code : Z)
  : list event :=
  (if WITH_FAILED_IMAGES cfg then [Win_flush_all] else [])
  ++ [Win_flush (caf_this_image rt - 1) stat_tok]
  ++ announcement rt status
  ++ (if WITH_FAILED_IMAGES cfg then [Cancel_alive] else [MPI_Abort exit_code]).

Lemma terminate_internal_log {A} (stat_code exit_code : Z) (rt0 rt : runtime) :
  stat_code <> 0 ->
  initialised rt0 ->
  caf_this_image rt = caf_this_image rt0 ->
  caf_num_images rt = caf_num_images rt0 ->
  images_full rt = images_full rt0 ->
  exists rt',
    @terminate_internal A stat_code exit_code rt = Exits exit_code rt'
    /\ caf_is_finalized rt' = caf_is_finalized rt
    /\ img_status rt' = stat_code
    /\ memory rt' = memory rt
    /\ events rt' = events rt ++ termination_log rt0 stat_code exit_code.
Proof.
  intros Hcode Hinit Hme Hn Hfull. apply Z.eqb_neq in Hcode.
  unfold terminate_internal, finalize_internal, CAF_Win_unlock,
    termination_log.
  rewrite Hcode.
  destruct (WITH_FAILED_IMAGES cfg).
  - unfold bind at 1. unfold bind at 1. unfold bind at 1, modify at 1.
    cbn beta iota. rewrite emit_run. cbn beta iota.
    unfold bind at 1, get_rt at 1. cbn beta iota.
    unfold bind at 1. unfold bind at 1, modify at 1. cbn beta iota.
    unfold modify at 1. cbn beta iota.
    unfold bind at 1. rewrite emit_run. cbn beta iota.
    unfold bind at 1.
    rewrite (announce_status_log rt0) by (autorewrite with rt; auto).
    cbn beta iota.
    unfold bind at 1. rewrite emit_run. cbn beta iota.
    run. eexists. split; [reflexivity|]. autorewrite with rt.
    repeat split. unfold this_rank. rewrite Hme.
    repeat rewrite <- app_assoc. reflexivity.
  - unfold bind at 1. unfold bind at 1. unfold bind at 1, ret at 1.
    cbn beta iota.
    unfold bind at 1, get_rt at 1. cbn beta iota.
    unfold bind at 1. unfold bind at 1, modify at 1. cbn beta iota.
    unfold ret at 1. cbn beta iota.
    unfold bind at 1. rewrite emit_run. cbn beta iota.
    unfold bind at 1.
    rewrite (announce_status_log rt0) by (autorewrite with rt; auto).
    cbn beta iota.
    run. eexists. split; [reflexivity|]. autorewrite with rt.
    repeat split. unfold this_rank. rewrite Hme.
    repeat rewrite <- app_assoc. reflexivity.
Qed.

(** C8, as amended.  [stop_numeric] and [stop_str] set the status word of
    the calling image to [STAT_STOPPED_IMAGE], send it to every other image
    and end the process: [stop_str] with the exit code 0, [stop_numeric]
    with the stop code it was given.  They do not take the runtime down:
    the stopped-image code, which is not 0, makes [finalize_internal]
    return after the announcement, so that there is no barrier, no token,
    window or communicator is freed, [MPI_Finalize] is not called and
    [caf_is_finalized] stays as it was; in a build without failed-image
    support [MPI_Abort] is called with the exit code. *)
Theorem stop_sets_status_announces_and_exits :
  forall (stop_code : Z) (str : string) (len : Z) (rt : runtime),
    initialised rt ->
    (exists rt',
        stop_numeric (A:=unit) stop_code rt = Exits stop_code rt'
        /\ img_status rt' = STAT_STOPPED_IMAGE
        /\ (forall p, 1 <= p <= caf_num_images rt -> p <> caf_this_image rt ->
              In (Send STAT_STOPPED_IMAGE (p - 1) MPI_TAG_CAF_SYNC_IMAGES)
                (events rt'))
        /\ (STAT_STOPPED_IMAGE <> 0 ->
            caf_is_finalized rt' = caf_is_finalized rt
            /\ events rt'
               = events rt ++ [Stderr_stop stop_code]
                 ++ termination_log rt STAT_STOPPED_IMAGE stop_code))
    /\ (exists rt',
          stop_str (A:=unit) str len rt = Exits 0 rt'
          /\ img_status rt' = STAT_STOPPED_IMAGE
          /\ (forall p, 1 <= p <= caf_num_images rt -> p <> caf_this_image rt ->
                In (Send STAT_STOPPED_IMAGE (p - 1) MPI_TAG_CAF_SYNC_IMAGES)
                  (events rt'))
          /\ (STAT_STOPPED_IMAGE <> 0 ->
              caf_is_finalized rt' = caf_is_finalized rt
              /\ events rt'
                 = events rt
                   ++ [Stderr ("STOP " ++ substring 0 (Z.to_nat len) str)]
                   ++ termination_log rt STAT_STOPPED_IMAGE 0)).
Proof.
  intros stop_code str len rt Hinit. split.
  - unfold stop_numeric.
    set (rt0 := set_events (events rt ++ [Stderr_stop stop_code]) rt).
    destruct (terminate_stopped_announces (A:=unit) stop_code rt rt0 Hinit)
      as (rt' & Hrun & Hst & Hsend).
    + repeat split.
    + eexists. reflexivity.
    + exists rt'. split; [unfold bind, emit, modify; fold rt0; exact Hrun|].
      split; [exact Hst|]. split; [exact Hsend|]. intros Hs0.
      destruct (terminate_internal_log (A:=unit) STAT_STOPPED_IMAGE stop_code
                  rt rt0 Hs0 Hinit eq_refl eq_refl eq_refl)
        as (rt'' & Hrun' & Hfin & _ & _ & Hev).
      rewrite Hrun in Hrun'. injection Hrun' as <-.
      unfold rt0 in Hfin, Hev. autorewrite with rt in Hfin, Hev.
      split; [exact Hfin|]. rewrite Hev, <- app_assoc. reflexivity.
  - unfold stop_str.
    set (rt0 := set_events
                  (events rt
                   ++ [Stderr ("STOP " ++ substring 0 (Z.to_nat len) str)]) rt).
    destruct (terminate_stopped_announces (A:=unit) 0 rt rt0 Hinit)
      as (rt' & Hrun & Hst & Hsend).
    + repeat split.
    + eexists. reflexivity.
    + exists rt'. split; [unfold bind, emit, modify; fold rt0; exact Hrun|].
      split; [exact Hst|]. split; [exact Hsend|]. intros Hs0.
      destruct (terminate_internal_log (A:=unit) STAT_STOPPED_IMAGE 0
                  rt rt0 Hs0 Hinit eq_refl eq_refl eq_refl)
        as (rt'' & Hrun' & Hfin & _ & _ & Hev).
      rewrite Hrun in Hrun'. injection Hrun' as <-.
      unfold rt0 in Hfin, Hev. autorewrite with rt in Hfin, Hev.
      split; [exact Hfin|]. rewrite Hev, <- app_assoc. reflexivity.
Qed.

(** X10.  [error_stop] ends the image with the error code it was given as
    the exit code, [error_stop_str] with exit code 1.  Both write the
    ERROR STOP line first, set the status word to [STAT_STOPPED_IMAGE] and
    send it to every other image, and then end the process with no
    barrier and with no token or window freed; [caf_is_finalized] stays as
    it was.  The stopped-image code is not 0. *)
Theorem error_stop_exit_codes :
  forall (error : Z) (str : string) (len : Z) (rt : runtime),
    STAT_STOPPED_IMAGE <> 0 ->
    initialised rt ->
    (exists rt',
        error_stop (A:=unit) error rt = Exits error rt'
        /\ caf_is_finalized rt' = caf_is_finalized rt
        /\ img_status rt' = STAT_STOPPED_IMAGE
        /\ events rt'
           = events rt ++ [Stderr_error_stop error]
             ++ termination_log rt STAT_STOPPED_IMAGE error)
    /\ (exists rt',
          error_stop_str (A:=unit) str len rt = Exits 1 rt'
          /\ caf_is_finalized rt' = caf_is_finalized rt
          /\ img_status rt' = STAT_STOPPED_IMAGE
          /\ events rt'
             = events rt
               ++ [Stderr ("ERROR STOP " ++ substring 0 (Z.to_nat len) str)]
               ++ termination_log rt STAT_STOPPED_IMAGE 1).
Proof.
  intros error str len rt Hs0 Hinit. split.
  - unfold error_stop. unfold bind at 1. rewrite emit_run. cbn beta iota.
    destruct (terminate_internal_log (A:=unit) STAT_STOPPED_IMAGE error rt
                (set_events (events rt ++ [Stderr_error_stop error]) rt)
                Hs0 Hinit eq_refl eq_refl eq_refl)
      as (rt' & Hrun & Hfin & Hst & _ & Hev).
    exists rt'. split; [exact Hrun|]. autorewrite with rt in Hfin, Hev.
    split; [exact Hfin|]. split; [exact Hst|].
    rewrite Hev, <- app_assoc. reflexivity.
  - unfold error_stop_str. unfold bind at 1. rewrite emit_run.
    cbn beta iota.
    destruct (terminate_internal_log (A:=unit) STAT_STOPPED_IMAGE 1 rt
                (set_events
                   (events rt
                    ++ [Stderr ("ERROR STOP "
                                ++ substring 0 (Z.to_nat len) str)]) rt)
                Hs0 Hinit eq_refl eq_refl eq_refl)
      as (rt' & Hrun & Hfin & Hst & _ & Hev).
    exists rt'. split; [exact Hrun|]. autorewrite with rt in Hfin, Hev.
    split; [exact Hfin|]. split; [exact Hst|].
    rewrite Hev, <- app_assoc. reflexivity.
Qed.

(** *** Initialisation and registration *)

(** The calls of [init], in program order. *)
Definition init_log : list event :=
  [MPI_Initialized]
  ++ (if is_init then [MPI_Query_thread] else [MPI_Init])
  ++ [Comm_dup CAF_COMM_WORLD]
  ++ (if WITH_FAILED_IMAGES cfg then [Comm_agree; Barrier_world] else [])
  ++ [Comm_size; Comm_rank]
  ++ (if WITH_FAILED_IMAGES cfg
      then [Comm_dup alive_comm; Comm_create_errhandler;
            Comm_set_errhandler CAF_COMM_WORLD false;
            Comm_set_errhandler alive_comm false;
            Comm_set_errhandler MPI_COMM_WORLD true; Irecv_alive]
      else [])
  ++ [Info_create; Info_set "same_size" "true"; Win_create stat_tok;
      Win_lock_all stat_tok; Win_create_dynamic global_dynamic_win;
      Win_lock_all global_dynamic_win].

(** X11.  [init] on a runtime that has no images yet, in a communicator of
    [comm_size] processes where the caller has rank [comm_rank]: it
    initialises MPI unless MPI is initialised already, and owns MPI exactly
    then; it duplicates the communicator, creates and locks the window of
    the status word and the dynamic window, in the order of [init_log]; the
    calling image gets the index [comm_rank + 1], [images_full] holds
    exactly the other [comm_size - 1] image indices, [arrived] is zeroed,
    [caf_is_finalized] is cleared and the memory is not touched.  With
    failed-image support the images have to agree first: if
    [MPIX_Comm_agree] fails the process is aborted with the code 10000,
    before any image is set up.  On a runtime that has its images [init]
    does nothing, so a second [init] changes nothing. *)
Theorem init_sets_up_images :
  forall (rt : runtime),
    0 <= comm_rank < comm_size ->
    (caf_num_images rt = 0 ->
     (WITH_FAILED_IMAGES cfg = true -> comm_agree_rc = MPI_SUCCESS) ->
     exists rt',
       init rt = Returns tt rt'
       /\ caf_this_image rt' = comm_rank + 1
       /\ caf_num_images rt' = comm_size
       /\ caf_is_finalized rt' = 0
       /\ caf_owns_mpi rt' = negb is_init
       /\ initialised rt'
       /\ (forall p, In p (images_full rt')
                     <-> 1 <= p <= comm_size /\ p <> comm_rank + 1)
       /\ List.length (images_full rt') = Z.to_nat (comm_size - 1)
       /\ arrived rt' = repeat 0 (Z.to_nat comm_size)
       /\ memory rt' = memory rt
       /\ events rt' = events rt ++ init_log
       /\ (init ;;; init) rt = init rt)
    /\ (caf_num_images rt = 0 ->
        WITH_FAILED_IMAGES cfg = true -> comm_agree_rc <> MPI_SUCCESS ->
        exists rt',
          init rt = Aborts rt'
          /\ caf_num_images rt' = 0
          /\ events rt'
             = events rt
               ++ [MPI_Initialized]
               ++ (if is_init then [MPI_Query_thread] else [MPI_Init])
               ++ [Comm_dup CAF_COMM_WORLD; Comm_agree; MPI_Abort 10000])
    /\ (caf_num_images rt <> 0 -> init rt = Returns tt rt).
Proof.
  intros rt Hrank. split; [|split].
  - intros Hzero Hagree.
    assert (Hrun : exists rt',
               init rt = Returns tt rt'
               /\ caf_this_image rt' = comm_rank + 1
               /\ caf_num_images rt' = comm_size
               /\ caf_is_finalized rt' = 0
               /\ caf_owns_mpi rt' = negb is_init
               /\ images_full rt' = init_images_full (comm_rank + 1) comm_size
               /\ arrived rt' = repeat 0 (Z.to_nat comm_size)
               /\ memory rt' = memory rt
               /\ events rt' = events rt ++ init_log).
    { unfold init, init_log. unfold bind at 1, get_rt at 1. cbn beta iota.
      rewrite Hzero. cbn [Z.eqb].
      destruct (WITH_FAILED_IMAGES cfg).
      - rewrite (Hagree eq_refl). cbn [Z.eqb negb MPI_SUCCESS].
        destruct is_init; run;
          (eexists; split; [reflexivity|]); autorewrite with rt;
          repeat split; repeat rewrite <- app_assoc; reflexivity.
      - destruct is_init; run;
          (eexists; split; [reflexivity|]); autorewrite with rt;
          repeat split; repeat rewrite <- app_assoc; reflexivity. }
    destruct Hrun
      as (rt' & Hrun & Hme & Hn & Hfin & Hown & Hfull & Harr & Hmem & Hev).
    exists rt'. split; [exact Hrun|]. split; [exact Hme|].
    split; [exact Hn|]. split; [exact Hfin|]. split; [exact Hown|]. split.
    { split; [rewrite Hme, Hn; lia|]. rewrite Hfull, Hme, Hn. reflexivity. }
    split.
    { intros p. rewrite Hfull. apply init_images_full_In. }
    split.
    { rewrite Hfull. apply init_images_full_length. lia. }
    split; [exact Harr|]. split; [exact Hmem|]. split; [exact Hev|].
    unfold bind at 1. rewrite Hrun.
    unfold init at 1. unfold bind at 1, get_rt at 1. cbn beta iota.
    replace (caf_num_images rt' =? 0) with false
      by (symmetry; apply Z.eqb_neq; lia).
    reflexivity.
  - intros Hzero Hwf Hagree. apply Z.eqb_neq in Hagree.
    unfold init. unfold bind at 1, get_rt at 1. cbn beta iota.
    rewrite Hzero, Hwf. cbn [Z.eqb]. rewrite Hagree. cbn [negb].
    destruct is_init; run;
      (eexists; split; [reflexivity|]); autorewrite with rt;
      (split; [exact Hzero|]); repeat rewrite <- app_assoc; reflexivity.
  - intros Hn. unfold init. unfold bind at 1, get_rt at 1. cbn beta iota.
    apply Z.eqb_neq in Hn. rewrite Hn. reflexivity.
Qed.

Lemma load_int_zeros (m : Mem.t) (a a' : Z) (k : nat) :
  a <= a' ->
  a' + 4 <= a + Z.of_nat k ->
  Mem.load_int (Mem.store m a (repeat 0 k)) a' = 0.
Proof.
  intros Hlo Hhi. unfold Mem.load_int.
  assert (Hbyte : forall j, 0 <= j < 4 ->
             Mem.store m a (repeat 0 k) (a' + j) = 0).
  { intros j Hj. unfold Mem.store. rewrite repeat_length.
    replace ((a <=? a' + j) && (a' + j <? a + Z.of_nat k)) with true.
    - apply nth_repeat.
    - symmetry. apply andb_true_iff.
      split; [apply Z.leb_le | apply Z.ltb_lt]; lia. }
  unfold Mem.load. cbn [seq map Z.of_nat Pos.of_succ_nat Pos.succ].
  rewrite !Hbyte by lia. reflexivity.
Qed.

(** X12.  [register] of a coarray, a lock, a critical section or an event
    variable (the kinds that get a window of their own) on a runtime that
    has its images and has not been finalized: the call returns with
    [stat] 0, the token of the new window is put in front of the table of
    allocated tokens, and the base address handed back is the base of the
    new window on the calling image.  For a lock, a critical section or an
    event variable all of the [size] integers of the window on the calling
    image are 0, so that every slot is free, and nothing outside the
    window changes. *)
Theorem register_allocates_window :
  forall (size : Z) (type : caf_register_t) (token : option Z)
         (desc : gfc_descriptor_t) (stat : option Z) (errmsg : list ascii)
         (errmsg_len : Z) (rt : runtime),
    caf_is_finalized rt = 0 ->
    1 <= caf_this_image rt <= caf_num_images rt ->
    0 <= size < 2 ^ 29 ->
    type <> CAF_REGTYPE_COARRAY_ALLOC_REGISTER_ONLY ->
    type <> CAF_REGTYPE_COARRAY_ALLOC_ALLOCATE_ONLY ->
    let actual_size := if is_lock_or_event type then size * 4 else size in
    let p := new_window rt actual_size in
    exists rt',
      register size type token desc stat errmsg errmsg_len rt
      = Returns
          (mkRegistered (Some (win_id p)) (win_base p (this_rank rt))
             (option_map (fun _ => 0) stat) errmsg) rt'
      /\ caf_allocated_tokens rt' = win_id p :: caf_allocated_tokens rt
      /\ caf_is_finalized rt' = 0
      /\ (is_lock_or_event type = false -> memory rt' = memory rt)
      /\ (is_lock_or_event type = true ->
          (forall i, 0 <= i < size ->
             Mem.load_int (local_memory rt')
               (win_base p (this_rank rt) + i * sizeof_int) = 0)
          /\ (forall r, r <> this_rank rt -> memory rt' r = memory rt r)
          /\ (forall a, a < win_base p (this_rank rt)
                        \/ win_base p (this_rank rt) + size * 4 <= a ->
                        local_memory rt' a = local_memory rt a)).
Proof.
  intros size type token desc stat errmsg errmsg_len rt Hfin Hthis Hsize
    Hreg Halloc actual_size p.
  assert (Hint : to_int size = size) by (apply to_int_small; lia).
  assert (Hact : to_size_t (size * sizeof_int) = size * 4).
  { unfold sizeof_int. apply to_size_t_small. lia. }
  assert (Hn0 : (caf_num_images rt =? 0) = false)
    by (apply Z.eqb_neq; lia).
  assert (Hvr : valid_rank rt (this_rank rt) = true).
  { unfold valid_rank, this_rank.
    apply andb_true_iff. split; [apply Z.leb_le | apply Z.ltb_lt]; lia. }
  unfold register. unfold bind at 1, get_rt at 1. cbn beta iota.
  rewrite Hfin. cbn [Z.eqb negb]. rewrite Hn0.
  unfold bind at 1, ret at 1. cbn beta iota. cbv zeta.
  rewrite Hact, Hint. fold actual_size.
  destruct (is_lock_or_event type) eqn:Hl.
  - assert (Hbody :
      exists rt',
        (rt <- get_rt ;;
         emit (Win_allocate actual_size
                 (win_id (new_window rt actual_size))) ;;;
         emit (Win_lock_all (win_id (new_window rt actual_size))) ;;;
         (_ <- rma_put (repeat 0 (Z.to_nat (4 * size))) (4 * size)
                 (this_rank rt) 0 (4 * size) (new_window rt actual_size) ;;
          CAF_Win_unlock (this_rank rt)
            (win_id (new_window rt actual_size))) ;;;
         modify (fun rt0 =>
                   set_caf_allocated_tokens
                     (win_id (new_window rt actual_size)
                      :: caf_allocated_tokens rt0) rt0) ;;;
         ret (mkRegistered (Some (win_id (new_window rt actual_size)))
                (win_base (new_window rt actual_size) (this_rank rt))
                match stat with Some _ => Some 0 | None => None end errmsg)) rt
        = Returns
            (mkRegistered (Some (win_id p)) (win_base p (this_rank rt))
               (option_map (fun _ => 0) stat) errmsg) rt'
        /\ caf_allocated_tokens rt' = win_id p :: caf_allocated_tokens rt
        /\ caf_is_finalized rt' = 0
        /\ memory rt'
           = update_rank (memory rt) (this_rank rt)
               (Mem.store (memory rt (this_rank rt))
                  (win_base p (this_rank rt) + 0)
                  (repeat 0 (Z.to_nat (4 * size))))).
    { fold p. unfold rma_put, CAF_Win_unlock.
      unfold bind at 1, get_rt at 1. cbn beta iota. fold p.
      unfold bind at 1. rewrite emit_run. cbn beta iota.
      unfold bind at 1. rewrite emit_run. cbn beta iota.
      unfold bind at 1. unfold bind at 1. unfold bind at 1, get_rt at 1.
      cbn beta iota.
      replace (valid_rank _ (this_rank rt)) with true
        by (symmetry; exact Hvr).
      replace (4 * size <? 0) with false by (symmetry; apply Z.ltb_ge; lia).
      rewrite Z.ltb_irrefl. cbn [orb negb].
      run. rewrite firstn_all2 by (rewrite repeat_length; lia).
      eexists. split; [destruct stat; reflexivity|].
      autorewrite with rt. rewrite Hfin. repeat split. }
    destruct Hbody as (rt' & Hrun & Htok & Hfin' & Hmem).
    exists rt'.
    split; [destruct type; try discriminate Hl; try contradiction; exact Hrun|].
    split; [exact Htok|]. split; [exact Hfin'|].
    split; [intros H; discriminate H|]. intros _.
    assert (Hme' : this_rank rt' = this_rank rt).
    { revert Hrun. unfold rma_put, CAF_Win_unlock.
      unfold bind at 1, get_rt at 1. cbn beta iota.
      unfold bind at 1. rewrite emit_run. cbn beta iota.
      unfold bind at 1. rewrite emit_run. cbn beta iota.
      unfold bind at 1. unfold bind at 1. unfold bind at 1, get_rt at 1.
      cbn beta iota.
      replace (valid_rank _ (this_rank rt)) with true
        by (symmetry; exact Hvr).
      replace (4 * size <? 0) with false by (symmetry; apply Z.ltb_ge; lia).
      rewrite Z.ltb_irrefl. cbn [orb negb].
      run. intros H. inversion H. reflexivity. }
    unfold local_memory. rewrite Hme', Hmem.
    split; [|split].
    + intros i Hi. rewrite update_rank_same.
      apply load_int_zeros; unfold sizeof_int; lia.
    + intros r Hr. apply update_rank_other. auto.
    + intros a Ha. rewrite update_rank_same.
      apply store_outside. rewrite repeat_length. lia.
  - assert (Hbody :
      exists rt',
        (rt <- get_rt ;;
         emit (Win_allocate actual_size
                 (win_id (new_window rt actual_size))) ;;;
         emit (Win_lock_all (win_id (new_window rt actual_size))) ;;;
         ret tt ;;;
         modify (fun rt0 =>
                   set_caf_allocated_tokens
                     (win_id (new_window rt actual_size)
                      :: caf_allocated_tokens rt0) rt0) ;;;
         ret (mkRegistered (Some (win_id (new_window rt actual_size)))
                (win_base (new_window rt actual_size) (this_rank rt))
                match stat with Some _ => Some 0 | None => None end errmsg)) rt
        = Returns
            (mkRegistered (Some (win_id p)) (win_base p (this_rank rt))
               (option_map (fun _ => 0) stat) errmsg) rt'
        /\ caf_allocated_tokens rt' = win_id p :: caf_allocated_tokens rt
        /\ caf_is_finalized rt' = 0
        /\ memory rt' = memory rt).
    { fold p. run. eexists. split; [destruct stat; reflexivity|].
      autorewrite with rt. rewrite Hfin. repeat split. }
    destruct Hbody as (rt' & Hrun & Htok & Hfin' & Hmem).
    exists rt'.
    split; [destruct type; try discriminate Hl; try contradiction; exact Hrun|].
    split; [exact Htok|]. split; [exact Hfin'|].
    split; [intros _; exact Hmem|]. intros H. discriminate H.
Qed.

(** *** Atomic definition, reference and compare-and-swap *)

(** Data movement of [MPI_Accumulate] of one element of a datatype: the
    target receives the combination of what it held with the origin.  The
    log of calls has no entry for an accumulate; its effect on the memory
    of the target is what the model keeps. *)
Definition rma_accumulate (origin : list Z) (dt : option MPI_Datatype)
    (target_rank target_disp : Z) (op : MPI_Op) (win : MPI_Win) : M Z :=
  rt <- get_rt ;;
  match dt with
  | None => mpi_fatal
  | Some dt =>
      if negb (valid_rank rt target_rank)
      then mpi_fatal
      else
        let n := Z.to_nat (MPI_Type_size dt) in
        let addr := win_base win target_rank + target_disp in
        let found := Mem.load (memory rt target_rank) addr n in
        modify (set_memory
                  (update_rank (memory rt) target_rank
                     (Mem.store (memory rt target_rank) addr
                        (firstn n (mpi_reduce op dt found origin))))) ;;;
        ret MPI_SUCCESS
  end.

(** [MPI_Accumulate (origin_addr, 1, dt, target_rank, target_disp, 1, dt,
    op, win)], the origin in the memory of the caller. *)
Definition MPI_Accumulate (origin_addr : Z) (dt : option MPI_Datatype)
    (target_rank target_disp : Z) (op : MPI_Op) (win : MPI_Win) : M Z :=
  rt <- get_rt ;;
  match dt with
  | None => mpi_fatal
  | Some dt' =>
      rma_accumulate
        (Mem.load (local_memory rt) origin_addr (Z.to_nat (MPI_Type_size dt')))
        dt target_rank target_disp op win
  end.

(** [PREFIX (atomic_define)] *)
Definition atomic_define (token : MPI_Win) (offset image_index value : Z)
    (stat : option Z) (kind : Z) : M (option Z) :=
  let ierr := 0 in
  rt <- get_rt ;;
  let image :=
    if negb (image_index =? 0) then image_index - 1
    else caf_this_image rt - 1 in
  let dt := selectType kind None in
  ierr <- MPI_Accumulate value dt image offset MPI_REPLACE token ;;
  CAF_Win_unlock image (win_id token) ;;;
  match stat with
  | Some _ => ret (Some ierr)
  | None =>
      if negb (ierr =? 0) then terminate_internal ierr 0 else ret None
  end.

(** [PREFIX (atomic_ref)]: the origin of the fetch is [NULL]. *)
Definition atomic_ref (token : MPI_Win) (offset image_index value : Z)
    (stat : option Z) (kind : Z) : M (option Z) :=
  let ierr := 0 in
  rt <- get_rt ;;
  let image :=
    if negb (image_index =? 0) then image_index - 1
    else caf_this_image rt - 1 in
  let dt := selectType kind None in
  found <- rma_fetch_and_op [] dt image offset MPI_NO_OP token ;;
  local_store value found ;;;
  CAF_Win_unlock image (win_id token) ;;;
  match stat with
  | Some _ => ret (Some ierr)
  | None =>
      if negb (ierr =? 0) then terminate_internal ierr 0 else ret None
  end.

(** The datatype [selectType] picks for the kinds it knows, and the
    number of bytes of one element. *)
Definition known_kind (kind : Z) : Prop := kind = 4 \/ kind = 8 \/ kind = 16.

Lemma selectType_known (kind : Z) :
  known_kind kind ->
  exists dt, selectType kind None = Some dt /\ MPI_Type_size dt = kind.
Proof.
  intros [-> | [-> | ->]];
    [exists MPI_INT | exists MPI_DOUBLE | exists MPI_DOUBLE_COMPLEX];
    split; reflexivity.
Qed.

(** The image an atomic operation addresses. *)
Definition atomic_image (rt : runtime) (image_index : Z) : Z :=
  if negb (image_index =? 0) then image_index - 1 else caf_this_image rt - 1.

Lemma atomic_define_run (token : MPI_Win) (offset image_index value : Z)
    (stat : option Z) (kind : Z) (rt : runtime) :
  replace_is_origin ->
  known_kind kind ->
  valid_rank rt (atomic_image rt image_index) = true ->
  atomic_define token offset image_index value stat kind rt
  = Returns (option_map (fun _ => 0) stat)
      (set_events
         (events rt
          ++ [Win_flush (atomic_image rt image_index) (win_id token)])
         (set_memory
            (update_rank (memory rt) (atomic_image rt image_index)
               (Mem.store (memory rt (atomic_image rt image_index))
                  (win_base token (atomic_image rt image_index) + offset)
                  (Mem.load (local_memory rt) value (Z.to_nat kind)))) rt)).
Proof.
  intros Hrep Hkind Hvr.
  destruct (selectType_known kind Hkind) as (dt & Hdt & Hsz).
  unfold atomic_define. unfold bind at 1, get_rt at 1. cbn beta iota.
  cbv zeta. fold (atomic_image rt image_index). rewrite Hdt.
  unfold MPI_Accumulate, rma_accumulate, CAF_Win_unlock.
  unfold bind at 1. unfold bind at 1, get_rt at 1. cbn beta iota.
  unfold bind at 1, get_rt at 1. cbn beta iota.
  rewrite Hvr. cbn [negb]. rewrite Hrep, Hsz.
  rewrite firstn_all2 by (rewrite load_length; lia).
  run. destruct stat; reflexivity.
Qed.

(** X13.  [atomic_define] followed by [atomic_ref] on the same variable of
    an image, for a kind of 4, 8 or 16 bytes: both return with [stat] 0,
    and the bytes [atomic_ref] leaves in its [value] are the bytes
    [atomic_define] was given in its [value]; on another image than the
    calling one the variable holds these bytes too.  The transport's
    [MPI_REPLACE] and [MPI_NO_OP] are taken to do what their names say. *)
Theorem atomic_define_then_ref :
  forall (token : MPI_Win) (offset image_index value value' : Z)
         (stat stat' : option Z) (kind : Z) (rt : runtime),
    replace_is_origin ->
    no_op_is_target ->
    known_kind kind ->
    0 <= atomic_image rt image_index < caf_num_images rt ->
    exists rt1 rt2,
      atomic_define token offset image_index value stat kind rt
      = Returns (option_map (fun _ => 0) stat) rt1
      /\ atomic_ref token offset image_index value' stat' kind rt1
         = Returns (option_map (fun _ => 0) stat') rt2
      /\ Mem.load (local_memory rt2) value' (Z.to_nat kind)
         = Mem.load (local_memory rt) value (Z.to_nat kind)
      /\ (atomic_image rt image_index <> this_rank rt ->
          Mem.load (memory rt2 (atomic_image rt image_index))
            (win_base token (atomic_image rt image_index) + offset)
            (Z.to_nat kind)
          = Mem.load (local_memory rt) value (Z.to_nat kind)).
Proof.
  intros token offset image_index value value' stat stat' kind rt Hrep Hnop
    Hkind Himg.
  assert (Hvr : valid_rank rt (atomic_image rt image_index) = true).
  { unfold valid_rank.
    apply andb_true_iff. split; [apply Z.leb_le | apply Z.ltb_lt]; lia. }
  destruct (selectType_known kind Hkind) as (dt & Hdt & Hsz).
  eexists. eexists.
  split; [apply atomic_define_run; assumption|].
  set (v := Mem.load (local_memory rt) value (Z.to_nat kind)).
  assert (Hv : List.length v = Z.to_nat kind) by apply load_length.
  set (img := atomic_image rt image_index) in *.
  set (addr := win_base token img + offset).
  set (rt1 := set_events _ _).
  assert (Hfound : Mem.load (memory rt1 img) addr (Z.to_nat kind) = v).
  { unfold rt1. autorewrite with rt. rewrite update_rank_same.
    apply load_store_same_n. symmetry. exact Hv. }
  assert (Hrun :
    atomic_ref token offset image_index value' stat' kind rt1
    = Returns (option_map (fun _ => 0) stat')
        (set_events
           (events rt1
            ++ [Fetch_and_op MPI_NO_OP img offset (win_id token);
                Win_flush img (win_id token)])
           (set_memory
              (update_rank
                 (update_rank (memory rt1) img
                    (Mem.store (memory rt1 img) addr v))
                 (this_rank rt)
                 (Mem.store
                    (update_rank (memory rt1) img
                       (Mem.store (memory rt1 img) addr v) (this_rank rt))
                    value' v)) rt1))).
  { unfold atomic_ref. unfold bind at 1, get_rt at 1. cbn beta iota.
    cbv zeta. change (caf_this_image rt1) with (caf_this_image rt).
    fold (atomic_image rt image_index). fold img. rewrite Hdt.
    unfold rma_fetch_and_op, local_store, CAF_Win_unlock.
    unfold bind at 1. unfold bind at 1, get_rt at 1. cbn beta iota.
    replace (valid_rank rt1 img) with true by (symmetry; exact Hvr).
    cbn [negb]. rewrite Hnop, Hsz. fold addr. rewrite Hfound.
    rewrite firstn_all2 by lia.
    run. rewrite <- app_assoc. destruct stat'; reflexivity. }
  split; [exact Hrun|]. split.
  - unfold local_memory. autorewrite with rt.
    change (this_rank (set_events _ _)) with (this_rank rt).
    rewrite update_rank_same. apply load_store_same_n. symmetry. exact Hv.
  - intros E. autorewrite with rt.
    rewrite update_rank_other by exact E. rewrite update_rank_same.
    apply load_store_same_n. symmetry. exact Hv.
Qed.

(** Data movement of [MPI_Compare_and_swap] with origin, compare and
    result given by address: the bytes found at the target go to the
    result, and the target receives the origin when it held the bytes
    compared with.  The operation is defined for integer datatypes; with
    another datatype, or one that was never set, the call is erroneous. *)
Definition rma_compare_and_swap (origin compare : list Z)
    (dt : option MPI_Datatype) (target_rank target_disp : Z) (win : MPI_Win)
  : M (list Z) :=
  rt <- get_rt ;;
  match dt with
  | Some MPI_INT =>
      if negb (valid_rank rt target_rank)
      then mpi_fatal
      else
        let n := Z.to_nat (MPI_Type_size MPI_INT) in
        let addr := win_base win target_rank + target_disp in
        let found := Mem.load (memory rt target_rank) addr n in
        (if list_eq_dec Z.eq_dec found (firstn n compare)
         then modify (set_memory
                        (update_rank (memory rt) target_rank
                           (Mem.store (memory rt target_rank) addr
                              (firstn n origin))))
         else ret tt) ;;;
        emit (Compare_and_swap target_rank target_disp (win_id win)) ;;;
        ret found
  | _ => mpi_fatal
  end.

(** [PREFIX (atomic_cas)] *)
Definition atomic_cas (token : MPI_Win) (offset image_index : Z)
    (old compare new_val : Z) (stat : option Z) (kind : Z) : M (option Z) :=
  let ierr := 0 in
  rt <- get_rt ;;
  let image :=
    if negb (image_index =? 0) then image_index - 1
    else caf_this_image rt - 1 in
  let dt := selectType kind None in
  found <- rma_compare_and_swap
             (Mem.load (local_memory rt) new_val (Z.to_nat kind))
             (Mem.load (local_memory rt) compare (Z.to_nat kind))
             dt image offset token ;;
  local_store old found ;;;
  CAF_Win_unlock image (win_id token) ;;;
  match stat with
  | Some _ => ret (Some ierr)
  | None =>
      if negb (ierr =? 0) then terminate_internal ierr 0 else ret None
  end.

(** X14.  [atomic_cas] on a 4-byte variable of an image: the call returns
    with [stat] 0 and leaves in [old] the four bytes the variable held;
    the variable receives the bytes of [new_val] when it held the bytes of
    [compare], and keeps its bytes otherwise.  The variable is taken on
    another image than the calling one, so that [old] cannot overlap it. *)
Theorem atomic_cas_swaps_on_match :
  forall (token : MPI_Win) (offset image_index old compare new_val : Z)
         (stat : option Z) (rt : runtime),
    0 <= atomic_image rt image_index < caf_num_images rt ->
    atomic_image rt image_index <> this_rank rt ->
    let img := atomic_image rt image_index in
    let addr := win_base token img + offset in
    let found := Mem.load (memory rt img) addr 4 in
    let cmp := Mem.load (local_memory rt) compare 4 in
    let new := Mem.load (local_memory rt) new_val 4 in
    exists rt',
      atomic_cas token offset image_index old compare new_val stat 4 rt
      = Returns (option_map (fun _ => 0) stat) rt'
      /\ Mem.load (local_memory rt') old 4 = found
      /\ (found = cmp -> Mem.load (memory rt' img) addr 4 = new)
      /\ (found <> cmp -> Mem.load (memory rt' img) addr 4 = found)
      /\ events rt'
         = events rt ++ [Compare_and_swap img offset (win_id token);
                         Win_flush img (win_id token)].
Proof.
  intros token offset image_index old compare new_val stat rt Himg Hother
    img addr found cmp new.
  assert (Hvr : valid_rank rt img = true).
  { unfold valid_rank, img.
    apply andb_true_iff. split; [apply Z.leb_le | apply Z.ltb_lt]; lia. }
  unfold atomic_cas. unfold bind at 1, get_rt at 1. cbn beta iota.
  cbv zeta. fold (atomic_image rt image_index). fold img.
  change (selectType 4 None) with (Some MPI_INT).
  unfold rma_compare_and_swap, local_store, CAF_Win_unlock.
  unfold bind at 1. unfold bind at 1, get_rt at 1. cbn beta iota.
  rewrite Hvr. cbn [negb].
  change (Z.to_nat (MPI_Type_size MPI_INT)) with 4%nat.
  change (Z.to_nat 4) with 4%nat.
  fold addr. fold found. fold cmp. fold new.
  rewrite !firstn_all2 by (unfold cmp, new; rewrite load_length; lia).
  assert (Hother' : img <> caf_this_image rt - 1) by exact Hother.
  destruct (list_eq_dec Z.eq_dec found cmp) as [E | E]; run;
    (eexists; split; [destruct stat; reflexivity|]);
    unfold local_memory, this_rank; autorewrite with rt;
    rewrite ?update_rank_same.
  - split; [apply load_store_same_n; unfold found; rewrite load_length;
            reflexivity|].
    split.
    + intros _. rewrite update_rank_other by exact Hother'.
      rewrite update_rank_same.
      apply load_store_same_n. unfold new. rewrite load_length. reflexivity.
    + split; [intros H; contradiction|].
      rewrite <- app_assoc. reflexivity.
  - split; [apply load_store_same_n; unfold found; rewrite load_length;
            reflexivity|].
    split; [intros H; contradiction|].
    split.
    + intros _. rewrite update_rank_other by exact Hother'. reflexivity.
    + rewrite <- app_assoc. reflexivity.
Qed.

(** *** Atomic operations: the op codes *)

(** X15.  [atomic_op] with an op code other than 1, 2, 4 and 5: no
    operation reaches the transport, the memory of every image is as it
    was, a line of apology goes to the standard output, and the call
    returns with [stat] 0, for every kind. *)
Theorem atomic_op_unknown_code_is_ignored :
  forall (op : Z) (token : MPI_Win) (offset image_index value old : Z)
         (stat : option Z) (kind : Z) (rt : runtime),
    op <> 1 -> op <> 2 -> op <> 4 -> op <> 5 ->
    exists rt',
      atomic_op op token offset image_index value old stat kind rt
      = Returns (option_map (fun _ => 0) stat) rt'
      /\ memory rt' = memory rt
      /\ events rt'
         = events rt
           ++ [Stdout "We apologize but the atomic operation requested for MPI < 3 is not yet implemented";
               Win_flush (atomic_image rt image_index) (win_id token)].
Proof.
  intros op token offset image_index value old stat kind rt H1 H2 H4 H5.
  rewrite atomic_op_unfold. cbv zeta.
  unfold atomic_op_code.
  apply Z.eqb_neq in H1, H2, H4, H5. rewrite H1, H2, H4, H5.
  unfold CAF_Win_unlock, free, atomic_image. run.
  eexists. split; [destruct stat; reflexivity|]. autorewrite with rt.
  split; [reflexivity|]. rewrite <- app_assoc. reflexivity.
Qed.

(** X16.  [atomic_op] with the op code 1, 2, 4 or 5 on a variable of
    another image, for a kind of 4, 8 or 16 bytes: the call returns with
    [stat] 0, and the variable receives what the transport computes from
    its bytes and the bytes of [value] for the sum, the bitwise and, the
    bitwise or and the bitwise exclusive or, in this order of the op
    codes. *)
Theorem atomic_op_updates_target :
  forall (op : Z) (mpi_op : MPI_Op) (token : MPI_Win)
         (offset image_index value old : Z) (stat : option Z) (kind : Z)
         (rt : runtime),
    In (op, mpi_op) [(1, MPI_SUM); (2, MPI_BAND); (4, MPI_BOR); (5, MPI_BXOR)] ->
    known_kind kind ->
    0 <= atomic_image rt image_index < caf_num_images rt ->
    atomic_image rt image_index <> this_rank rt ->
    let img := atomic_image rt image_index in
    let addr := win_base token img + offset in
    let n := Z.to_nat kind in
    exists dt rt',
      selectType kind None = Some dt
      /\ atomic_op op token offset image_index value old stat kind rt
         = Returns (option_map (fun _ => 0) stat) rt'
      /\ memory rt' img
         = Mem.store (memory rt img) addr
             (firstn n
                (mpi_reduce mpi_op dt (Mem.load (memory rt img) addr n)
                   (Mem.load (local_memory rt) value n)))
      /\ events rt'
         = events rt ++ [Fetch_and_op mpi_op img offset (win_id token);
                         Win_flush img (win_id token)].
Proof.
  intros op mpi_op token offset image_index value old stat kind rt Hop Hkind
    Himg Hother img addr n.
  destruct (selectType_known kind Hkind) as (dt & Hdt & Hsz).
  assert (Hcode : atomic_op_code op = Some mpi_op).
  { cbn [In] in Hop.
    destruct Hop as [H | [H | [H | [H | []]]]]; inversion H; reflexivity. }
  exists dt. rewrite atomic_op_unfold. cbv zeta. rewrite Hcode, Hdt.
  fold (atomic_image rt image_index). fold img.
  assert (Hvr : valid_rank (set_heap_top (heap_top rt + to_size_t kind) rt)
                  img = true).
  { unfold valid_rank, img. autorewrite with rt.
    apply andb_true_iff. split; [apply Z.leb_le | apply Z.ltb_lt]; lia. }
  unfold MPI_Fetch_and_op, CAF_Win_unlock, free.
  unfold bind at 1. unfold bind at 1, get_rt at 1. cbn beta iota.
  rewrite Hvr. cbn [negb]. rewrite Hsz. fold n. run. fold addr.
  eexists. split; [reflexivity|].
  split; [destruct stat; reflexivity|]. autorewrite with rt.
  split.
  - rewrite update_rank_other by (unfold this_rank in Hother; exact Hother).
    rewrite update_rank_same. reflexivity.
  - rewrite <- app_assoc. reflexivity.
Qed.

(** *** Events *)

(** [PREFIX (event_post)] *)
Definition event_post (token : MPI_Win) (index image_index : Z)
    (stat : option Z) (errmsg : option (list ascii)) (errmsg_len : Z)
  : M (option Z * option (list ascii)) :=
  let msg := "Error on event post"%string in
  let value := 1 in
  rt <- get_rt ;;
  let image :=
    if image_index =? 0 then caf_this_image rt - 1 else image_index - 1 in
  let stat := match stat with Some _ => Some 0 | None => None end in
  ierr <- rma_accumulate (Mem.bytes_of_int32 value) (Some MPI_INT) image
            (to_size_t (index * sizeof_int)) MPI_SUM token ;;
  CAF_Win_unlock image (win_id token) ;;;
  health <- check_image_health image_index stat ;;
  if fst health then ret (snd health, errmsg)
  else
    (match stat with
     | None =>
         if ierr =? STAT_FAILED_IMAGE
         then terminate_internal ierr 0 else ret tt
     | Some _ => ret tt
     end) ;;;
    if negb (ierr =? MPI_SUCCESS)
    then
      ret (match stat with Some _ => Some ierr | None => None end,
           match errmsg with
           | Some buf => Some (blank_and_copy msg buf errmsg_len)
           | None => None
           end)
    else ret (stat, errmsg).

(** [PREFIX (event_query)]: the answer holds what the call leaves in
    [*count] and in [*stat]. *)
Definition event_query (token : MPI_Win) (index image_index : Z)
    (stat : option Z) : M (Z * option Z) :=
  let ierr := 0 in
  rt <- get_rt ;;
  let image :=
    if image_index =? 0 then caf_this_image rt - 1 else image_index - 1 in
  let stat := match stat with Some _ => Some 0 | None => None end in
  found <- rma_fetch_and_op [] (Some MPI_INT) image
             (to_size_t (index * sizeof_int)) MPI_NO_OP token ;;
  CAF_Win_unlock image (win_id token) ;;;
  ret (Mem.int32_of_bytes found,
       if negb (ierr =? MPI_SUCCESS)
       then match stat with Some _ => Some ierr | None => None end
       else stat).





(** The transport's [MPI_SUM] on [MPI_INT] adds the two integers. *)
Definition sum_adds_integers : Prop :=
  forall found origin,
    mpi_reduce MPI_SUM MPI_INT found origin
    = Mem.bytes_of_int32
        (Mem.int32_of_bytes found + Mem.int32_of_bytes origin).

(** The image an event call addresses and the address of the counter. *)
Definition event_image (rt : runtime) (image_index : Z) : Z :=
  if image_index =? 0 then caf_this_image rt - 1 else image_index - 1.

Lemma bytes_of_int32_length (v : Z) : List.length (Mem.bytes_of_int32 v) = 4%nat.
Proof. reflexivity. Qed.

Lemma event_post_run (token : MPI_Win) (index image_index : Z)
    (stat : option Z) (errmsg : option (list ascii)) (errmsg_len : Z)
    (rt : runtime) :
  sum_adds_integers ->
  STAT_FAILED_IMAGE <> 0 ->
  0 <= index < 2 ^ 29 ->
  0 <= event_image rt image_index < caf_num_images rt ->
  (WITH_FAILED_IMAGES cfg = true ->
   Znth (image_stati rt) (image_index - 1) <> STAT_FAILED_IMAGE) ->
  let img := event_image rt image_index in
  let addr := win_base token img + index * sizeof_int in
  event_post token index image_index stat errmsg errmsg_len rt
  = Returns (option_map (fun _ => 0) stat, errmsg)
      (set_events (events rt ++ [Win_flush img (win_id token)])
         (set_memory
            (update_rank (memory rt) img
               (Mem.store_int (memory rt img) addr
                  (Mem.load_int (memory rt img) addr + 1))) rt)).
Proof.
  intros Hsum Hf0 Hindex Himg Hhealth img addr.
  assert (Hdisp : to_size_t (index * sizeof_int) = index * sizeof_int).
  { apply to_size_t_small. unfold sizeof_int. lia. }
  assert (Hvr : valid_rank rt img = true).
  { unfold valid_rank, img.
    apply andb_true_iff. split; [apply Z.leb_le | apply Z.ltb_lt]; lia. }
  assert (Hf0' : (0 =? STAT_FAILED_IMAGE) = false)
    by (apply Z.eqb_neq; auto).
  unfold event_post. cbv zeta.
  unfold bind at 1, get_rt at 1. cbn beta iota.
  fold (event_image rt image_index). fold img. rewrite Hdisp.
  unfold rma_accumulate, CAF_Win_unlock.
  unfold bind at 1. unfold bind at 1, get_rt at 1. cbn beta iota.
  rewrite Hvr. cbn [negb].
  unfold bind at 1, modify at 1. cbn beta iota.
  unfold ret at 1. cbn beta iota.
  unfold bind at 1. rewrite emit_run. cbn beta iota.
  unfold bind at 1.
  rewrite check_image_health_ok by (autorewrite with rt; exact Hhealth).
  cbn [fst snd]. unfold MPI_SUCCESS. rewrite Hf0'. cbn [Z.eqb negb].
  fold addr. rewrite Hsum.
  change (Z.to_nat (MPI_Type_size MPI_INT)) with 4%nat.
  change (Mem.int32_of_bytes (Mem.load (memory rt img) addr 4))
    with (Mem.load_int (memory rt img) addr).
  rewrite int32_of_bytes_of_int32 by lia.
  rewrite firstn_all2 by (rewrite bytes_of_int32_length; lia).
  autorewrite with rt.
  destruct stat; reflexivity.
Qed.

Lemma event_query_run (token : MPI_Win) (index image_index : Z)
    (stat : option Z) (rt : runtime) :
  no_op_is_target ->
  0 <= index < 2 ^ 29 ->
  0 <= event_image rt image_index < caf_num_images rt ->
  let img := event_image rt image_index in
  let addr := win_base token img + index * sizeof_int in
  event_query token index image_index stat rt
  = Returns (Mem.load_int (memory rt img) addr, option_map (fun _ => 0) stat)
      (set_events
         (events rt
          ++ [Fetch_and_op MPI_NO_OP img (index * sizeof_int) (win_id token);
              Win_flush img (win_id token)])
         (set_memory
            (update_rank (memory rt) img
               (Mem.store (memory rt img) addr
                  (Mem.load (memory rt img) addr 4))) rt)).
Proof.
  intros Hnop Hindex Himg img addr.
  assert (Hdisp : to_size_t (index * sizeof_int) = index * sizeof_int).
  { apply to_size_t_small. unfold sizeof_int. lia. }
  assert (Hvr : valid_rank rt img = true).
  { unfold valid_rank, img.
    apply andb_true_iff. split; [apply Z.leb_le | apply Z.ltb_lt]; lia. }
  unfold event_query. cbv zeta.
  unfold bind at 1, get_rt at 1. cbn beta iota.
  fold (event_image rt image_index). fold img. rewrite Hdisp.
  unfold rma_fetch_and_op, CAF_Win_unlock.
  unfold bind at 1. unfold bind at 1, get_rt at 1. cbn beta iota.
  rewrite Hvr. cbn [negb]. rewrite Hnop. fold addr.
  change (Z.to_nat (MPI_Type_size MPI_INT)) with 4%nat.
  rewrite firstn_all2 by (rewrite load_length; lia).
  run. rewrite <- app_assoc. destruct stat; reflexivity.
Qed.

(** A store of the bytes just loaded from the same place changes
    nothing. *)
Lemma store_load_same (m : Mem.t) (a : Z) (n : nat) (x : Z) :
  Mem.store m a (Mem.load m a n) x = m x.
Proof.
  unfold Mem.store. rewrite load_length.
  destruct ((a <=? x) && (x <? a + Z.of_nat n)) eqn:E; [|reflexivity].
  apply andb_true_iff in E. destruct E as [E1 E2].
  apply Z.leb_le in E1. apply Z.ltb_lt in E2.
  rewrite nth_load by lia. f_equal. lia.
Qed.

(** X17.  [event_post] adds 1 to the event counter it addresses and
    returns with [stat] 0, and an [event_query] that follows reports the
    counter: one more than before the post.  The counter is below the
    largest [int], the image addressed is not known to have failed, and
    the transport's [MPI_SUM] and [MPI_NO_OP] do what their names say. *)
Theorem event_post_then_query :
  forall (token : MPI_Win) (index image_index : Z) (stat stat' : option Z)
         (errmsg : option (list ascii)) (errmsg_len : Z) (rt : runtime),
    sum_adds_integers ->
    no_op_is_target ->
    STAT_FAILED_IMAGE <> 0 ->
    0 <= index < 2 ^ 29 ->
    0 <= event_image rt image_index < caf_num_images rt ->
    (WITH_FAILED_IMAGES cfg = true ->
     Znth (image_stati rt) (image_index - 1) <> STAT_FAILED_IMAGE) ->
    let img := event_image rt image_index in
    let addr := win_base token img + index * sizeof_int in
    - 2 ^ 31 <= Mem.load_int (memory rt img) addr < 2 ^ 31 - 1 ->
    exists rt1 rt2,
      event_post token index image_index stat errmsg errmsg_len rt
      = Returns (option_map (fun _ => 0) stat, errmsg) rt1
      /\ Mem.load_int (memory rt1 img) addr
         = Mem.load_int (memory rt img) addr + 1
      /\ event_query token index image_index stat' rt1
         = Returns (Mem.load_int (memory rt img) addr + 1,
                    option_map (fun _ => 0) stat') rt2
      /\ Mem.load_int (memory rt2 img) addr
         = Mem.load_int (memory rt img) addr + 1.
Proof.
  intros token index image_index stat stat' errmsg errmsg_len rt Hsum Hnop
    Hf0 Hindex Himg Hhealth img addr Hcount.
  eexists. eexists.
  split; [apply event_post_run; assumption|].
  set (rt1 := set_events _ _).
  assert (Hc1 : Mem.load_int (memory rt1 img) addr
                = Mem.load_int (memory rt img) addr + 1).
  { unfold rt1. autorewrite with rt. rewrite update_rank_same.
    apply load_int_store_int. lia. }
  split; [exact Hc1|].
  assert (Hq := event_query_run token index image_index stat' rt1 Hnop Hindex
                  Himg).
  cbv zeta in Hq. change (event_image rt1 image_index) with img in Hq.
  fold addr in Hq. rewrite Hc1 in Hq.
  split; [exact Hq|].
  autorewrite with rt. rewrite update_rank_same.
  unfold Mem.load_int. erewrite load_ext.
  - exact Hc1.
  - intros x _. apply store_load_same.
Qed.





(** *** Character transfers of one element: the padding *)

Lemma firstn_load (m : Mem.t) (a : Z) (n k : nat) :
  (k <= n)%nat -> firstn k (Mem.load m a n) = Mem.load m a k.
Proof.
  intros H. unfold Mem.load. rewrite firstn_map. f_equal.
  generalize 0%nat. revert k H.
  induction n as [|n IH]; intros [|k] H s; try reflexivity; [lia|].
  cbn [seq firstn]. f_equal. apply IH. lia.
Qed.







(** *** [sendget]: from one remote image to another *)

Lemma poke_whole (data : list Z) :
  poke (repeat 0 (List.length data)) 0 data = data.
Proof.
  unfold poke. cbn [Z.to_nat firstn Nat.add app].
  rewrite skipn_all2 by (rewrite repeat_length; lia).
  apply app_nil_r.
Qed.

(** X20.  [sendget] on its one-message path (a scalar, or two contiguous
    arrays, of one type, kind and element size): the bytes of the window
    of the source image are fetched with one [MPI_Get], flushed, written
    to the window of the destination image with one [MPI_Put] and
    flushed; no other memory changes and [stat] is returned as given. *)
Theorem sendget_copies_between_images :
  forall (token_s : MPI_Win) (offset_s image_index_s : Z)
         (dest : gfc_descriptor_t)
         (token_g : MPI_Win) (offset_g image_index_g : Z)
         (src : gfc_descriptor_t) (src_kind dst_kind : Z) (mrt : bool)
         (stat : option Z) (rt : runtime),
    let nbytes :=
      GFC_DESCRIPTOR_SIZE dest
      * transfer_size (GFC_DESCRIPTOR_RANK dest) dest in
    0 < nbytes < 2 ^ 31 ->
    GFC_DESCRIPTOR_SIZE src = GFC_DESCRIPTOR_SIZE dest ->
    same_type_and_kind dest src dst_kind src_kind = true ->
    GFC_DESCRIPTOR_RANK dest = 0
    \/ (GFC_DESCRIPTOR_RANK src <> 0
        /\ is_contiguous dest = true /\ is_contiguous src = true) ->
    1 <= image_index_s <= caf_num_images rt ->
    1 <= image_index_g <= caf_num_images rt ->
    (WITH_FAILED_IMAGES cfg = true ->
     Znth (image_stati rt) (image_index_s - 1) <> STAT_FAILED_IMAGE
     /\ Znth (image_stati rt) (image_index_g - 1) <> STAT_FAILED_IMAGE) ->
    exists rt',
      sendget token_s offset_s image_index_s dest token_g offset_g
        image_index_g src src_kind dst_kind mrt stat rt
      = Returns stat rt'
      /\ memory rt'
         = update_rank (memory rt) (image_index_s - 1)
             (Mem.store (memory rt (image_index_s - 1))
                (win_base token_s (image_index_s - 1) + offset_s)
                (Mem.load (memory rt (image_index_g - 1))
                   (win_base token_g (image_index_g - 1) + offset_g)
                   (Z.to_nat nbytes)))
      /\ events rt'
         = events rt
           ++ [Get (image_index_g - 1) offset_g nbytes (win_id token_g);
               Win_flush (image_index_g - 1) (win_id token_g);
               Put (image_index_s - 1) offset_s nbytes (win_id token_s);
               Win_flush (image_index_s - 1) (win_id token_s)].
Proof.
  intros token_s offset_s image_index_s dest token_g offset_g image_index_g
    src src_kind dst_kind mrt stat rt nbytes Hn Hsize Hsame Hpath Hs Hg
    Hhealth.
  assert (Hvs : valid_rank rt (image_index_s - 1) = true).
  { unfold valid_rank. apply andb_true_iff.
    split; [apply Z.leb_le | apply Z.ltb_lt]; lia. }
  assert (Hvg : valid_rank rt (image_index_g - 1) = true).
  { unfold valid_rank. apply andb_true_iff.
    split; [apply Z.leb_le | apply Z.ltb_lt]; lia. }
  assert (Hnb : to_int (to_size_t nbytes) = nbytes).
  { rewrite to_size_t_small by lia. apply to_int_small. lia. }
  assert (Hsz : (transfer_size (GFC_DESCRIPTOR_RANK dest) dest =? 0) = false).
  { apply Z.eqb_neq. intros E. unfold nbytes in Hn. rewrite E in Hn. lia. }
  assert (Hcond :
    (GFC_DESCRIPTOR_RANK dest =? 0)
    || (same_type_and_kind dest src dst_kind src_kind
        && negb (GFC_DESCRIPTOR_RANK src =? 0)
        && (negb (bt_type_eqb (GFC_DESCRIPTOR_TYPE dest) BT_CHARACTER)
            || (GFC_DESCRIPTOR_SIZE dest =? GFC_DESCRIPTOR_SIZE src))
        && is_contiguous dest && is_contiguous src) = true).
  { destruct Hpath as [-> | (Hr & Hcd & Hcs)]; [reflexivity|].
    rewrite Hsame, Hcd, Hcs, Hsize, Z.eqb_refl, orb_true_r.
    apply Z.eqb_neq in Hr. rewrite Hr. apply orb_true_r. }
  assert (Hmin : min_size dest src
                 * transfer_size (GFC_DESCRIPTOR_RANK dest) dest = nbytes).
  { unfold min_size. rewrite Hsize.
    destruct (GFC_DESCRIPTOR_SIZE dest >? GFC_DESCRIPTOR_SIZE dest);
      reflexivity. }
  unfold sendget. cbv zeta. rewrite Hsz.
  rewrite (bind_Returns _ _ _ _ _
             (check_image_health_ok image_index_s stat rt
                (fun H => proj1 (Hhealth H)))).
  cbn [fst snd].
  rewrite (bind_Returns _ _ _ _ _
             (check_image_health_ok image_index_g stat rt
                (fun H => proj2 (Hhealth H)))).
  cbn [fst snd]. rewrite Hcond, Hsame, Hmin. fold nbytes. rewrite Hnb.
  replace (transfer_size (GFC_DESCRIPTOR_RANK dest) dest
           * GFC_DESCRIPTOR_SIZE dest) with nbytes by (unfold nbytes; lia).
  rewrite to_size_t_small by lia.
  set (data := Mem.load (memory rt (image_index_g - 1))
                 (win_base token_g (image_index_g - 1) + offset_g)
                 (Z.to_nat nbytes)).
  assert (Hdata : List.length data = Z.to_nat nbytes) by apply load_length.
  unfold bind at 1, rma_get at 1. unfold bind at 1, get_rt at 1.
  cbn beta iota. rewrite Hvg.
  replace (nbytes <? 0) with false by (symmetry; apply Z.ltb_ge; lia).
  rewrite Z.ltb_irrefl. cbn [orb negb].
  unfold bind at 1. rewrite emit_run. cbn beta iota. unfold ret at 1.
  cbn beta iota. fold data. rewrite <- Hdata, poke_whole.
  unfold bind at 1. rewrite emit_run. cbn beta iota.
  unfold bind at 1, rma_put at 1. unfold bind at 1, get_rt at 1.
  cbn beta iota. unfold valid_rank. autorewrite with rt.
  fold (valid_rank rt (image_index_s - 1)). rewrite Hvs.
  replace (nbytes <? 0) with false by (symmetry; apply Z.ltb_ge; lia).
  rewrite Z.ltb_irrefl. cbn [orb negb].
  rewrite <- Hdata, firstn_all.
  unfold bind at 1. unfold bind at 1, modify at 1. cbn beta iota.
  unfold bind at 1. rewrite emit_run. cbn beta iota. unfold ret at 1.
  cbn beta iota. rewrite emit_run. cbn beta iota.
  change (negb (MPI_SUCCESS =? 0)) with false. cbn iota. unfold ret.
  eexists. split; [reflexivity|].
  autorewrite with rt. split; [reflexivity|].
  rewrite <- !app_assoc. reflexivity.
Qed.

(** *** Transfers addressed to a failed image *)

Lemma check_image_health_failed (image_index : Z) (s : Z) (rt : runtime) :
  WITH_FAILED_IMAGES cfg = true ->
  Znth (image_stati rt) (image_index - 1) = STAT_FAILED_IMAGE ->
  check_image_health image_index (Some s) rt
  = Returns (true, Some STAT_FAILED_IMAGE) rt.
Proof.
  intros Hwf Hfailed. unfold check_image_health. rewrite Hwf.
  unfold bind, get_rt. cbn beta iota. rewrite Hfailed, Z.eqb_refl.
  reflexivity.
Qed.

(** X21.  In a build with failed-image support, [send] and [get] of a
    non-empty object on an image recorded as failed, called with a [stat]
    argument, transfer nothing: the call returns with [stat] set to
    [STAT_FAILED_IMAGE] and the runtime (memory of every image and
    transport log) is as before. *)
Theorem transfer_on_failed_image_reports :
  forall (token : MPI_Win) (offset image_index : Z)
         (dest src : gfc_descriptor_t) (dst_kind src_kind : Z) (mrt : bool)
         (s : Z) (rt : runtime),
    WITH_FAILED_IMAGES cfg = true ->
    Znth (image_stati rt) (image_index - 1) = STAT_FAILED_IMAGE ->
    (transfer_size (GFC_DESCRIPTOR_RANK dest) dest <> 0 ->
     send token offset image_index dest src dst_kind src_kind mrt (Some s) rt
     = Returns (Some STAT_FAILED_IMAGE) rt)
    /\ (transfer_size (GFC_DESCRIPTOR_RANK src) dest <> 0 ->
        get token offset image_index src dest src_kind dst_kind mrt (Some s) rt
        = Returns (Some STAT_FAILED_IMAGE) rt).
Proof.
  intros token offset image_index dest src dst_kind src_kind mrt s rt
    Hwf Hfailed.
  pose proof (check_image_health_failed image_index s rt Hwf Hfailed) as Hc.
  split; intros Hsize; apply Z.eqb_neq in Hsize.
  - unfold send. cbv zeta. rewrite Hsize.
    rewrite (bind_Returns _ _ _ _ _ Hc). reflexivity.
  - unfold get. cbv zeta. rewrite Hsize.
    rewrite (bind_Returns _ _ _ _ _ Hc). reflexivity.
Qed.

(** *** The reference walker: how many elements a triplet selects *)

(** The element [x] lies on the side of [ub] that a section running from
    [lb] with [stride] covers. *)
Definition within_section (stride ub x : Z) : Prop :=
  if stride >? 0 then x <= ub else ub <= x.

Lemma quot_count (num stride k : Z) :
  0 < num -> 0 < stride -> 0 <= k ->
  (k * stride < num <-> k < 1 + Z.quot (num - 1) stride).
Proof.
  intros Hnum Hstride Hk.
  rewrite Z.quot_div_nonneg by lia.
  pose proof (Z.div_mod (num - 1) stride ltac:(lia)) as Hdm.
  pose proof (Z.mod_pos_bound (num - 1) stride ltac:(lia)) as Hmod.
  split; intros H; nia.
Qed.

(** X22.  [COMPUTE_NUM_ITEMS] counts the elements of a triplet: for
    bounds and stride that fit the index type, it gives [n >= 1] exactly
    when the section [lb, lb + stride, ...] up to (or, for a negative
    stride, down to) [ub] has [n] elements, and makes the caller return
    when the section is empty or the stride is zero. *)
Theorem COMPUTE_NUM_ITEMS_counts_section :
  forall stride lb ub : Z,
    - 2 ^ 62 < stride < 2 ^ 62 ->
    - 2 ^ 62 < lb < 2 ^ 62 ->
    - 2 ^ 62 < ub < 2 ^ 62 ->
    match COMPUTE_NUM_ITEMS stride lb ub with
    | Some n =>
        stride <> 0 /\ 1 <= n
        /\ forall k, 0 <= k ->
             (within_section stride ub (lb + k * stride) <-> k < n)
    | None =>
        stride = 0
        \/ forall k, 0 <= k -> ~ within_section stride ub (lb + k * stride)
    end.
Proof.
  intros stride lb ub Hs Hlb Hub. unfold COMPUTE_NUM_ITEMS, within_section.
  cbv zeta.
  destruct (stride >? 0) eqn:Epos.
  - apply Z.gtb_lt in Epos.
    rewrite (to_ptrdiff_t_small (ub + 1)) by lia.
    rewrite (to_ptrdiff_t_small (ub + 1 - lb)) by lia.
    destruct (ub + 1 - lb <=? 0) eqn:Enum; cbn [orb].
    + apply Z.leb_le in Enum. right. intros k Hk. nia.
    + apply Z.leb_gt in Enum.
      replace (stride <? 1) with false by (symmetry; apply Z.ltb_ge; lia).
      destruct (stride >? 1) eqn:Eone.
      * apply Z.gtb_lt in Eone.
        assert (Hq : 0 <= Z.quot (ub + 1 - lb - 1) stride
                     <= ub + 1 - lb - 1).
        { rewrite Z.quot_div_nonneg by lia. split.
          - apply Z.div_pos; lia.
          - apply Z.div_le_upper_bound; nia. }
        rewrite to_ptrdiff_t_small by lia.
        split; [lia|]. split; [lia|]. intros k Hk.
        rewrite <- (quot_count (ub + 1 - lb) stride k) by lia. lia.
      * assert (stride = 1) by (rewrite Z.gtb_ltb in Eone;
                                apply Z.ltb_ge in Eone; lia).
        subst stride. split; [lia|]. split; [lia|]. intros k Hk. lia.
  - rewrite Z.gtb_ltb in Epos. apply Z.ltb_ge in Epos.
    rewrite (to_ptrdiff_t_small (- stride)) by lia.
    rewrite (to_ptrdiff_t_small (lb + 1)) by lia.
    rewrite (to_ptrdiff_t_small (lb + 1 - ub)) by lia.
    destruct (lb + 1 - ub <=? 0) eqn:Enum; cbn [orb].
    + apply Z.leb_le in Enum. right. intros k Hk. nia.
    + apply Z.leb_gt in Enum.
      destruct (- stride <? 1) eqn:Ezero.
      * apply Z.ltb_lt in Ezero. left. lia.
      * apply Z.ltb_ge in Ezero.
        destruct (- stride >? 1) eqn:Eone.
        -- apply Z.gtb_lt in Eone.
           assert (Hq : 0 <= Z.quot (lb + 1 - ub - 1) (- stride)
                        <= lb + 1 - ub - 1).
           { rewrite Z.quot_div_nonneg by lia. split.
             - apply Z.div_pos; lia.
             - apply Z.div_le_upper_bound; nia. }
           rewrite to_ptrdiff_t_small by lia.
           split; [lia|]. split; [lia|]. intros k Hk.
           rewrite <- (quot_count (lb + 1 - ub) (- stride) k) by lia. lia.
        -- assert (stride = -1) by (rewrite Z.gtb_ltb in Eone;
                                    apply Z.ltb_ge in Eone; lia).
           subst stride. split; [lia|]. split; [lia|]. intros k Hk. lia.
Qed.

End Runtime.

(** ** A concrete program: two images, seen from image 1 *)

Module Example.

(** The default build. *)
Definition cfg : build := mkBuild false false.

(** The values libcaf.h gives the status codes. *)
Definition STAT_DUP_SYNC_IMAGES : Z := 3.
Definition STAT_STOPPED_IMAGE : Z := 6000.
Definition STAT_FAILED_IMAGE : Z := 6001.

(** A descriptor is taken as contiguous when the stride of each dimension
    is the number of elements of the dimensions before it. *)
Definition is_contiguous (d : gfc_descriptor_t) : bool :=
  fst (fold_left
         (fun acc j =>
            let '(ok, extent) := acc in
            let dj := dim_at d j in
            (ok && (_stride dj =? extent)
                && (0 <? _ubound dj - lower_bound dj + 1),
             extent * (_ubound dj - lower_bound dj + 1)))
         (seq 0 (Z.to_nat (GFC_DESCRIPTOR_RANK d))) (true, 1)).

(** Memory of image 1 holds the byte [a mod 256] at address [a]; the
    memory of image 2 is zero. *)
Definition memory0 : Z -> Mem.t :=
  fun rank a => if rank =? 0 then a mod 256 else 0.

Definition rt0 : runtime :=
  mkRuntime 1 2 0 true 0 [2] [0; 0] [0; 0] false [] [] memory0 4096 [].

(** A window whose memory starts at address 1024 on every image. *)
Definition win0 : MPI_Win := mkWin 7 (fun _ => 1024).

(** What the transport computes for an accumulate on [MPI_INT]; other
    datatypes are floating point and are given the origin here. *)
Definition mpi_reduce (op : MPI_Op) (dt : MPI_Datatype) (target origin : list Z)
  : list Z :=
  match dt with
  | MPI_INT =>
      let t := Mem.int32_of_bytes target in
      let o := Mem.int32_of_bytes origin in
      Mem.bytes_of_int32
        match op with
        | MPI_SUM => t + o
        | MPI_BAND => Z.land t o
        | MPI_BOR => Z.lor t o
        | MPI_BXOR => Z.lxor t o
        | MPI_REPLACE => o
        | MPI_NO_OP => t
        end
  | _ => origin
  end.

(** The other image answers every synchronisation and leaves the locks
    alone. *)
Definition sync_peer : Z -> waitany_result := fun _ => Completed 0.
Definition peers : nat -> (Z -> Mem.t) -> (Z -> Mem.t) := fun _ mem => mem.
Definition new_window : runtime -> Z -> MPI_Win := fun _ _ => win0.

(** MPI has not been initialised when the runtime starts, and the images
    agree. *)
Definition is_init : bool := false.
Definition comm_agree_rc : Z := 0.

(** Ten [INTEGER*4] elements: the coarray, and two local arrays at the
    addresses 200 and 400. *)
Definition ten_integers (base : Z) : gfc_descriptor_t :=
  mkDesc base 1 BT_INTEGER 4 [mkDim 1 1 10].

(** A runtime that has been finalized. *)
Definition rt_finalized : runtime := set_caf_is_finalized 1 rt0.

(** Image 1 holds the lock in slot 0 of [win0] on image 1. *)
Definition rt_locked : runtime :=
  set_memory (update_rank memory0 0 (Mem.store_int (memory0 0) 1024 1)) rt0.

Lemma rt0_initialised : initialised rt0.
Proof. split; [simpl; lia | reflexivity]. Defined.

(** *** C8: what [stop_numeric] and [stop_str] leave of the runtime *)

(** [stop_numeric (1)] does not exit with the code 0.  After
    [stop_numeric (0)] and after [stop_str] the runtime is not finalized:
    [caf_is_finalized] is still 0 and the calls are the line on stderr,
    the flush of the status window, the announcement to image 2 and
    [MPI_Abort], without the barrier, the release of the windows and
    [MPI_Finalize] that [finalize] issues. *)
Lemma stop_counterexample :
  ~ (forall stop_code : Z,
        exists rt',
          stop_numeric cfg STAT_STOPPED_IMAGE (A:=unit) stop_code rt0
          = Exits 0 rt')
  /\ caf_is_finalized
       (final_state (stop_numeric cfg STAT_STOPPED_IMAGE (A:=unit) 0 rt0)) = 0
  /\ events
       (final_state (stop_numeric cfg STAT_STOPPED_IMAGE (A:=unit) 0 rt0))
     = [Stderr_stop 0; Win_flush 0 stat_tok;
        Send STAT_STOPPED_IMAGE 1 MPI_TAG_CAF_SYNC_IMAGES; MPI_Abort 0]
  /\ caf_is_finalized
       (final_state (stop_str cfg STAT_STOPPED_IMAGE (A:=unit) "done" 4 rt0))
     = 0
  /\ events
       (final_state (stop_str cfg STAT_STOPPED_IMAGE (A:=unit) "done" 4 rt0))
     = [Stderr "STOP done"; Win_flush 0 stat_tok;
        Send STAT_STOPPED_IMAGE 1 MPI_TAG_CAF_SYNC_IMAGES; MPI_Abort 0]
  /\ caf_is_finalized (final_state (finalize cfg STAT_STOPPED_IMAGE rt0)) = 1
  /\ events (final_state (finalize cfg STAT_STOPPED_IMAGE rt0))
     = [Win_flush 0 stat_tok;
        Send STAT_STOPPED_IMAGE 1 MPI_TAG_CAF_SYNC_IMAGES; Barrier;
        Free_slave_tokens; Free_tokens; Free_windows_and_comm; MPI_Finalize].
Proof.
  split.
  - intros H. destruct (H 1) as [rt' E]. vm_compute in E. discriminate E.
  - repeat split; vm_compute; reflexivity.
Qed.

Lemma stop_witness :
  initialised rt0
  /\ (exists rt',
         stop_numeric cfg STAT_STOPPED_IMAGE (A:=unit) 3 rt0 = Exits 3 rt'
         /\ img_status rt' = STAT_STOPPED_IMAGE
         /\ caf_is_finalized rt' = 0)
  /\ (exists rt',
         stop_str cfg STAT_STOPPED_IMAGE (A:=unit) "done" 4 rt0 = Exits 0 rt'
         /\ img_status rt' = STAT_STOPPED_IMAGE
         /\ caf_is_finalized rt' = 0).
Proof.
  split; [exact rt0_initialised|].
  assert (Hs0 : STAT_STOPPED_IMAGE <> 0) by (unfold STAT_STOPPED_IMAGE; lia).
  destruct (stop_sets_status_announces_and_exits cfg STAT_STOPPED_IMAGE 3
              "done" 4 rt0 rt0_initialised)
    as [(rt1 & H1 & Hst1 & _ & Hrest1) (rt2 & H2 & Hst2 & _ & Hrest2)].
  split.
  - exists rt1. split; [exact H1|]. split; [exact Hst1|].
    exact (proj1 (Hrest1 Hs0)).
  - exists rt2. split; [exact H2|]. split; [exact Hst2|].
    exact (proj1 (Hrest2 Hs0)).
Defined.

(** *** C1: ten integers sent to image 2 and fetched back *)

Lemma ten_integers_in_range (base : Z) :
  extents_in_range (GFC_DESCRIPTOR_RANK (ten_integers base)) (ten_integers base).
Proof.
  intros j Hj. simpl in Hj. assert (j = 0%nat) by lia. subst j.
  simpl. lia.
Defined.

Lemma ten_integers_like_shaped (base base' : Z) :
  like_shaped (ten_integers base) (ten_integers base').
Proof. split; [reflexivity|]. intros j _. reflexivity. Defined.

Lemma rt0_peer_ok : peer_ok cfg STAT_FAILED_IMAGE 2 rt0.
Proof. split; [simpl; lia|]. intros H. discriminate H. Defined.

Lemma round_trip_witness :
  exists rt1 rt2,
    send cfg STAT_STOPPED_IMAGE STAT_FAILED_IMAGE is_contiguous win0 0 2
      (ten_integers 0) (ten_integers 200) 4 4 false None rt0
    = Returns None rt1
    /\ get cfg STAT_STOPPED_IMAGE STAT_FAILED_IMAGE is_contiguous win0 0 2
         (ten_integers 0) (ten_integers 400) 4 4 false None rt1
       = Returns None rt2
    /\ array_bytes (local_memory rt2) (ten_integers 400)
       = array_bytes (local_memory rt0) (ten_integers 200).
Proof.
  apply (send_get_round_trip cfg STAT_STOPPED_IMAGE STAT_FAILED_IMAGE
           is_contiguous win0 0 2 4 (ten_integers 0)).
  - apply ten_integers_in_range.
  - simpl. lia.
  - vm_compute. reflexivity.
  - reflexivity.
  - exact rt0_peer_ok.
  - reflexivity.
  - reflexivity.
  - reflexivity.
  - apply ten_integers_like_shaped.
  - reflexivity.
  - reflexivity.
  - reflexivity.
  - apply ten_integers_like_shaped.
Defined.

(** Arrays of [INTEGER*4] of 2^31 and of 2^32 bytes. *)
Definition integers_2GiB (base : Z) : gfc_descriptor_t :=
  mkDesc base 1 BT_INTEGER 4 [mkDim 1 1 (2 ^ 29)].
Definition integers_4GiB (base : Z) : gfc_descriptor_t :=
  mkDesc base 1 BT_INTEGER 4 [mkDim 1 1 (2 ^ 30)].

(** The byte count of a transfer is handed to the transport as an [int].
    For a contiguous array of 2^31 bytes the count is negative and the
    [send] to image 2 is an erroneous call of [MPI_Put]: the process is
    aborted before a byte is moved.  For a contiguous array of 2^32 bytes
    the count is 0: [send] and [get] both return, nothing is moved, and
    the first byte of [B] is not the first byte of [A]. *)
Lemma round_trip_large_array_counterexample :
  (is_contiguous (integers_2GiB 0) = true
   /\ array_nbytes (integers_2GiB 0) = 2 ^ 31
   /\ send cfg STAT_STOPPED_IMAGE STAT_FAILED_IMAGE is_contiguous win0 0 2
        (integers_2GiB 0) (integers_2GiB 0) 4 4 false None rt0
      = Aborts rt0)
  /\ (let o := send cfg STAT_STOPPED_IMAGE STAT_FAILED_IMAGE is_contiguous
                 win0 0 2 (integers_4GiB 0) (integers_4GiB 0) 4 4 false None
                 rt0 in
      let o' := get cfg STAT_STOPPED_IMAGE STAT_FAILED_IMAGE is_contiguous
                  win0 0 2 (integers_4GiB 0) (integers_4GiB (2 ^ 33 + 1)) 4 4
                  false None (final_state o) in
      is_contiguous (integers_4GiB 0) = true
      /\ array_nbytes (integers_4GiB 0) = 2 ^ 32
      /\ (exists rt1, o = Returns None rt1)
      /\ (exists rt2, o' = Returns None rt2)
      /\ events (final_state o')
         = [Put 1 0 0 7; Win_flush 1 7; Get 1 0 0 7; Win_flush 1 7]
      /\ array_bytes (local_memory (final_state o'))
           (integers_4GiB (2 ^ 33 + 1))
         <> array_bytes (local_memory rt0) (integers_4GiB 0)).
Proof.
  split.
  - split; [reflexivity|]. split; [reflexivity|]. vm_compute. reflexivity.
  - intros o o'.
    assert (Ho : match o with Returns None _ => true | _ => false end = true)
      by (vm_compute; reflexivity).
    assert (Ho' : match o' with Returns None _ => true | _ => false end = true)
      by (vm_compute; reflexivity).
    split; [reflexivity|]. split; [reflexivity|].
    split; [destruct o as [[s|] rt1|c rt1|rt1|rt1]; try discriminate Ho;
            exists rt1; reflexivity|].
    split; [destruct o' as [[s|] rt2|c rt2|rt2|rt2]; try discriminate Ho';
            exists rt2; reflexivity|].
    split; [vm_compute; reflexivity|].
    unfold array_bytes.
    change (array_nbytes (integers_4GiB (2 ^ 33 + 1))) with (2 ^ 32).
    change (array_nbytes (integers_4GiB 0)) with (2 ^ 32).
    intros H. apply (f_equal (firstn 1)) in H.
    rewrite !firstn_load in H by lia.
    vm_compute in H. discriminate H.
Qed.

(** *** C2: transfers on an array without elements *)

(** An array of rank 1 and extent 0. *)
Definition empty_array : gfc_descriptor_t :=
  mkDesc 600 1 BT_INTEGER 4 [mkDim 1 1 0].

Lemma zero_count_witness :
  element_count (GFC_DESCRIPTOR_RANK empty_array) empty_array = 0
  /\ send cfg STAT_STOPPED_IMAGE STAT_FAILED_IMAGE is_contiguous win0 0 2
       empty_array (ten_integers 200) 4 4 false (Some 5) rt0
     = Returns (Some 5) rt0
  /\ get cfg STAT_STOPPED_IMAGE STAT_FAILED_IMAGE is_contiguous win0 0 2
       empty_array empty_array 4 4 false (Some 5) rt0
     = Returns (Some 5) rt0.
Proof.
  assert (Hr : extents_in_range (GFC_DESCRIPTOR_RANK empty_array) empty_array).
  { intros j Hj. simpl in Hj. assert (j = 0%nat) by lia. subst j. simpl. lia. }
  pose proof (zero_count_transfer_is_noop cfg STAT_STOPPED_IMAGE
                STAT_FAILED_IMAGE is_contiguous win0 win0 0 0 2 2 empty_array
                (ten_integers 200) 4 4 false (Some 5) rt0) as [Hsend _].
  pose proof (zero_count_transfer_is_noop cfg STAT_STOPPED_IMAGE
                STAT_FAILED_IMAGE is_contiguous win0 win0 0 0 2 2 empty_array
                empty_array 4 4 false (Some 5) rt0) as (_ & _ & Hget).
  split; [reflexivity|]. split.
  - apply (Hsend Hr eq_refl).
  - apply (Hget eq_refl Hr eq_refl).
Defined.

(** *** C3: a CHARACTER(2) element sent into a CHARACTER(4) element *)

(** One element of two characters on the calling image, [de] at address
    100, and one element of four characters in the window of image 2. *)
Definition char2_local : gfc_descriptor_t :=
  mkDesc 100 1 BT_CHARACTER 2 [mkDim 1 1 1].
Definition char4_remote : gfc_descriptor_t :=
  mkDesc 0 1 BT_CHARACTER 4 [mkDim 1 1 1].
Definition char2_remote : gfc_descriptor_t :=
  mkDesc 0 1 BT_CHARACTER 2 [mkDim 1 1 1].
Definition char4_local : gfc_descriptor_t :=
  mkDesc 300 1 BT_CHARACTER 4 [mkDim 1 1 1].

(** C3.  [send] of a CHARACTER(2) element of kind 1 into a CHARACTER(4)
    element of another image goes element by element: it puts four bytes
    read from the two-byte source at the start of the destination element
    and then puts the two blanks of [pad_str] at the same displacement, the
    start of the element.  The destination then holds the blanks in its
    first two bytes and, in its trailing two bytes, the bytes that follow
    the source in the memory of the sender; the two characters sent are
    lost.  [get] with the same sizes leaves the blanks in the trailing two
    bytes. *)
Theorem send_character_padding_misplaced :
  let o := send cfg STAT_STOPPED_IMAGE STAT_FAILED_IMAGE is_contiguous win0 0
             2 char4_remote char2_local 1 1 false None rt0 in
  let o' := get cfg STAT_STOPPED_IMAGE STAT_FAILED_IMAGE is_contiguous win0 0
              2 char2_remote char4_local 1 1 false None rt0 in
  Mem.load (memory rt0 0) 100 4 = [100; 101; 102; 103]
  /\ (exists rt', o = Returns None rt')
  /\ events (final_state o) = [Put 1 0 4 7; Put 1 0 2 7; Win_flush 1 7]
  /\ Mem.load (memory (final_state o) 1) 1024 4 = [32; 32; 102; 103]
  /\ skipn 2 (Mem.load (memory (final_state o) 1) 1024 4) <> [32; 32]
  /\ skipn 2 (Mem.load (memory (final_state o') 0) 300 4) = [32; 32].
Proof.
  cbv zeta. repeat split; try (vm_compute; reflexivity).
  - eexists. vm_compute. reflexivity.
  - vm_compute. intros H. discriminate H.
Qed.

(** *** C4: the section [1:10:3] of a dimension with bounds 1 and 10 *)

Lemma array_ref_dimension_witness :
  (exists memptr_step,
      get_by_ref_array_dim CAF_ARR_REF_RANGE (mkRefDim 1 10 3 [] 0 0) 4
        (mkDim 1 1 10)
      = Plan_items 4 memptr_step)
  /\ get_for_ref_extent_src CAF_ARR_REF_RANGE (mkRefDim 1 10 3 [] 0 0)
       (mkDim 1 1 10)
     = Some 4
  /\ (exists memptr_step,
         get_by_ref_static_array_dim CAF_ARR_REF_RANGE
           (mkRefDim 1 10 3 [] 0 0) 4
         = Plan_items 4 memptr_step).
Proof.
  destruct (array_ref_dimension_count CAF_ARR_REF_RANGE
              (mkRefDim 1 10 3 [] 0 0) 4 (mkDim 1 1 10) 1 10)
    as [Hdesc Hstatic].
  - simpl. lia.
  - simpl. lia.
  - lia.
  - lia.
  - simpl. lia.
  - destruct Hdesc as [Hplan Hcopy]; [reflexivity | reflexivity | reflexivity |].
    split; [exact Hplan|]. split; [exact Hcopy|].
    apply Hstatic; reflexivity.
Defined.

(** *** C5 and C10: image sets on the two images of [rt0] *)

Lemma sync_images_witness :
  (exists errmsg' rt',
      sync_images_internal cfg STAT_STOPPED_IMAGE STAT_FAILED_IMAGE
        STAT_DUP_SYNC_IMAGES sync_peer 2 [2; 2] (Some 7) [] 0 false rt0
      = Returns (Some STAT_DUP_SYNC_IMAGES, errmsg') rt')
  /\ (exists rt',
         sync_images_internal cfg STAT_STOPPED_IMAGE STAT_FAILED_IMAGE
           STAT_DUP_SYNC_IMAGES sync_peer 1 [1] (Some 7) [] 0 false rt0
         = Returns (Some 0, []) rt'
         /\ events rt' = events rt0)
  /\ In (Send 0 1 MPI_TAG_CAF_SYNC_IMAGES)
       (events
          (final_state
             (sync_images_internal cfg STAT_STOPPED_IMAGE STAT_FAILED_IMAGE
                STAT_DUP_SYNC_IMAGES sync_peer (-1) [] (Some 7) [] 0 false
                rt0))).
Proof.
  split; [|split].
  - destruct (sync_images_rules cfg STAT_STOPPED_IMAGE STAT_FAILED_IMAGE
                STAT_DUP_SYNC_IMAGES sync_peer 2 [2; 2] (Some 7) [] 0 false
                rt0) as [Hdup _].
    apply (Hdup 7 1%nat 0%nat); [reflexivity | simpl; lia | reflexivity].
  - destruct (sync_images_rules cfg STAT_STOPPED_IMAGE STAT_FAILED_IMAGE
                STAT_DUP_SYNC_IMAGES sync_peer 1 [1] (Some 7) [] 0 false
                rt0) as (_ & Hnoop & _).
    destruct Hnoop as (rt' & Hrun & Hev & _).
    + right. split; reflexivity.
    + exists rt'. split; assumption.
  - destruct (sync_images_rules cfg STAT_STOPPED_IMAGE STAT_FAILED_IMAGE
                STAT_DUP_SYNC_IMAGES sync_peer (-1) [] (Some 7) [] 0 false
                rt0) as (_ & _ & Hall).
    destruct Hall as (_ & _ & Hposted);
      [reflexivity | exact rt0_initialised | reflexivity |].
    apply (Hposted 2); simpl; lia.
Defined.

Lemma sync_images_finalized_witness :
  (exists rt',
      sync_images_internal cfg STAT_STOPPED_IMAGE STAT_FAILED_IMAGE
        STAT_DUP_SYNC_IMAGES sync_peer 1 [1] (Some 7) [] 0 false rt_finalized
      = Returns (Some 0, []) rt'
      /\ events rt' = events rt_finalized)
  /\ (exists errmsg' rt',
         sync_images_internal cfg STAT_STOPPED_IMAGE STAT_FAILED_IMAGE
           STAT_DUP_SYNC_IMAGES sync_peer 1 [2] (Some 7) [] 0 false
           rt_finalized
         = Returns (Some STAT_STOPPED_IMAGE, errmsg') rt').
Proof.
  split.
  - destruct (sync_images_noop_precedes_finalized_check cfg STAT_STOPPED_IMAGE
                STAT_FAILED_IMAGE STAT_DUP_SYNC_IMAGES sync_peer 1 [1]
                (Some 7) [] 0 false rt_finalized) as [Hnoop _].
    destruct Hnoop as (rt' & Hrun & Hev & _).
    + right. split; reflexivity.
    + exists rt'. split; assumption.
  - destruct (sync_images_noop_precedes_finalized_check cfg STAT_STOPPED_IMAGE
                STAT_FAILED_IMAGE STAT_DUP_SYNC_IMAGES sync_peer 1 [2]
                (Some 7) [] 0 false rt_finalized) as [_ Hstopped].
    apply (Hstopped 7).
    + reflexivity.
    + simpl. lia.
    + simpl. lia.
    + reflexivity.
    + reflexivity.
Defined.

(** *** C6: image 1 locks a slot of its own that it holds *)

Lemma lock_self_deadlock_witness :
  exists rt',
    lock cfg STAT_STOPPED_IMAGE STAT_FAILED_IMAGE peers 5 win0 0 0 None
      (Some 0) (Some (Buf.chars "????????????????")) 16 rt_locked
    = Returns
        (mkLocked (Some 99) None (Some (Buf.chars "Already locked  "))) rt'
    /\ memory rt' = memory rt_locked.
Proof.
  apply (lock_self_deadlock_reported cfg STAT_STOPPED_IMAGE STAT_FAILED_IMAGE
           peers 5 win0 0 0 None (Some 0)
           (Some (Buf.chars "????????????????")) 16 rt_locked).
  - left. reflexivity.
  - simpl. lia.
  - lia.
  - vm_compute. reflexivity.
  - lia.
  - intros buf H. injection H as <-. reflexivity.
Defined.

(** *** C7: [register] on a finalized and on a running runtime *)

(** No call of [register] on a runtime that has not been finalized comes
    back with the generic failure code 1 in a [stat] that held 0: the
    block after [error:] is not reached from there, whatever the
    allocation gave. *)
Lemma register_generic_failure_counterexample :
  ~ (exists (window : runtime -> Z -> MPI_Win) (size : Z)
            (type : caf_register_t) (token : option Z)
            (desc : gfc_descriptor_t) (errmsg : list ascii) (errmsg_len : Z)
            (rt : runtime) (r : registered) (rt' : runtime),
        caf_is_finalized rt = 0
        /\ register cfg STAT_STOPPED_IMAGE 2 0 is_init comm_agree_rc window
             size type token desc (Some 0) errmsg errmsg_len rt
           = Returns r rt'
        /\ reg_stat r = Some 1).
Proof.
  intros (window & size & type & token & desc & errmsg & errmsg_len & rt & r
          & rt' & Hfin & Hrun & Hstat).
  destruct (register_running cfg STAT_STOPPED_IMAGE 2 0 is_init comm_agree_rc
              window size type token desc (Some 0) errmsg errmsg_len rt Hfin)
    as [Hret _].
  destruct (Hret r rt' Hrun) as [Hs _]. rewrite Hs in Hstat.
  destruct type; discriminate Hstat.
Qed.

Lemma register_failure_witness :
  (exists r,
      register cfg STAT_STOPPED_IMAGE 2 0 is_init comm_agree_rc new_window 40
        CAF_REGTYPE_COARRAY_ALLOC None (ten_integers 0) (Some 0)
        (Buf.chars "????????") 8 rt_finalized
      = Returns r rt_finalized
      /\ reg_stat r = Some STAT_STOPPED_IMAGE
      /\ reg_errmsg r = Buf.chars "Failed t")
  /\ (exists rt',
         register cfg STAT_STOPPED_IMAGE 2 0 is_init comm_agree_rc new_window
           40 CAF_REGTYPE_COARRAY_ALLOC None (ten_integers 0) None
           (Buf.chars "????????") 8 rt_finalized
         = Exits EXIT_FAILURE rt')
  /\ (forall r rt',
         register cfg STAT_STOPPED_IMAGE 2 0 is_init comm_agree_rc new_window
           40 CAF_REGTYPE_COARRAY_ALLOC None (ten_integers 0) (Some 5)
           (Buf.chars "????????") 8 rt0
         = Returns r rt' ->
         reg_stat r = Some 0 /\ reg_errmsg r = Buf.chars "????????").
Proof.
  split; [|split].
  - destruct (register_failure_reports cfg STAT_STOPPED_IMAGE 2 0 is_init
                comm_agree_rc new_window 40 CAF_REGTYPE_COARRAY_ALLOC None
                (ten_integers 0) (Some 0) (Buf.chars "????????") 8
                rt_finalized) as [Hfail _].
    + lia.
    + reflexivity.
    + destruct Hfail as (r & Hrun & Hstat & Hmsg); [simpl; lia|].
      exists r. split; [exact Hrun|]. split; [exact Hstat|].
      rewrite Hmsg. vm_compute. reflexivity.
  - destruct (register_failure_reports cfg STAT_STOPPED_IMAGE 2 0 is_init
                comm_agree_rc new_window 40 CAF_REGTYPE_COARRAY_ALLOC None
                (ten_integers 0) None (Buf.chars "????????") 8
                rt_finalized) as [Hfail _].
    + lia.
    + reflexivity.
    + destruct Hfail as (rt' & Hrun & _); [simpl; lia|].
      exists rt'. exact Hrun.
  - destruct (register_failure_reports cfg STAT_STOPPED_IMAGE 2 0 is_init
                comm_agree_rc new_window 40 CAF_REGTYPE_COARRAY_ALLOC None
                (ten_integers 0) (Some 5) (Buf.chars "????????") 8 rt0)
      as [_ Hrunning].
    + lia.
    + reflexivity.
    + exact (proj1 (Hrunning eq_refl)).
Defined.

(** *** C9: an atomic operation on a variable of image 2 *)

Lemma atomic_op_old_witness :
  Mem.load
    (local_memory
       (final_state
          (atomic_op cfg STAT_STOPPED_IMAGE mpi_reduce 1 win0 0 2 100 200
             (Some 0) 4 rt0))) 200 4
  = Mem.load (local_memory rt0) 200 4.
Proof.
  apply (atomic_op_leaves_old_unchanged cfg STAT_STOPPED_IMAGE mpi_reduce 1
           win0 0 2 100 200 (Some 0) 4 4 rt0).
  - simpl. lia.
  - left. vm_compute. lia.
Defined.

(** *** Further runs on the two images of [rt0] *)

(** A transport that copies the bytes for [MPI_REPLACE] and [MPI_NO_OP],
    whatever the datatype. *)
Definition mpi_reduce_exact (op : MPI_Op) (dt : MPI_Datatype)
    (target origin : list Z) : list Z :=
  match op with
  | MPI_REPLACE => origin
  | MPI_NO_OP => target
  | _ => mpi_reduce op dt target origin
  end.

Lemma mpi_reduce_exact_replace : replace_is_origin mpi_reduce_exact.
Proof. intros dt found origin. reflexivity. Defined.

Lemma mpi_reduce_exact_no_op : no_op_is_target mpi_reduce_exact.
Proof. intros dt found origin. reflexivity. Defined.

Lemma mpi_reduce_exact_sum : sum_adds_integers mpi_reduce_exact.
Proof. intros found origin. reflexivity. Defined.

(** The build with support for failed images, and a runtime of it in
    which image 2 is recorded as failed. *)
Definition cfg_failed : build := mkBuild true false.
Definition rt_failed : runtime :=
  mkRuntime 1 2 0 true 0 [2] [0; 0] [0; STAT_FAILED_IMAGE] false [] []
    memory0 4096 [].

(** A runtime before [init]. *)
Definition rt_start : runtime :=
  mkRuntime 0 0 0 false 0 [] [] [] false [] [] memory0 4096 [].

(** Image 2 holds the lock in slot 0 of [win0] on image 2. *)
Definition rt_held : runtime :=
  set_memory (update_rank memory0 1 (Mem.store_int (memory0 1) 1024 2)) rt0.

(** The other image has stopped. *)
Definition sync_peer_stopped : Z -> waitany_result :=
  fun _ => Completed STAT_STOPPED_IMAGE.

(** The other image releases the lock in slot 0 of [win0] on image 2. *)
Definition peers_release : nat -> (Z -> Mem.t) -> (Z -> Mem.t) :=
  fun _ mem => update_rank mem 1 (Mem.store_int (mem 1) 1024 0).

(** The barrier succeeds; error classes are the error codes. *)
Definition barrier_result : Z := 0.
Definition MPI_Error_class : Z -> Z := fun e => e.


Lemma rt0_exchange_set : exchange_set rt0 1 [2].
Proof.
  split; [reflexivity|]. split; [lia|]. split; [simpl; lia|].
  split; [intros [_ H]; discriminate H|]. split.
  - constructor; [intros H; exact H | constructor].
  - intros p [<- | H]; [simpl; lia | destruct H].
Defined.

(** X1: image 1 synchronises with image 2, which answers. *)
Lemma sync_images_completes_witness :
  exists rt',
    sync_images_internal cfg STAT_STOPPED_IMAGE STAT_FAILED_IMAGE
      STAT_DUP_SYNC_IMAGES sync_peer 1 [2] (Some 7) [] 0 false rt0
    = Returns (Some 0, []) rt'
    /\ memory rt' = memory rt0.
Proof.
  destruct (sync_images_completes cfg STAT_STOPPED_IMAGE STAT_FAILED_IMAGE
              STAT_DUP_SYNC_IMAGES sync_peer 1 [2] (Some 7) [] 0 false rt0)
    as (rt' & Hrun & _ & Hmem & _).
  - unfold STAT_FAILED_IMAGE. lia.
  - exact rt0_exchange_set.
  - intros p _. exists 0. split; [reflexivity|].
    unfold STAT_STOPPED_IMAGE. lia.
  - exists rt'. split; assumption.
Defined.

(** X2: image 1 synchronises with image 2, which has stopped. *)
Lemma sync_images_stopped_peer_witness :
  sync_images_internal cfg STAT_STOPPED_IMAGE STAT_FAILED_IMAGE
    STAT_DUP_SYNC_IMAGES sync_peer_stopped 1 [2] (Some 7) [] 0 false rt0
  = Returns (Some STAT_STOPPED_IMAGE, [])
      (final_state
         (sync_images_internal cfg STAT_STOPPED_IMAGE STAT_FAILED_IMAGE
            STAT_DUP_SYNC_IMAGES sync_peer_stopped 1 [2] (Some 7) [] 0 false
            rt0)).
Proof.
  destruct (sync_images_stopped_peer cfg STAT_STOPPED_IMAGE STAT_FAILED_IMAGE
              STAT_DUP_SYNC_IMAGES sync_peer_stopped 1 [2] [] [] 2 (Some 7)
              [] 0 false rt0) as [Hrun _].
  - unfold STAT_STOPPED_IMAGE. lia.
  - unfold STAT_STOPPED_IMAGE, STAT_FAILED_IMAGE. lia.
  - exact rt0_exchange_set.
  - reflexivity.
  - intros p H. destruct H.
  - reflexivity.
  - reflexivity.
  - exact Hrun.
Defined.

(** X3: image 1 takes the free lock in slot 0 of image 2. *)
Lemma lock_free_slot_witness :
  exists rt',
    lock cfg STAT_STOPPED_IMAGE STAT_FAILED_IMAGE peers 5 win0 0 2 None
      (Some 9) None 0 rt0
    = Returns (mkLocked (Some 0) None None) rt'
    /\ Mem.load_int (memory rt' 1) 1024 = 1.
Proof.
  destruct (lock_free_slot_acquires cfg STAT_STOPPED_IMAGE STAT_FAILED_IMAGE
              peers 5 win0 0 2 None (Some 9) None 0 rt0)
    as (rt' & Hrun & _ & Hslot & _).
  - unfold STAT_FAILED_IMAGE. lia.
  - unfold lock_image. simpl. lia.
  - unfold lock_image. simpl. lia.
  - lia.
  - vm_compute. reflexivity.
  - exists rt'. split; [exact Hrun | exact Hslot].
Defined.

(** X4: image 1 tries the lock in slot 0 of image 2, held by image 2. *)
Lemma try_lock_witness :
  exists rt',
    lock cfg STAT_STOPPED_IMAGE STAT_FAILED_IMAGE peers 5 win0 0 2 (Some 1)
      (Some 9) None 0 rt_held
    = Returns (mkLocked (Some 0) (Some 0) None) rt'
    /\ memory rt' = memory rt_held.
Proof.
  destruct (try_lock_on_held_slot_returns cfg STAT_STOPPED_IMAGE
              STAT_FAILED_IMAGE peers 5 win0 0 2 2 1 (Some 9) None 0 rt_held)
    as (rt' & Hrun & Hmem & _).
  - unfold lock_image. simpl. lia.
  - lia.
  - vm_compute. reflexivity.
  - lia.
  - intros [_ H]. vm_compute in H. discriminate H.
  - exists rt'. split; assumption.
Defined.


(** X6: image 1 waits for the lock image 2 holds and then releases. *)
Lemma blocking_lock_release_witness :
  exists rt',
    lock cfg STAT_STOPPED_IMAGE STAT_FAILED_IMAGE peers_release 1 win0 0 2
      None (Some 9) None 0 rt_held
    = Returns (mkLocked (Some 0) None None) rt'
    /\ Mem.load_int (memory rt' 1) 1024 = 1.
Proof.
  destruct (blocking_lock_acquires_after_release cfg STAT_STOPPED_IMAGE
              STAT_FAILED_IMAGE peers_release 0 win0 0 2 2 (Some 9) None 0
              rt_held) as (rt' & Hrun & _ & Hslot).
  - unfold STAT_FAILED_IMAGE. lia.
  - unfold lock_image. simpl. lia.
  - unfold lock_image. simpl. lia.
  - lia.
  - vm_compute. reflexivity.
  - lia.
  - intros [_ H]. vm_compute in H. discriminate H.
  - vm_compute. reflexivity.
  - exists rt'. split; [exact Hrun | exact Hslot].
Defined.

(** X7: image 1 releases the lock it holds in its own slot 0. *)
Lemma unlock_witness :
  exists rt',
    unlock cfg STAT_STOPPED_IMAGE STAT_FAILED_IMAGE mpi_reduce_exact win0 0 1
      (Some 9) None 0 rt_locked
    = Returns (Some 0, None) rt'
    /\ Mem.load_int (memory rt' 0) 1024 = 0.
Proof.
  destruct (unlock_clears_slot cfg STAT_STOPPED_IMAGE STAT_FAILED_IMAGE
              mpi_reduce_exact win0 0 1 (Some 9) None 0 rt_locked)
    as (rt' & Hrun & _ & Hslot & _).
  - exact mpi_reduce_exact_replace.
  - unfold STAT_FAILED_IMAGE. lia.
  - unfold lock_image. simpl. lia.
  - lia.
  - exists rt'. split; [exact Hrun | exact Hslot].
Defined.

(** X8: [sync_all] on the finalized and on the running runtime. *)
Lemma sync_all_witness :
  sync_all cfg STAT_STOPPED_IMAGE STAT_FAILED_IMAGE barrier_result
    MPI_Error_class (Some 9) [] 0 rt_finalized
  = Returns (Some STAT_STOPPED_IMAGE, []) rt_finalized
  /\ sync_all cfg STAT_STOPPED_IMAGE STAT_FAILED_IMAGE barrier_result
       MPI_Error_class (Some 9) [] 0 rt0
     = Returns (Some 0, []) (set_events (events rt0 ++ [Barrier]) rt0).
Proof.
  assert (H1 : STAT_FAILED_IMAGE <> 0) by (unfold STAT_FAILED_IMAGE; lia).
  assert (H2 : STAT_STOPPED_IMAGE <> STAT_FAILED_IMAGE)
    by (unfold STAT_STOPPED_IMAGE, STAT_FAILED_IMAGE; lia).
  split.
  - apply (sync_all_reports cfg STAT_STOPPED_IMAGE STAT_FAILED_IMAGE
             barrier_result MPI_Error_class (Some 9) [] 0 rt_finalized H1 H2).
    simpl. lia.
  - apply (sync_all_reports cfg STAT_STOPPED_IMAGE STAT_FAILED_IMAGE
             barrier_result MPI_Error_class (Some 9) [] 0 rt0 H1 H2);
      reflexivity.
Defined.

(** X9: [finalize] on [rt0]. *)
Lemma finalize_witness :
  exists rt',
    finalize cfg STAT_STOPPED_IMAGE rt0 = Returns tt rt'
    /\ caf_is_finalized rt' = 1
    /\ img_status rt' = STAT_STOPPED_IMAGE.
Proof.
  destruct (finalize_takes_runtime_down cfg STAT_STOPPED_IMAGE rt0
              rt0_initialised) as (rt' & Hrun & Hfin & Hstatus & _).
  exists rt'. split; [exact Hrun|]. split; assumption.
Defined.

(** X10: [error_stop] with the code 3 and with a message. *)
Lemma error_stop_witness :
  (exists rt', error_stop cfg STAT_STOPPED_IMAGE (A:=unit) 3 rt0 = Exits 3 rt')
  /\ (exists rt',
         error_stop_str cfg STAT_STOPPED_IMAGE (A:=unit) "bad" 3 rt0
         = Exits 1 rt').
Proof.
  destruct (error_stop_exit_codes cfg STAT_STOPPED_IMAGE 3 "bad" 3 rt0)
    as [(rt1 & H1 & _) (rt2 & H2 & _)].
  - unfold STAT_STOPPED_IMAGE. lia.
  - exact rt0_initialised.
  - split; [exists rt1; exact H1 | exists rt2; exact H2].
Defined.

(** X11: [init] of image 1 of 2: the first call, a failed agreement, a
    second call. *)
Lemma init_witness :
  (exists rt',
      init cfg 2 0 is_init comm_agree_rc rt_start = Returns tt rt'
      /\ caf_this_image rt' = 1 /\ caf_num_images rt' = 2
      /\ caf_owns_mpi rt' = true
      /\ events rt'
         = [MPI_Initialized; MPI_Init; Comm_dup CAF_COMM_WORLD; Comm_size;
            Comm_rank; Info_create; Info_set "same_size" "true";
            Win_create stat_tok; Win_lock_all stat_tok;
            Win_create_dynamic global_dynamic_win;
            Win_lock_all global_dynamic_win])
  /\ (exists rt',
         init cfg_failed 2 0 is_init 17 rt_start = Aborts rt'
         /\ caf_num_images rt' = 0)
  /\ init cfg 2 0 is_init comm_agree_rc rt0 = Returns tt rt0.
Proof.
  destruct (init_sets_up_images cfg 2 0 is_init comm_agree_rc rt_start)
    as (Hfirst & _ & _); [lia|].
  destruct (init_sets_up_images cfg_failed 2 0 is_init 17 rt_start)
    as (_ & Hfail & _); [lia|].
  destruct (init_sets_up_images cfg 2 0 is_init comm_agree_rc rt0)
    as (_ & _ & Hagain); [lia|].
  split; [|split].
  - destruct Hfirst
      as (rt' & Hrun & Hthis & Hnum & _ & Hown & _ & _ & _ & _ & _ & Hev & _).
    + reflexivity.
    + intros H. discriminate H.
    + exists rt'. split; [exact Hrun|]. split; [exact Hthis|].
      split; [exact Hnum|]. split; [exact Hown | exact Hev].
  - destruct Hfail as (rt' & Hrun & Hnum & _).
    + reflexivity.
    + reflexivity.
    + unfold MPI_SUCCESS. lia.
    + exists rt'. split; [exact Hrun | exact Hnum].
  - apply Hagain. simpl. lia.
Defined.

(** X12: [register] of two locks. *)
Lemma register_witness :
  exists rt',
    register cfg STAT_STOPPED_IMAGE 2 0 is_init comm_agree_rc new_window 2
      CAF_REGTYPE_LOCK_ALLOC None
      (ten_integers 0) (Some 9) [] 0 rt0
    = Returns (mkRegistered (Some 7) 1024 (Some 0) []) rt'
    /\ caf_allocated_tokens rt' = [7].
Proof.
  destruct (register_allocates_window cfg STAT_STOPPED_IMAGE 2 0 is_init
              comm_agree_rc new_window 2
              CAF_REGTYPE_LOCK_ALLOC None (ten_integers 0) (Some 9) [] 0 rt0)
    as (rt' & Hrun & Htok & _).
  - reflexivity.
  - simpl. lia.
  - lia.
  - intros H. discriminate H.
  - intros H. discriminate H.
  - exists rt'. split; [exact Hrun | exact Htok].
Defined.

(** X13: a value defined on image 2 and read back. *)
Lemma atomic_define_ref_witness :
  exists rt1 rt2,
    atomic_define cfg STAT_STOPPED_IMAGE mpi_reduce_exact win0 0 2 100
      (Some 9) 4 rt0
    = Returns (Some 0) rt1
    /\ atomic_ref cfg STAT_STOPPED_IMAGE mpi_reduce_exact win0 0 2 200
         (Some 9) 4 rt1
       = Returns (Some 0) rt2
    /\ Mem.load (local_memory rt2) 200 4 = Mem.load (local_memory rt0) 100 4.
Proof.
  destruct (atomic_define_then_ref cfg STAT_STOPPED_IMAGE mpi_reduce_exact
              win0 0 2 100 200 (Some 9) (Some 9) 4 rt0)
    as (rt1 & rt2 & H1 & H2 & H3 & _).
  - exact mpi_reduce_exact_replace.
  - exact mpi_reduce_exact_no_op.
  - left. reflexivity.
  - unfold atomic_image. simpl. lia.
  - exists rt1, rt2. split; [exact H1|]. split; [exact H2 | exact H3].
Defined.

(** X14: a compare-and-swap on image 2 whose comparand differs. *)
Lemma atomic_cas_witness :
  exists rt',
    atomic_cas cfg STAT_STOPPED_IMAGE win0 0 2 200 2048 100 (Some 9) 4 rt0
    = Returns (Some 0) rt'
    /\ Mem.load (local_memory rt') 200 4 = [0; 0; 0; 0]
    /\ Mem.load (memory rt' 1) 1024 4 = [0; 0; 0; 0].
Proof.
  destruct (atomic_cas_swaps_on_match cfg STAT_STOPPED_IMAGE win0 0 2 200
              2048 100 (Some 9) rt0) as (rt' & Hrun & Hold & _ & Hkeep & _).
  - unfold atomic_image. simpl. lia.
  - vm_compute. lia.
  - exists rt'. split; [exact Hrun|]. split; [exact Hold|].
    apply Hkeep. vm_compute. intros H. discriminate H.
Defined.

(** X15: the op code 3 is none [atomic_op] knows. *)
Lemma atomic_op_unknown_witness :
  exists rt',
    atomic_op cfg STAT_STOPPED_IMAGE mpi_reduce 3 win0 0 2 100 200 (Some 9) 4
      rt0
    = Returns (Some 0) rt'
    /\ memory rt' = memory rt0.
Proof.
  destruct (atomic_op_unknown_code_is_ignored cfg STAT_STOPPED_IMAGE
              mpi_reduce 3 win0 0 2 100 200 (Some 9) 4 rt0)
    as (rt' & Hrun & Hmem & _); try lia.
  exists rt'. split; assumption.
Defined.

(** X16: an atomic add on a variable of image 2. *)
Lemma atomic_op_sum_witness :
  exists rt',
    atomic_op cfg STAT_STOPPED_IMAGE mpi_reduce 1 win0 0 2 100 200 (Some 9) 4
      rt0
    = Returns (Some 0) rt'
    /\ events rt' = [Fetch_and_op MPI_SUM 1 0 7; Win_flush 1 7].
Proof.
  destruct (atomic_op_updates_target cfg STAT_STOPPED_IMAGE mpi_reduce 1
              MPI_SUM win0 0 2 100 200 (Some 9) 4 rt0)
    as (dt & rt' & _ & Hrun & _ & Hev).
  - left. reflexivity.
  - left. reflexivity.
  - unfold atomic_image. simpl. lia.
  - vm_compute. lia.
  - exists rt'. split; [exact Hrun | exact Hev].
Defined.

(** X17: an event posted on image 2 and queried. *)
Lemma event_post_query_witness :
  exists rt1 rt2,
    event_post cfg STAT_STOPPED_IMAGE STAT_FAILED_IMAGE mpi_reduce_exact win0
      0 2 (Some 9) None 0 rt0
    = Returns (Some 0, None) rt1
    /\ event_query mpi_reduce_exact win0 0 2 (Some 9) rt1
       = Returns (1, Some 0) rt2.
Proof.
  destruct (event_post_then_query cfg STAT_STOPPED_IMAGE STAT_FAILED_IMAGE
              mpi_reduce_exact win0 0 2 (Some 9) (Some 9) None 0 rt0)
    as (rt1 & rt2 & H1 & _ & H2 & _).
  - exact mpi_reduce_exact_sum.
  - exact mpi_reduce_exact_no_op.
  - unfold STAT_FAILED_IMAGE. lia.
  - lia.
  - unfold event_image. simpl. lia.
  - intros H. discriminate H.
  - vm_compute. split; [intros H; discriminate H | reflexivity].
  - exists rt1, rt2. split; [exact H1 | exact H2].
Defined.



(** X20: ten integers copied from the window of image 1 to that of image 2. *)
Lemma sendget_witness :
  exists rt',
    sendget cfg STAT_STOPPED_IMAGE STAT_FAILED_IMAGE is_contiguous win0 0 2
      (ten_integers 0) win0 0 1 (ten_integers 0) 4 4 false None rt0
    = Returns None rt'
    /\ events rt'
       = [Get 0 0 40 7; Win_flush 0 7; Put 1 0 40 7; Win_flush 1 7].
Proof.
  destruct (sendget_copies_between_images cfg STAT_STOPPED_IMAGE
              STAT_FAILED_IMAGE is_contiguous win0 0 2 (ten_integers 0) win0
              0 1 (ten_integers 0) 4 4 false None rt0)
    as (rt' & Hrun & _ & Hev).
  - vm_compute. split; reflexivity.
  - reflexivity.
  - reflexivity.
  - right. split; [simpl; lia|]. split; reflexivity.
  - simpl. lia.
  - simpl. lia.
  - intros H. discriminate H.
  - exists rt'. split; [exact Hrun | exact Hev].
Defined.

(** X21: ten integers sent to, and fetched from, the failed image 2. *)
Lemma transfer_on_failed_image_witness :
  send cfg_failed STAT_STOPPED_IMAGE STAT_FAILED_IMAGE is_contiguous win0 0 2
    (ten_integers 0) (ten_integers 200) 4 4 false (Some 9) rt_failed
  = Returns (Some STAT_FAILED_IMAGE) rt_failed
  /\ get cfg_failed STAT_STOPPED_IMAGE STAT_FAILED_IMAGE is_contiguous win0 0
       2 (ten_integers 0) (ten_integers 400) 4 4 false (Some 9) rt_failed
     = Returns (Some STAT_FAILED_IMAGE) rt_failed.
Proof.
  split.
  - apply (transfer_on_failed_image_reports cfg_failed STAT_STOPPED_IMAGE
             STAT_FAILED_IMAGE is_contiguous win0 0 2 (ten_integers 0)
             (ten_integers 200) 4 4 false 9 rt_failed);
      [reflexivity | reflexivity | vm_compute; intros H; discriminate H].
  - apply (transfer_on_failed_image_reports cfg_failed STAT_STOPPED_IMAGE
             STAT_FAILED_IMAGE is_contiguous win0 0 2 (ten_integers 400)
             (ten_integers 0) 4 4 false 9 rt_failed);
      [reflexivity | reflexivity | vm_compute; intros H; discriminate H].
Defined.

(** X22: the triplet [1:10:3]. *)
Lemma COMPUTE_NUM_ITEMS_witness :
  COMPUTE_NUM_ITEMS 3 1 10 = Some 4
  /\ forall k, 0 <= k -> (1 + k * 3 <= 10 <-> k < 4).
Proof.
  pose proof (COMPUTE_NUM_ITEMS_counts_section 3 1 10 ltac:(lia) ltac:(lia)
                ltac:(lia)) as H.
  change (COMPUTE_NUM_ITEMS 3 1 10) with (Some 4) in H.
  destruct H as (_ & _ & H).
  split; [reflexivity | exact H].
Defined.

End Example.
